(** * WebMCP Inspector: schema engine, call signatures and the AI agent loop

    A shallow embedding of the orchestration core of [src/sidebar.js]
    ([parseSchema], [generateTemplateFromSchema], [normalizeInputForSchema],
    [stableStringify], [buildToolCallSignature], [runAIAgentLoop]) together
    with the part of the JavaScript run-time these functions rely on.

    Modelling decisions, in one place:
    - a JavaScript value is a finite tree; every array and object node carries
      the identity ([loc]) that [===], [Array.prototype.includes] and the
      [WeakSet] of [stableStringify] compare; code that builds a new array or
      object draws a fresh identity from an allocation counter;
    - a Number is an IEEE 754 binary64 value, [spec_float] with precision 53
      and maximal exponent 1024, so that rounding, signed zeros, NaN and the
      infinities behave as in the engine;
    - a String is a sequence of code units, restricted here to 0..255;
    - property reads are own-property reads: the members inherited from
      [Object.prototype] (such as [constructor]) are outside the model, and so
      are the resource limits of an engine (maximal string length, stack depth);
    - the clock and the regular-expression engine are parameters ([Host]); the
      AI provider and the tool execution gateway are parameters of the loop.

    Around that core the development also embeds the callers of the loop and
    of the schema engine in [src/sidebar.js] ([sendAIMessage],
    [executeSelectedTool], the grouping of [renderToolLists] with
    [isDeclarativeTool], [prepareModelsForStorage]), the schema parser of the
    provider adapters ([src/js/ai/AIManager.js]) and what the content script
    hands over to the side panel ([toPlainSerializable],
    [parseToolInputSchema] and [normalizeTools] of [src/content.js]). *)

From stdpp Require Import gmap strings list sorting.
From Stdlib Require Import ZArith Ascii String List Bool Lia.
From Stdlib Require Import Sorting.Permutation Sorting.Sorted.
From Corelib Require Import SpecFloat.

Local Open Scope Z_scope.

(** ** Strings: the String builtins the code calls *)

Module JSString.

Definition code (c : ascii) : Z := Z.of_N (N_of_ascii c).
Definition char_of_code (z : Z) : ascii := ascii_of_N (Z.to_N z).

Definition is_digit (c : ascii) : bool := (48 <=? code c) && (code c <=? 57).
Definition digit_value (c : ascii) : Z := code c - 48.
Definition digit_char (d : Z) : ascii := char_of_code (48 + d).

(** White space and line terminators among the code units 0..255, as
    [String.prototype.trim] and the Number grammar use them. *)
Definition is_white_space (c : ascii) : bool :=
  let n := code c in
  ((9 <=? n) && (n <=? 13)) || (n =? 32) || (n =? 160).

Fixpoint concat (l : list string) : string :=
  match l with
  | [] => ""
  | s :: l' => s +:+ concat l'
  end.

(** [Array.prototype.join] on an array of strings. *)
Fixpoint join (sep : string) (l : list string) : string :=
  match l with
  | [] => ""
  | [s] => s
  | s :: l' => s +:+ sep +:+ join sep l'
  end.

Fixpoint decimal_go (fuel : nat) (z : Z) (acc : string) : string :=
  match fuel with
  | O => acc
  | S fuel' =>
    let acc' := String (digit_char (z mod 10)) acc in
    if z <? 10 then acc' else decimal_go fuel' (z / 10) acc'
  end.

(** The decimal digits of a non-negative integer. *)
Definition decimal (z : Z) : string :=
  decimal_go (S (Z.to_nat (Z.log2 z))) z "".

(** The value of a string of digits in a radix (no check of the digits). *)
Fixpoint digits_value_go (radix : Z) (s : string) (acc : Z) : Z :=
  match s with
  | EmptyString => acc
  | String c s' => digits_value_go radix s' (acc * radix + digit_value c)
  end.

Definition digits_value (s : string) : Z := digits_value_go 10 s 0.

(** The longest prefix of decimal digits, and what follows it. *)
Fixpoint span_digits (s : string) : string * string :=
  match s with
  | EmptyString => ("", "")
  | String c s' =>
    if is_digit c then let '(d, r) := span_digits s' in (String c d, r)
    else ("", s)
  end.

Definition lower_char (c : ascii) : ascii :=
  let n := code c in
  if ((65 <=? n) && (n <=? 90)) || ((192 <=? n) && (n <=? 222) && negb (n =? 215))
  then char_of_code (n + 32) else c.

(** [String.prototype.toLowerCase]. *)
Fixpoint toLowerCase (s : string) : string :=
  match s with
  | EmptyString => ""
  | String c s' => String (lower_char c) (toLowerCase s')
  end.

(** [String.prototype.includes]. *)
Fixpoint includes (s sub : string) : bool :=
  String.prefix sub s ||
  match s with
  | EmptyString => false
  | String _ s' => includes s' sub
  end.

Fixpoint trim_start (s : string) : string :=
  match s with
  | EmptyString => ""
  | String c s' => if is_white_space c then trim_start s' else s
  end.

Fixpoint trim_end (s : string) : string :=
  match s with
  | EmptyString => ""
  | String c s' =>
    match trim_end s' with
    | EmptyString => if is_white_space c then "" else String c ""
    | t => String c t
    end
  end.

(** [String.prototype.trim]. *)
Definition trim (s : string) : string := trim_end (trim_start s).

(** [String.prototype.repeat] with a count that is already an integer. *)
Fixpoint repeat (s : string) (n : nat) : string :=
  match n with
  | O => ""
  | S n' => s +:+ repeat s n'
  end.

Fixpoint take (n : nat) (s : string) : string :=
  match n, s with
  | S n', String c s' => String c (take n' s')
  | _, _ => ""
  end.

(** [String.prototype.padEnd] with a target length that is already an
    integer: the filler is repeated and cut to the missing length. *)
Definition padEnd (s : string) (target : nat) (filler : string) : string :=
  let len := String.length s in
  if (target <=? len)%nat then s
  else if String.eqb filler "" then s
  else s +:+ take (target - len) (repeat filler (target - len)).

(** The end position that [slice(0, end)] uses on a sequence of length [len]. *)
Definition slice_end (len : nat) (e : Z) : nat :=
  if e <? 0 then Z.to_nat (Z.max (Z.of_nat len + e) 0)
  else Z.to_nat (Z.min e (Z.of_nat len)).

End JSString.

(** ** Numbers: IEEE 754 binary64 *)

Module JSNumber.

Definition number := spec_float.

Definition prec : Z := 53.
Definition emax : Z := 1024.

Definition nan : number := S754_nan.
Definition pos_infinity : number := S754_infinity false.
Definition neg_infinity : number := S754_infinity true.
Definition pos_zero : number := S754_zero false.
Definition neg_zero : number := S754_zero true.

(** The Number nearest to an integer (ties to even). *)
Definition of_Z (z : Z) : number := binary_normalize prec emax z 0 false.

(** The Number nearest to the fraction [n / d], for [n >= 0] and [d > 0]:
    one exact integer division with enough quotient bits, then one rounding. *)
Definition of_ratio (sign : bool) (n d : Z) : number :=
  match n with
  | Z0 => S754_zero sign
  | _ =>
    let '(q, e, l) := SFdiv_core_binary prec emax n 0 d 0 in
    binary_round_aux prec emax sign q e l
  end.

(** [m * 10^e10] rounded once, the value of a decimal literal. *)
Definition of_decimal (sign : bool) (m : Z) (e10 : Z) : number :=
  if 0 <=? e10 then of_ratio sign (m * 10 ^ e10) 1
  else of_ratio sign m (10 ^ (- e10)).

Definition add : number -> number -> number := SFadd prec emax.
Definition sub : number -> number -> number := SFsub prec emax.
Definition eqb : number -> number -> bool := SFeqb.
Definition ltb : number -> number -> bool := SFltb.
Definition leb : number -> number -> bool := SFleb.
Definition gtb (x y : number) : bool := ltb y x.
Definition geb (x y : number) : bool := leb y x.

(** [Number.isFinite] on a Number. *)
Definition isFinite (x : number) : bool :=
  match x with
  | S754_zero _ | S754_finite _ _ _ => true
  | S754_infinity _ | S754_nan => false
  end.

Definition is_nan (x : number) : bool :=
  match x with S754_nan => true | _ => false end.

(** The magnitude of a finite Number as the fraction [num / den]. *)
Definition magnitude (m : positive) (e : Z) : Z * Z :=
  if 0 <=? e then (Zpos m * 2 ^ e, 1) else (Zpos m, 2 ^ (- e)).

(** An integer as a Number, with the sign to use when it is zero. *)
Definition of_Z_signed (zero_sign : bool) (z : Z) : number :=
  match z with
  | Z0 => S754_zero zero_sign
  | _ => of_Z z
  end.

(** [Math.floor]. *)
Definition floor (x : number) : number :=
  match x with
  | S754_finite s m e =>
    if 0 <=? e then x
    else
      let '(n, d) := magnitude m e in
      if s then of_Z_signed true (- ((n + d - 1) / d))
      else of_Z_signed false (n / d)
  | _ => x
  end.

(** [Math.ceil]. *)
Definition ceil (x : number) : number :=
  match x with
  | S754_finite s m e =>
    if 0 <=? e then x
    else
      let '(n, d) := magnitude m e in
      if s then of_Z_signed true (- (n / d))
      else of_Z_signed false ((n + d - 1) / d)
  | _ => x
  end.

(** [Math.round]: the nearest integer, a tie going towards [+Infinity];
    a result of zero keeps the sign of the argument. *)
Definition round (x : number) : number :=
  match x with
  | S754_finite s m e =>
    if 0 <=? e then x
    else
      let '(n, d) := magnitude m e in
      if s then of_Z_signed true (- ((2 * n + d - 1) / (2 * d)))
      else of_Z_signed false ((2 * n + d) / (2 * d))
  | _ => x
  end.

(** [Math.min] of two Numbers. *)
Definition min (x y : number) : number :=
  if is_nan x || is_nan y then nan
  else if ltb x y then x
  else if ltb y x then y
  else match x, y with
       | S754_zero true, _ => x
       | _, S754_zero true => y
       | _, _ => x
       end.

(** [ToIntegerOrInfinity]: the integer that [repeat], [padEnd] and [slice]
    derive from a Number argument. *)
Inductive integer_or_infinity :=
| IntNegInf
| IntFinite (z : Z)
| IntPosInf.

Definition toIntegerOrInfinity (x : number) : integer_or_infinity :=
  match x with
  | S754_nan => IntFinite 0
  | S754_zero _ => IntFinite 0
  | S754_infinity s => if s then IntNegInf else IntPosInf
  | S754_finite s m e =>
    let '(n, d) := magnitude m e in
    IntFinite (if s then - (n / d) else n / d)
  end.

(** [ToLength]: a length between 0 and 2^53 - 1. *)
Definition toLength (x : number) : nat :=
  match toIntegerOrInfinity x with
  | IntNegInf => O
  | IntFinite z => Z.to_nat (Z.min (Z.max z 0) (2 ^ 53 - 1))
  | IntPosInf => Z.to_nat (2 ^ 53 - 1)
  end.

Definition of_nat (n : nat) : number := of_Z (Z.of_nat n).

(** *** Number::toString (radix 10)

    For a positive finite Number the digits are the shortest decimal [s] of
    [k] digits with [s * 10^(n-k)] rounding to the Number; among several of
    that length the one closest to it. *)

(** The [n] with [10^(n-1) <= num/den < 10^n]. *)
Fixpoint scale_up (fuel : nat) (num den j : Z) : Z :=
  match fuel with
  | O => j
  | S fuel' => if den <=? num * 10 ^ j then j else scale_up fuel' num den (j + 1)
  end.

Definition decimal_exponent (num den : Z) : Z :=
  if den <=? num then Z.of_nat (String.length (JSString.decimal (num / den)))
  else 1 - scale_up 400 num den 1.

(** [s * 10^e10] as a fraction. *)
Definition decimal_fraction (s e10 : Z) : Z * Z :=
  if 0 <=? e10 then (s * 10 ^ e10, 1) else (s, 10 ^ (- e10)).

(** The candidates of [k] digits: [(s, n)] with [10^(k-1) <= s < 10^k] and
    [s * 10^(n-k)] rounding to [x = num/den]. *)
Definition candidates (x : number) (num den nv k : Z) : list (Z * Z) :=
  let at_exponent (n : Z) : list (Z * Z) :=
    let '(pn, pd) := decimal_fraction 1 (k - n) in
    let fl := (num * pn) / (den * pd) in
    List.filter
      (fun c => (10 ^ (k - 1) <=? fst c) && (fst c <? 10 ^ k)
                && eqb (of_decimal false (fst c) (n - k)) x)
      [(fl, n); (fl + 1, n)] in
  at_exponent nv ++ at_exponent (nv + 1).

(** Is candidate [c1] strictly better than [c2]: closer to [num/den], or as
    close with an even [s]? *)
Definition closer (num den k : Z) (c1 c2 : Z * Z) : bool :=
  let dist (c : Z * Z) : Z * Z :=
    let '(cn, cd) := decimal_fraction (fst c) (snd c - k) in
    (Z.abs (cn * den - num * cd), cd * den) in
  let '(a1, b1) := dist c1 in
  let '(a2, b2) := dist c2 in
  (a1 * b2 <? a2 * b1) || ((a1 * b2 =? a2 * b1) && Z.even (fst c1) && negb (Z.even (fst c2))).

Definition best (num den k : Z) (cs : list (Z * Z)) : option (Z * Z) :=
  List.fold_left
    (fun acc c =>
       match acc with
       | None => Some c
       | Some b => if closer num den k c b then Some c else Some b
       end)
    cs None.

Fixpoint shortest_go (fuel : nat) (x : number) (num den nv k : Z) : Z * Z * Z :=
  match fuel with
  | O => (0, nv, k)
  | S fuel' =>
    match best num den k (candidates x num den nv k) with
    | Some (s, n) => (s, n, k)
    | None => shortest_go fuel' x num den nv (k + 1)
    end
  end.

(** The triple [(s, n, k)] of Number::toString for a positive finite Number. *)
Definition shortest (m : positive) (e : Z) : Z * Z * Z :=
  let '(num, den) := magnitude m e in
  shortest_go 17 (S754_finite false m e) num den (decimal_exponent num den) 1.

Definition zeros (n : Z) : string := JSString.repeat "0" (Z.to_nat n).

Definition format_digits (s n k : Z) : string :=
  let digits := JSString.decimal s in
  if (k <=? n) && (n <=? 21) then digits +:+ zeros (n - k)
  else if (0 <? n) && (n <=? 21) then
    JSString.take (Z.to_nat n) digits +:+ "." +:+
    String.substring (Z.to_nat n) (Z.to_nat (k - n)) digits
  else if (-6 <? n) && (n <=? 0) then "0." +:+ zeros (- n) +:+ digits
  else
    let exponent :=
      (if 0 <=? n - 1 then "+" else "-") +:+ JSString.decimal (Z.abs (n - 1)) in
    if k =? 1 then digits +:+ "e" +:+ exponent
    else JSString.take 1 digits +:+ "." +:+
         String.substring 1 (Z.to_nat (k - 1)) digits +:+ "e" +:+ exponent.

(** [String(x)] for a Number [x]. *)
Definition toString (x : number) : string :=
  match x with
  | S754_nan => "NaN"
  | S754_zero _ => "0"
  | S754_infinity s => if s then "-Infinity" else "Infinity"
  | S754_finite sign m e =>
    let '(s, n, k) := shortest m e in
    (if sign then "-" else "") +:+ format_digits s n k
  end.

(** *** StringToNumber *)

(** An unsigned decimal literal that must span the whole string:
    digits, an optional fraction, an optional exponent. *)
Definition parse_unsigned_decimal (sign : bool) (s : string) : option number :=
  let '(int_part, r1) := JSString.span_digits s in
  let '(frac_part, r2, has_dot) :=
    match r1 with
    | String "." r => let '(f, r') := JSString.span_digits r in (f, r', true)
    | _ => ("", r1, false)
    end in
  if String.eqb int_part "" && String.eqb frac_part "" then None
  else
    let mantissa := JSString.digits_value (int_part +:+ frac_part) in
    let scale := - Z.of_nat (String.length frac_part) in
    match r2 with
    | EmptyString => Some (of_decimal sign mantissa scale)
    | String c r3 =>
      if (JSString.code c =? 101) || (JSString.code c =? 69) then
        let '(esign, r4) :=
          match r3 with
          | String "+" r => (false, r)
          | String "-" r => (true, r)
          | _ => (false, r3)
          end in
        let '(edigits, r5) := JSString.span_digits r4 in
        if String.eqb edigits "" || negb (String.eqb r5 "") then None
        else
          let ev := JSString.digits_value edigits in
          Some (of_decimal sign mantissa (scale + (if esign then - ev else ev)))
      else None
    end.

Definition radix_digit (radix : Z) (c : ascii) : option Z :=
  let n := JSString.code c in
  let v :=
    if (48 <=? n) && (n <=? 57) then n - 48
    else if (97 <=? n) && (n <=? 102) then n - 87
    else if (65 <=? n) && (n <=? 70) then n - 55
    else radix in
  if v <? radix then Some v else None.

Fixpoint parse_radix (radix : Z) (s : string) (acc : Z) : option Z :=
  match s with
  | EmptyString => Some acc
  | String c s' =>
    match radix_digit radix c with
    | Some v => parse_radix radix s' (acc * radix + v)
    | None => None
    end
  end.

Definition parse_non_decimal (radix : Z) (digits : string) : number :=
  match digits with
  | EmptyString => nan
  | _ => match parse_radix radix digits 0 with
         | Some z => of_Z z
         | None => nan
         end
  end.

(** [Number(s)] for a String [s]. *)
Definition ofString (s : string) : number :=
  match JSString.trim s with
  | EmptyString => pos_zero
  | String "0" (String "x" r) | String "0" (String "X" r) => parse_non_decimal 16 r
  | String "0" (String "o" r) | String "0" (String "O" r) => parse_non_decimal 8 r
  | String "0" (String "b" r) | String "0" (String "B" r) => parse_non_decimal 2 r
  | t =>
    let '(sign, body) :=
      match t with
      | String "+" r => (false, r)
      | String "-" r => (true, r)
      | _ => (false, t)
      end in
    if String.eqb body "Infinity" then S754_infinity sign
    else match parse_unsigned_decimal sign body with
         | Some x => x
         | None => nan
         end
  end.

End JSNumber.

Export JSNumber (number).

(** ** Values *)

(** The identity of an array or object. *)
Definition loc := nat.

Unset Elimination Schemes.
Inductive jsvalue :=
| VUndefined
| VNull
| VBool (b : bool)
| VNumber (x : number)
| VString (s : string)
| VArray (l : loc) (items : list jsvalue)
| VObject (l : loc) (fields : list (string * jsvalue)).
Set Elimination Schemes.

(** Own properties of an object, in the order [Object.entries] lists them. *)
Definition fields := list (string * jsvalue).

Fixpoint value_depth (v : jsvalue) : nat :=
  match v with
  | VArray _ items => S (list_max (List.map value_depth items))
  | VObject _ fs => S (list_max (List.map (fun kv => value_depth (snd kv)) fs))
  | _ => O
  end.

(** [typeof v]. *)
Definition typeof (v : jsvalue) : string :=
  match v with
  | VUndefined => "undefined"
  | VNull => "object"
  | VBool _ => "boolean"
  | VNumber _ => "number"
  | VString _ => "string"
  | VArray _ _ => "object"
  | VObject _ _ => "object"
  end.

(** ToBoolean: what [if (v)], [!v], [v || w] and [v && w] test. *)
Definition truthy (v : jsvalue) : bool :=
  match v with
  | VUndefined | VNull => false
  | VBool b => b
  | VNumber x =>
    match x with
    | S754_zero _ | S754_nan => false
    | _ => true
    end
  | VString s => negb (String.eqb s "")
  | VArray _ _ | VObject _ _ => true
  end.

(** [Array.isArray]. *)
Definition isArray (v : jsvalue) : bool :=
  match v with VArray _ _ => true | _ => false end.

(** [v === w]: primitives by value (NaN differs from itself, the two zeros
    are equal), arrays and objects by identity. *)
Definition strict_equals (v w : jsvalue) : bool :=
  match v, w with
  | VUndefined, VUndefined => true
  | VNull, VNull => true
  | VBool a, VBool b => Bool.eqb a b
  | VNumber x, VNumber y => JSNumber.eqb x y
  | VString s, VString t => String.eqb s t
  | VArray l _, VArray l' _ => Nat.eqb l l'
  | VObject l _, VObject l' _ => Nat.eqb l l'
  | _, _ => false
  end.

(** SameValueZero, the comparison of [includes] and of [Set]: as [===]
    except that NaN equals itself. *)
Definition same_value_zero (v w : jsvalue) : bool :=
  match v, w with
  | VNumber S754_nan, VNumber S754_nan => true
  | _, _ => strict_equals v w
  end.

(** [items.includes(v)]. *)
Definition array_includes (items : list jsvalue) (v : jsvalue) : bool :=
  existsb (fun w => same_value_zero w v) items.

Fixpoint lookup_field (k : string) (fs : fields) : option jsvalue :=
  match fs with
  | [] => None
  | (k', v) :: fs' => if String.eqb k' k then Some v else lookup_field k fs'
  end.

(** The array index a property key denotes, when it is the canonical decimal
    form of an integer below 2^32 - 1. *)
Definition array_index (k : string) : option nat :=
  match k with
  | EmptyString => None
  | _ =>
    let n := JSString.digits_value k in
    if String.eqb (JSString.decimal n) k && (n <? 2 ^ 32 - 1)
    then Some (Z.to_nat n) else None
  end.

(** [v[k]] for a value that is not null or undefined: own properties only. *)
Definition get_prop (v : jsvalue) (k : string) : jsvalue :=
  match v with
  | VObject _ fs => from_option id VUndefined (lookup_field k fs)
  | VArray _ items =>
    if String.eqb k "length" then VNumber (JSNumber.of_nat (List.length items))
    else match array_index k with
         | Some i => List.nth i items VUndefined
         | None => VUndefined
         end
  | VString s =>
    if String.eqb k "length" then VNumber (JSNumber.of_nat (String.length s))
    else match array_index k with
         | Some i =>
           match String.get i s with
           | Some c => VString (String c "")
           | None => VUndefined
           end
         | None => VUndefined
         end
  | _ => VUndefined
  end.

(** [v?.k]: undefined when [v] is null or undefined. *)
Definition get_prop_opt (v : jsvalue) (k : string) : jsvalue := get_prop v k.

(** [Object.prototype.hasOwnProperty.call(v, k)] on an array or object. *)
Definition hasOwnProperty (v : jsvalue) (k : string) : bool :=
  match v with
  | VObject _ fs => bool_decide (is_Some (lookup_field k fs))
  | VArray _ items =>
    String.eqb k "length" ||
    match array_index k with
    | Some i => (i <? List.length items)%nat
    | None => false
    end
  | _ => false
  end.

Fixpoint index_entries {A} (f : A -> jsvalue) (i : nat) (l : list A) : fields :=
  match l with
  | [] => []
  | x :: l' => (JSString.decimal (Z.of_nat i), f x) :: index_entries f (S i) l'
  end.

(** [Object.entries(v)] for a value that is not null or undefined. *)
Definition object_entries (v : jsvalue) : fields :=
  match v with
  | VObject _ fs => fs
  | VArray _ items => index_entries id 0 items
  | VString s => index_entries (fun c => VString (String c "")) 0 (list_ascii_of_string s)
  | _ => []
  end.

Fixpoint replace_field (k : string) (v : jsvalue) (fs : fields) : fields :=
  match fs with
  | [] => []
  | (k', v') :: fs' =>
    if String.eqb k' k then (k, v) :: fs' else (k', v') :: replace_field k v fs'
  end.

(** A new integer-index key goes before the string keys, among the index
    keys in ascending order. *)
Fixpoint insert_index_field (i : nat) (k : string) (v : jsvalue) (fs : fields) : fields :=
  match fs with
  | [] => [(k, v)]
  | (k', v') :: fs' =>
    match array_index k' with
    | Some j => if (j <? i)%nat then (k', v') :: insert_index_field i k v fs'
                else (k, v) :: fs
    | None => (k, v) :: fs
    end
  end.

(** [o[k] = v] on the own properties of an ordinary object. *)
Definition set_field (k : string) (v : jsvalue) (fs : fields) : fields :=
  match lookup_field k fs with
  | Some _ => replace_field k v fs
  | None =>
    match array_index k with
    | Some i => insert_index_field i k v fs
    | None => fs ++ [(k, v)]
    end
  end.

(** [String(v)]. *)
Fixpoint to_string (v : jsvalue) : string :=
  match v with
  | VUndefined => "undefined"
  | VNull => "null"
  | VBool b => if b then "true" else "false"
  | VNumber x => JSNumber.toString x
  | VString s => s
  | VArray _ items =>
    JSString.join ","
      (List.map (fun x => match x with
                          | VUndefined | VNull => ""
                          | _ => to_string x
                          end) items)
  | VObject _ _ => "[object Object]"
  end.

(** [Number(v)]. *)
Definition to_number (v : jsvalue) : number :=
  match v with
  | VUndefined => JSNumber.nan
  | VNull => JSNumber.pos_zero
  | VBool b => if b then JSNumber.of_Z 1 else JSNumber.pos_zero
  | VNumber x => x
  | VString s => JSNumber.ofString s
  | VArray _ _ | VObject _ _ => JSNumber.ofString (to_string v)
  end.

(** [v < w], [v <= w], [v > w], [v >= w] when one side is a Number: the
    other side is converted with ToNumber. *)
Definition js_lt (v w : jsvalue) : bool := JSNumber.ltb (to_number v) (to_number w).
Definition js_le (v w : jsvalue) : bool := JSNumber.leb (to_number v) (to_number w).
Definition js_gt (v w : jsvalue) : bool := JSNumber.gtb (to_number v) (to_number w).
Definition js_ge (v w : jsvalue) : bool := JSNumber.geb (to_number v) (to_number w).

Definition num (z : Z) : jsvalue := VNumber (JSNumber.of_Z z).

(** ** Computations: state, exceptions, fuel *)

(** A computation on a state [S] ends with a result and a new state, or with
    a thrown exception (its message) and a new state, or it runs out of the
    fuel that bounds a recursion of the model. *)
Inductive outcome (S A : Type) :=
| Ok (x : A) (s : S)
| Throw (message : string) (s : S)
| OutOfFuel.
Arguments Ok {S A} x s.
Arguments Throw {S A} message s.
Arguments OutOfFuel {S A}.

Definition comp (S A : Type) := S -> outcome S A.

Definition ret {S A} (x : A) : comp S A := fun s => Ok x s.

Definition bind {S A B} (c : comp S A) (k : A -> comp S B) : comp S B :=
  fun s =>
    match c s with
    | Ok x s' => k x s'
    | Throw msg s' => Throw msg s'
    | OutOfFuel => OutOfFuel
    end.

Definition throw {S A} (msg : string) : comp S A := fun s => Throw msg s.

Definition out_of_fuel {S A} : comp S A := fun _ => OutOfFuel.

(** [try { c } catch (error) { h(error.message) }]. *)
Definition try_catch {S A} (c : comp S A) (h : string -> comp S A) : comp S A :=
  fun s =>
    match c s with
    | Throw msg s' => h msg s'
    | r => r
    end.

Definition get_state {S} : comp S S := fun s => Ok s s.
Definition modify {S} (f : S -> S) : comp S unit := fun s => Ok tt (f s).

Notation "'let*' x ':=' c 'in' k" := (bind c (fun x => k))
  (at level 10, x pattern, c at level 100, k at level 200).

(** The next free identity, and the computations that only allocate. *)
Definition alloc := nat.
Definition M (A : Type) := comp alloc A.

(** The identity of a newly created array or object. *)
Definition fresh : M loc := fun a => Ok a (S a).

(** [[]] and [{}] literals, and literals with given content. *)
Definition new_array (items : list jsvalue) : M jsvalue :=
  let* l := fresh in ret (VArray l items).

Definition new_object (fs : fields) : M jsvalue :=
  let* l := fresh in ret (VObject l fs).

(** ** JSON *)

Module JSON.

Definition dquote : ascii := "034"%char.

Definition hex_digit (d : Z) : ascii :=
  if d <? 10 then JSString.char_of_code (48 + d) else JSString.char_of_code (87 + d).

(** One code unit inside a JSON string literal, as [JSON.stringify] writes it. *)
Definition quote_char (c : ascii) : string :=
  let n := JSString.code c in
  if n =? 8 then "\b"
  else if n =? 9 then "\t"
  else if n =? 10 then "\n"
  else if n =? 12 then "\f"
  else if n =? 13 then "\r"
  else if n =? 34 then String "\" (String dquote "")
  else if n =? 92 then "\\"
  else if n <? 32 then
    "\u00" +:+ String (hex_digit (n / 16)) (String (hex_digit (n mod 16)) "")
  else String c "".

Fixpoint quote_body (s : string) : string :=
  match s with
  | EmptyString => ""
  | String c s' => quote_char c +:+ quote_body s'
  end.

(** [JSON.stringify(s)] for a String [s]. *)
Definition quote (s : string) : string :=
  String dquote (quote_body s +:+ String dquote "").

(** [JSON.stringify(v)]: [None] stands for the result [undefined]. *)
Fixpoint stringify (v : jsvalue) : option string :=
  match v with
  | VUndefined => None
  | VNull => Some "null"
  | VBool b => Some (if b then "true" else "false")
  | VNumber x => Some (if JSNumber.isFinite x then JSNumber.toString x else "null")
  | VString s => Some (quote s)
  | VArray _ items =>
    Some ("[" +:+
          JSString.join ","
            (List.map (fun x => from_option id "null" (stringify x)) items)
          +:+ "]")
  | VObject _ fs =>
    Some ("{" +:+
          JSString.join ","
            (List.flat_map
               (fun kv => match stringify (snd kv) with
                          | Some r => [quote (fst kv) +:+ ":" +:+ r]
                          | None => []
                          end) fs)
          +:+ "}")
  end.

(** [`${JSON.stringify(v)}`]. *)
Definition stringify_text (v : jsvalue) : string :=
  from_option id "undefined" (stringify v).

(** *** JSON.parse *)

Definition is_json_space (c : ascii) : bool :=
  let n := JSString.code c in
  (n =? 32) || (n =? 9) || (n =? 10) || (n =? 13).

Fixpoint skip_space (s : string) : string :=
  match s with
  | String c s' => if is_json_space c then skip_space s' else s
  | EmptyString => ""
  end.

Definition hex_value (c : ascii) : option Z := JSNumber.radix_digit 16 c.

(** The code unit of [\uXXXX]; units above 255 are outside the model. *)
Definition unicode_escape (h1 h2 h3 h4 : ascii) : option ascii :=
  match hex_value h1, hex_value h2, hex_value h3, hex_value h4 with
  | Some a, Some b, Some c, Some d =>
    let n := ((a * 16 + b) * 16 + c) * 16 + d in
    if n <? 256 then Some (JSString.char_of_code n) else None
  | _, _, _, _ => None
  end.

(** The content of a string literal, after its opening quote. *)
Fixpoint parse_string_body (s : string) : option (string * string) :=
  match s with
  | EmptyString => None
  | String c s' =>
    let n := JSString.code c in
    if n =? 34 then Some ("", s')
    else if n <? 32 then None
    else if n =? 92 then
      match s' with
      | EmptyString => None
      | String e s'' =>
        let simple (ch : Z) :=
          match parse_string_body s'' with
          | Some (body, r) => Some (String (JSString.char_of_code ch) body, r)
          | None => None
          end in
        let m := JSString.code e in
        if m =? 34 then simple 34
        else if m =? 92 then simple 92
        else if m =? 47 then simple 47
        else if m =? 98 then simple 8
        else if m =? 102 then simple 12
        else if m =? 110 then simple 10
        else if m =? 114 then simple 13
        else if m =? 116 then simple 9
        else if m =? 117 then
          match s'' with
          | String h1 (String h2 (String h3 (String h4 r))) =>
            match unicode_escape h1 h2 h3 h4, parse_string_body r with
            | Some u, Some (body, r') => Some (String u body, r')
            | _, _ => None
            end
          | _ => None
          end
        else None
      end
    else
      match parse_string_body s' with
      | Some (body, r) => Some (String c body, r)
      | None => None
      end
  end.

(** The rest of [s] after its first code unit, when that unit is [n]. *)
Definition after_code (n : Z) (s : string) : option string :=
  match s with
  | String c r => if JSString.code c =? n then Some r else None
  | EmptyString => None
  end.

(** An optional sign: [true] for [-]. *)
Definition parse_sign (s : string) : bool * string :=
  match after_code 43 s, after_code 45 s with
  | Some r, _ => (false, r)
  | _, Some r => (true, r)
  | _, _ => (false, s)
  end.

(** A number token: [-? int frac? exp?], on a string that starts with
    [-] or a digit. *)
Definition parse_number (s : string) : option (number * string) :=
  let '(sign, body) :=
    match after_code 45 s with
    | Some r => (true, r)
    | None => (false, s)
    end in
  let '(int_part, r1) := JSString.span_digits body in
  let int_ok :=
    match int_part with
    | EmptyString => false
    | String c (String _ _) => negb (JSString.code c =? 48)
    | _ => true
    end in
  if negb int_ok then None
  else
    let frac :=
      match after_code 46 r1 with
      | Some r =>
        let '(f, r') := JSString.span_digits r in
        if String.eqb f "" then None else Some (f, r')
      | None => Some ("", r1)
      end in
    match frac with
    | None => None
    | Some (frac_part, r2) =>
      let mantissa := JSString.digits_value (int_part +:+ frac_part) in
      let scale := - Z.of_nat (String.length frac_part) in
      match after_code 101 r2, after_code 69 r2 with
      | None, None => Some (JSNumber.of_decimal sign mantissa scale, r2)
      | Some r3, _ | None, Some r3 =>
        let '(esign, r4) := parse_sign r3 in
        let '(edigits, r5) := JSString.span_digits r4 in
        if String.eqb edigits "" then None
        else
          let ev := JSString.digits_value edigits in
          Some (JSNumber.of_decimal sign mantissa (scale + (if esign then - ev else ev)), r5)
      end
    end.

Definition strip_prefix (p s : string) : option string :=
  if String.prefix p s
  then Some (String.substring (String.length p) (String.length s - String.length p) s)
  else None.

(** [true], [false] or [null]. *)
Definition parse_literal (s : string) : option (jsvalue * string) :=
  match strip_prefix "true" s, strip_prefix "false" s, strip_prefix "null" s with
  | Some r, _, _ => Some (VBool true, r)
  | _, Some r, _ => Some (VBool false, r)
  | _, _, Some r => Some (VNull, r)
  | _, _, _ => None
  end.

(** A JSON value at the start of [s] (after white space), and what follows
    it; [None] is a syntax error. Arrays and objects get fresh identities. *)
Fixpoint parse_value (fuel : nat) (s : string) : M (option (jsvalue * string)) :=
  match fuel with
  | O => out_of_fuel
  | S fuel' =>
    match skip_space s with
    | EmptyString => ret None
    | String c r as t =>
      if JSString.code c =? 123 then
        let* l := fresh in
        match after_code 125 (skip_space r) with
        | Some r' => ret (Some (VObject l [], r'))
        | None =>
          let* ms := parse_members fuel' (skip_space r) [] in
          match ms with
          | Some (fs, r') => ret (Some (VObject l fs, r'))
          | None => ret None
          end
        end
      else if JSString.code c =? 91 then
        let* l := fresh in
        match after_code 93 (skip_space r) with
        | Some r' => ret (Some (VArray l [], r'))
        | None =>
          let* es := parse_elements fuel' (skip_space r) in
          match es with
          | Some (items, r') => ret (Some (VArray l items, r'))
          | None => ret None
          end
        end
      else if JSString.code c =? 34 then
        match parse_string_body r with
        | Some (body, r') => ret (Some (VString body, r'))
        | None => ret None
        end
      else if (JSString.code c =? 45) || JSString.is_digit c then
        match parse_number t with
        | Some (x, r') => ret (Some (VNumber x, r'))
        | None => ret None
        end
      else ret (parse_literal t)
    end
  end

(** The elements of an array after [[], up to and including []]. *)
with parse_elements (fuel : nat) (s : string) : M (option (list jsvalue * string)) :=
  match fuel with
  | O => out_of_fuel
  | S fuel' =>
    let* e := parse_value fuel' s in
    match e with
    | None => ret None
    | Some (v, r) =>
      match after_code 93 (skip_space r), after_code 44 (skip_space r) with
      | Some r', _ => ret (Some ([v], r'))
      | None, Some r' =>
        let* es := parse_elements fuel' r' in
        match es with
        | Some (items, r'') => ret (Some (v :: items, r''))
        | None => ret None
        end
      | None, None => ret None
      end
    end
  end

(** The members of an object after [{], up to and including [}]; a key
    given twice keeps its first position and its last value. *)
with parse_members (fuel : nat) (s : string) (acc : fields) : M (option (fields * string)) :=
  match fuel with
  | O => out_of_fuel
  | S fuel' =>
    match after_code 34 (skip_space s) with
    | None => ret None
    | Some r =>
      match parse_string_body r with
      | None => ret None
      | Some (key, r1) =>
        match after_code 58 (skip_space r1) with
        | None => ret None
        | Some r2 =>
          let* e := parse_value fuel' r2 in
          match e with
          | None => ret None
          | Some (v, r3) =>
            let acc' := set_field key v acc in
            match after_code 125 (skip_space r3), after_code 44 (skip_space r3) with
            | Some r4, _ => ret (Some (acc', r4))
            | None, Some r4 => parse_members fuel' r4 acc'
            | None, None => ret None
            end
          end
        end
      end
    end
  end.

(** [JSON.parse(text)]: throws a SyntaxError unless the text is one JSON
    value surrounded by white space. *)
Definition parse (text : string) : M jsvalue :=
  let* r := parse_value (2 * String.length text + 2) text in
  match r with
  | Some (v, rest) =>
    match skip_space rest with
    | EmptyString => ret v
    | _ => throw "SyntaxError"
    end
  | None => throw "SyntaxError"
  end.

End JSON.

(** ** The host: clock and regular expressions *)

Record Host := {
  (** [new RegExp(pattern).test(text)]; [None] when the constructor rejects
      the pattern with a SyntaxError. *)
  regexp_test : string -> string -> option bool;
  (** [new Date().toISOString()]. *)
  date_now_iso : string;
  (** [toISOString()] of local midnight, the given number of days ahead. *)
  date_midnight_iso : Z -> string
}.

(** ** Schema engine ([src/sidebar.js], lines 431-694) *)

(** [{ type: 'object', properties: {} }], the schema [parseSchema] falls
    back to. *)
Definition fallback_schema : M jsvalue :=
  let* l := fresh in
  let* properties := new_object [] in
  ret (VObject l [("type", VString "object"); ("properties", properties)]).

(** [parseSchema(schema)]. *)
Definition parseSchema (schema : jsvalue) : M jsvalue :=
  if negb (truthy schema) then fallback_schema
  else if String.eqb (typeof schema) "string" then
    try_catch
      (JSON.parse (to_string schema))
      (fun _ => fallback_schema)
  else ret schema.

(** [Array.isArray(a) && a.length > 0], and then [a[0]]. *)
Definition first_of_array (a : jsvalue) : option jsvalue :=
  match a with
  | VArray _ (x :: _) => Some x
  | _ => None
  end.

(** [v === 'text']. *)
Definition is_text (v : jsvalue) (text : string) : bool :=
  strict_equals v (VString text).

(** [typeof schema[k] === 'number'], and then [schema[k]]. *)
Definition number_keyword (schema : jsvalue) (k : string) : option number :=
  match get_prop schema k with
  | VNumber x => Some x
  | _ => None
  end.

(** [String(path[path.length - 1] || '').toLowerCase()]. *)
Definition field_name (path : list string) : string :=
  let last_segment :=
    match List.last (List.map VString path) VUndefined with
    | v => if truthy v then v else VString ""
    end in
  JSString.toLowerCase (to_string last_segment).

(** [/^\d{4}-\d{2}-\d{2}$/.test(text)]. *)
Definition date_shape (text : string) : bool :=
  match list_ascii_of_string text with
  | [y1; y2; y3; y4; d1; m1; m2; d2; a1; a2] =>
    forallb JSString.is_digit [y1; y2; y3; y4; m1; m2; a1; a2]
    && (JSString.code d1 =? 45) && (JSString.code d2 =? 45)
  | _ => false
  end.

Definition tenth : number := JSNumber.of_decimal false 1 (-1).
Definition one : number := JSNumber.of_Z 1.

Section SchemaEngine.

Variable host : Host.

(** [getFutureDateISO(daysAhead)]. *)
Definition getFutureDateISO (daysAhead : Z) : string :=
  JSString.take 10 (date_midnight_iso host daysAhead).

(** The [for] loop of the [object] case: one template per declared property. *)
Fixpoint template_properties (gen : jsvalue -> list string -> M jsvalue)
    (entries : fields) (path : list string) (out : fields) : M fields :=
  match entries with
  | [] => ret out
  | (key, childSchema) :: rest =>
    let* v := gen childSchema (path ++ [key]) in
    template_properties gen rest path (set_field key v out)
  end.

(** The [string] case of [generateTemplateFromSchema]. *)
Definition template_string (schema : jsvalue) (path : list string) : jsvalue :=
  let fieldName := field_name path in
  let format := get_prop schema "format" in
  if is_text format "date" then
    if JSString.includes fieldName "inbound" || JSString.includes fieldName "return"
    then VString (getFutureDateISO 2)
    else VString (getFutureDateISO 1)
  else if is_text format "date-time" then VString (date_now_iso host)
  else if is_text format "email" then VString "user@example.com"
  else if is_text format "uri" || is_text format "url" then VString "https://example.com"
  else
    match first_of_array (get_prop schema "enum") with
    | Some e => VString (to_string e)
    | None =>
      let pattern :=
        match get_prop schema "pattern" with
        | VString p => p
        | _ => ""
        end in
      if String.eqb pattern "^[A-Z]{3}$" then
        if JSString.includes fieldName "dest" || JSString.includes fieldName "arrival"
        then VString "LAX" else VString "SFO"
      else if JSString.includes fieldName "origin"
              || JSString.includes fieldName "departure"
              || JSString.includes fieldName "from" then VString "SFO"
      else if JSString.includes fieldName "destination"
              || JSString.includes fieldName "arrival" then VString "LAX"
      else
        match number_keyword schema "minLength" with
        | Some minLength =>
          if JSNumber.gtb minLength JSNumber.pos_zero then
            let size := JSNumber.min minLength (JSNumber.of_Z 24) in
            VString (JSString.repeat "a" (JSNumber.toLength size))
          else VString "sample"
        | None => VString "sample"
        end
    end.

(** The [number] and [integer] cases of [generateTemplateFromSchema]. *)
Definition template_number (schema : jsvalue) (path : list string) : jsvalue :=
  let fieldName := field_name path in
  match number_keyword schema "minimum" with
  | Some minimum => VNumber minimum
  | None =>
    match number_keyword schema "exclusiveMinimum" with
    | Some exclusiveMinimum =>
      if is_text (get_prop schema "type") "integer"
      then VNumber (JSNumber.ceil (JSNumber.add exclusiveMinimum one))
      else VNumber (JSNumber.add exclusiveMinimum tenth)
    | None =>
      if JSString.includes fieldName "passenger"
         || JSString.includes fieldName "count"
         || JSString.includes fieldName "quantity"
      then VNumber one
      else VNumber one
    end
  end.

(** [generateTemplateFromSchema(schema, path)], with the recursion on the
    schema counted by [fuel]. *)
Fixpoint template_fuel (fuel : nat) (schema : jsvalue) (path : list string) : M jsvalue :=
  match fuel with
  | O => out_of_fuel
  | S fuel' =>
    if negb (truthy schema) || negb (String.eqb (typeof schema) "object")
    then new_object []
    else if hasOwnProperty schema "const" then ret (get_prop schema "const")
    else if hasOwnProperty schema "default" then ret (get_prop schema "default")
    else
      match first_of_array (get_prop schema "examples") with
      | Some example => ret example
      | None =>
      match first_of_array (get_prop schema "enum") with
      | Some member => ret member
      | None =>
      match first_of_array (get_prop schema "oneOf") with
      | Some branch => template_fuel fuel' branch path
      | None =>
      match first_of_array (get_prop schema "anyOf") with
      | Some branch => template_fuel fuel' branch path
      | None =>
        let type := get_prop schema "type" in
        if is_text type "object" then
          let* l := fresh in
          let properties :=
            if truthy (get_prop schema "properties")
            then object_entries (get_prop schema "properties") else [] in
          let* out := template_properties (template_fuel fuel') properties path [] in
          ret (VObject l out)
        else if is_text type "array" then
          if truthy (get_prop schema "items") then
            let* item := template_fuel fuel' (get_prop schema "items") (path ++ ["0"]) in
            new_array [item]
          else new_array []
        else if is_text type "string" then ret (template_string schema path)
        else if is_text type "number" || is_text type "integer"
        then ret (template_number schema path)
        else if is_text type "boolean" then ret (VBool false)
        else if is_text type "null" then ret VNull
        else new_object []
      end end end end
  end.

(** [generateTemplateFromSchema(schema, path)]: the depth of the schema
    bounds the recursion. *)
Definition generateTemplateFromSchema (schema : jsvalue) (path : list string) : M jsvalue :=
  template_fuel (S (value_depth schema)) schema path.

(** The result [{ value, changed }] of a normalization. *)
Record normalization := Normalized { value_of : jsvalue; changed_of : bool }.

(** [value && typeof value === 'object' && !Array.isArray(value)]. *)
Definition is_plain_object (v : jsvalue) : bool :=
  match v with VObject _ _ => true | _ => false end.

(** [source[key]] on the own properties of an ordinary object. *)
Definition get_field (source : fields) (key : string) : jsvalue :=
  from_option id VUndefined (lookup_field key source).

(** The own properties of [value] when it is an ordinary object, those of
    [{}] otherwise. *)
Definition source_fields (value : jsvalue) : fields :=
  match value with
  | VObject _ fs => fs
  | _ => []
  end.

(** [Array.isArray(schema.enum) && schema.enum.length > 0 &&
    !schema.enum.includes(value)], and then [schema.enum[0]]. *)
Definition enum_mismatch (schema value : jsvalue) : option jsvalue :=
  match get_prop schema "enum" with
  | VArray _ (member :: members) =>
    if array_includes (member :: members) value then None else Some member
  | _ => None
  end.

(** [new Set(required).has(key)]. *)
Definition required_has (required : list jsvalue) (key : string) : bool :=
  array_includes required (VString key).

(** The first [for] loop of the [object] case: the declared properties. *)
Fixpoint normalize_properties (norm : jsvalue -> jsvalue -> list string -> M normalization)
    (entries : fields) (source : fields) (required : list jsvalue)
    (path : list string) (out : fields) (changed : bool) : M (fields * bool) :=
  match entries with
  | [] => ret (out, changed)
  | (key, childSchema) :: rest =>
    if strict_equals (get_field source key) VUndefined && negb (required_has required key)
    then normalize_properties norm rest source required path out changed
    else
      let* childResult := norm childSchema (get_field source key) (path ++ [key]) in
      normalize_properties norm rest source required path
        (set_field key (value_of childResult) out)
        (changed || changed_of childResult)
  end.

(** The second [for] loop of the [object] case: what else the source has. *)
Fixpoint copy_undeclared (entries : fields) (out : fields) : fields :=
  match entries with
  | [] => out
  | (key, rawValue) :: rest =>
    if bool_decide (is_Some (lookup_field key out))
    then copy_undeclared rest out
    else copy_undeclared rest (set_field key rawValue out)
  end.

(** [source.map((item, index) => ...)] of the [array] case. *)
Fixpoint normalize_items (norm : jsvalue -> list string -> M normalization)
    (items : list jsvalue) (index : nat) (path : list string) (changed : bool)
    : M (list jsvalue * bool) :=
  match items with
  | [] => ret ([], changed)
  | item :: rest =>
    let* result := norm item (path ++ [JSString.decimal (Z.of_nat index)]) in
    let* (values, changed') :=
      normalize_items norm rest (S index) path (changed || changed_of result) in
    ret (value_of result :: values, changed')
  end.

(** [next.length]: a TypeError on null and undefined. *)
Definition get_length (next : jsvalue) : M jsvalue :=
  match next with
  | VUndefined | VNull => throw "TypeError"
  | _ => ret (get_prop next "length")
  end.

(** [next.padEnd(minLength, 'a')]: only a String has the method. *)
Definition pad_end (next : jsvalue) (minLength : number) : M jsvalue :=
  match next with
  | VString s => ret (VString (JSString.padEnd s (JSNumber.toLength minLength) "a"))
  | _ => throw "TypeError"
  end.

(** [next.slice(0, maxLength)]: Strings and arrays have the method. *)
Definition slice_to (next : jsvalue) (maxLength : number) : M jsvalue :=
  let stop (len : nat) : nat :=
    match JSNumber.toIntegerOrInfinity maxLength with
    | JSNumber.IntNegInf => O
    | JSNumber.IntFinite e => JSString.slice_end len e
    | JSNumber.IntPosInf => len
    end in
  match next with
  | VString s => ret (VString (JSString.take (stop (String.length s)) s))
  | VArray _ items => new_array (List.firstn (stop (List.length items)) items)
  | _ => throw "TypeError"
  end.

(** The [string] case of [normalizeInputForSchema]. *)
Definition normalize_string (schema value : jsvalue) (path : list string) : M normalization :=
  let is_string := String.eqb (typeof value) "string" in
  let* next :=
    if is_string then ret value else generateTemplateFromSchema schema path in
  let changed := negb is_string in
  let* (next, changed) :=
    if is_text (get_prop schema "format") "date" && negb (date_shape (to_string next))
    then let* template := generateTemplateFromSchema schema path in ret (template, true)
    else ret (next, changed) in
  let* (next, changed) :=
    match get_prop schema "pattern" with
    | VString pattern =>
      match regexp_test host pattern (to_string next) with
      | Some false =>
        let* template := generateTemplateFromSchema schema path in ret (template, true)
      | Some true | None => ret (next, changed)
      end
    | _ => ret (next, changed)
    end in
  let* (next, changed) :=
    match number_keyword schema "minLength" with
    | Some minLength =>
      let* len := get_length next in
      if js_lt len (VNumber minLength)
      then let* padded := pad_end next minLength in ret (padded, true)
      else ret (next, changed)
    | None => ret (next, changed)
    end in
  let* (next, changed) :=
    match number_keyword schema "maxLength" with
    | Some maxLength =>
      let* len := get_length next in
      if js_gt len (VNumber maxLength)
      then let* cut := slice_to next maxLength in ret (cut, true)
      else ret (next, changed)
    | None => ret (next, changed)
    end in
  ret (Normalized next changed).

(** The [number] and [integer] cases of [normalizeInputForSchema]. *)
Definition normalize_number (schema value : jsvalue) (path : list string) : M normalization :=
  let next := to_number value in
  let changed := negb (JSNumber.isFinite next) in
  let* (next, changed) :=
    if negb (JSNumber.isFinite next) then
      let* template := generateTemplateFromSchema schema path in
      ret (to_number template, true)
    else ret (next, changed) in
  let is_integer := is_text (get_prop schema "type") "integer" in
  let '(next, changed) :=
    if is_integer then
      let rounded := JSNumber.round next in
      (rounded, changed || negb (JSNumber.eqb rounded next))
    else (next, changed) in
  let '(next, changed) :=
    match number_keyword schema "minimum" with
    | Some minimum =>
      if JSNumber.ltb next minimum then (minimum, true) else (next, changed)
    | None => (next, changed)
    end in
  let '(next, changed) :=
    match number_keyword schema "exclusiveMinimum" with
    | Some exclusiveMinimum =>
      if JSNumber.leb next exclusiveMinimum then
        (if is_integer then JSNumber.ceil (JSNumber.add exclusiveMinimum one)
         else JSNumber.add exclusiveMinimum tenth, true)
      else (next, changed)
    | None => (next, changed)
    end in
  let '(next, changed) :=
    match number_keyword schema "maximum" with
    | Some maximum =>
      if JSNumber.gtb next maximum then (maximum, true) else (next, changed)
    | None => (next, changed)
    end in
  let '(next, changed) :=
    match number_keyword schema "exclusiveMaximum" with
    | Some exclusiveMaximum =>
      if JSNumber.geb next exclusiveMaximum then
        (if is_integer then JSNumber.floor (JSNumber.sub exclusiveMaximum one)
         else JSNumber.sub exclusiveMaximum tenth, true)
      else (next, changed)
    | None => (next, changed)
    end in
  ret (Normalized (VNumber next) changed).

(** [normalizeInputForSchema(schema, value, path)], with the recursion on
    the schema counted by [fuel]. *)
Fixpoint normalize_fuel (fuel : nat) (schema value : jsvalue) (path : list string)
    : M normalization :=
  match fuel with
  | O => out_of_fuel
  | S fuel' =>
    if negb (truthy schema) || negb (String.eqb (typeof schema) "object")
    then ret (Normalized value false)
    else
      match first_of_array (get_prop schema "oneOf") with
      | Some branch => normalize_fuel fuel' branch value path
      | None =>
      match first_of_array (get_prop schema "anyOf") with
      | Some branch => normalize_fuel fuel' branch value path
      | None =>
      match enum_mismatch schema value with
      | Some member => ret (Normalized member true)
      | None =>
        if hasOwnProperty schema "const"
           && negb (strict_equals value (get_prop schema "const"))
        then ret (Normalized (get_prop schema "const") true)
        else
          let type := get_prop schema "type" in
          if is_text type "object" then
            let source := source_fields value in
            let changed := negb (is_plain_object value) in
            let* l := fresh in
            let properties :=
              if truthy (get_prop schema "properties")
              then object_entries (get_prop schema "properties") else [] in
            let required :=
              match get_prop schema "required" with
              | VArray _ names => names
              | _ => []
              end in
            let* (out, changed) :=
              normalize_properties (normalize_fuel fuel') properties source required
                path [] changed in
            ret (Normalized (VObject l (copy_undeclared source out)) changed)
          else if is_text type "array" then
            let* source := if isArray value then ret value else new_array [] in
            let changed := negb (isArray value) in
            if negb (truthy (get_prop schema "items"))
            then ret (Normalized source changed)
            else
              let items := match source with VArray _ items => items | _ => [] end in
              let* l := fresh in
              let* (normalizedItems, changed) :=
                normalize_items (normalize_fuel fuel' (get_prop schema "items"))
                  items 0 path changed in
              match normalizedItems with
              | [] =>
                if js_gt (get_prop schema "minItems") (num 0)
                   || strict_equals value VUndefined
                then
                  let* template :=
                    generateTemplateFromSchema (get_prop schema "items") (path ++ ["0"]) in
                  ret (Normalized (VArray l [template]) true)
                else ret (Normalized (VArray l []) changed)
              | _ => ret (Normalized (VArray l normalizedItems) changed)
              end
          else if is_text type "string" then normalize_string schema value path
          else if is_text type "number" || is_text type "integer"
          then normalize_number schema value path
          else if is_text type "boolean" then
            if negb (String.eqb (typeof value) "boolean")
            then ret (Normalized (VBool false) true)
            else ret (Normalized value false)
          else if is_text type "null" then
            ret (Normalized VNull (negb (strict_equals value VNull)))
          else if strict_equals value VUndefined then
            let* template := generateTemplateFromSchema schema path in
            ret (Normalized template true)
          else ret (Normalized value false)
      end end end
  end.

(** [normalizeInputForSchema(schema, value, path)]: the depth of the schema
    bounds the recursion. *)
Definition normalizeInputForSchema (schema value : jsvalue) (path : list string)
    : M normalization :=
  normalize_fuel (S (value_depth schema)) schema value path.

End SchemaEngine.

(** ** Call signatures ([src/sidebar.js], lines 847-872) *)

(** [keys.sort()] on the rendered members of an object: ascending code-unit
    order of the keys. *)
Fixpoint insert_by_key (kr : string * string) (l : list (string * string))
    : list (string * string) :=
  match l with
  | [] => [kr]
  | kr' :: l' =>
    if String.leb (fst kr) (fst kr') then kr :: l else kr' :: insert_by_key kr l'
  end.

Definition sort_by_key (l : list (string * string)) : list (string * string) :=
  List.fold_right insert_by_key [] l.

Definition circular_marker : string :=
  String JSON.dquote ("[Circular]" +:+ String JSON.dquote "").

(** [stableStringify(value, seen)]. [seen] holds the identities of the
    objects being rendered around [value]. The members of an object are
    rendered first and then put in the order of their sorted keys, which is
    the text the source builds by sorting the keys first. *)
Fixpoint stableStringify (value : jsvalue) (seen : list loc) : string :=
  match value with
  | VNull | VUndefined => "null"
  | VString s => JSON.quote s
  | VNumber _ | VBool _ => to_string value
  | VArray _ items =>
    "[" +:+ JSString.join "," (List.map (fun item => stableStringify item seen) items)
    +:+ "]"
  | VObject l fs =>
    if existsb (Nat.eqb l) seen then circular_marker
    else
      let rendered :=
        List.map (fun kv => (fst kv, stableStringify (snd kv) (l :: seen))) fs in
      let out :=
        List.map (fun kr => JSON.quote (fst kr) +:+ ":" +:+ snd kr) (sort_by_key rendered) in
      "{" +:+ JSString.join "," out +:+ "}"
  end.

(** [buildToolCallSignature(toolName, args)]. *)
Definition buildToolCallSignature (toolName args : jsvalue) : string :=
  to_string (if truthy toolName then toolName else VString "")
  +:+ "::" +:+ stableStringify args [].

(** ** The agent loop ([src/sidebar.js], lines 874-1012) *)

Record message := Message { role : string; content : string }.

(** A tool of the catalog [this.tools]. *)
Record tool := Tool { tool_name : jsvalue; tool_inputSchema : jsvalue }.

(** A requested call [{ name, args }]; [call?.name] and [call?.args]. *)
Record function_call := FunctionCall { call_name : jsvalue; call_args : jsvalue }.

(** What [aiManager.sendMessage] resolves to. *)
Record ai_response := AIResponse {
  response_error : option string;
  response_text : option string;
  response_functionCalls : option (list function_call)
}.

(** What [chrome.runtime.sendMessage({ type: 'EXECUTE_TOOL', ... })] does:
    the promise rejects, or it resolves to a response. *)
Inductive exec_response :=
| Rejected (message : string)
| Resolved (response : jsvalue).

Inductive call_status := success | error.

(** The entries pushed on [this.trace], each with its time stamp. *)
Inductive trace_event :=
| ai_text (ts : string) (text : string)
| ai_tool_skipped_duplicate (ts : string) (tool args : jsvalue)
| ai_tool_args_normalized (ts : string) (tool args : jsvalue)
| ai_tool_result (ts : string) (tool args result : jsvalue)
| ai_tool_error (ts : string) (tool args : jsvalue) (error : string)
| ai_loop_guard_triggered (ts : string) (skippedDuplicates : nat).

(** The requests the loop sends out, in order. *)
Inductive request :=
| SendMessage (messages : list message) (tools : list tool)
| ExecuteTool (name inputArgs : jsvalue).

Definition maxTurns : nat := 5.

Definition guardMessage : string :=
  "You are repeating identical tool calls that already succeeded. " +:+
  "Do not call tools again for this request. Use prior results and provide the final answer.".

Definition skipped_suffix : string :=
  " => SKIPPED: duplicate of a successful previous call".

Definition newline : string := String (JSString.char_of_code 10) "".

Section AgentLoop.

Variable host : Host.

(** The state of the provider and of the page behind the gateway. *)
Variable World : Type.

(** [aiManager.sendMessage(messages, tools)]. *)
Variable adapter : World -> list message -> list tool -> ai_response * World.

(** The Tool Execution Gateway. *)
Variable gateway : World -> jsvalue -> jsvalue -> exec_response * World.

(** [this.tools]. *)
Variable tools : list tool.

(** What a run of the loop reads and writes. *)
Record loop_state := LoopState {
  aiMessages : list message;
  chatTranscript : list (string * string);
  trace : list trace_event;
  executedToolCalls : gmap string call_status;
  toolsEnabled : bool;
  heap : alloc;
  world : World;
  requests : list request
}.

Definition L (A : Type) := comp loop_state A.

Definition set_heap (a : alloc) (st : loop_state) : loop_state :=
  LoopState (aiMessages st) (chatTranscript st) (trace st) (executedToolCalls st)
    (toolsEnabled st) a (world st) (requests st).

(** A computation that only allocates, run on the heap of the loop. *)
Definition on_heap {A} (c : M A) : L A :=
  fun st =>
    match c (heap st) with
    | Ok x a => Ok x (set_heap a st)
    | Throw msg a => Throw msg (set_heap a st)
    | OutOfFuel => OutOfFuel
    end.

(** [this.aiMessages.push({ role, content })]. *)
Definition push_message (r c : string) : L unit :=
  modify (fun st =>
    LoopState (aiMessages st ++ [Message r c]) (chatTranscript st) (trace st)
      (executedToolCalls st) (toolsEnabled st) (heap st) (world st) (requests st)).

(** [this.appendChatLine(role, text)]. *)
Definition appendChatLine (r text : string) : L unit :=
  modify (fun st =>
    LoopState (aiMessages st) (chatTranscript st ++ [(r, text)]) (trace st)
      (executedToolCalls st) (toolsEnabled st) (heap st) (world st) (requests st)).

(** [this.trace.push({ ts: new Date().toISOString(), ... })]. *)
Definition push_trace (event : string -> trace_event) : L unit :=
  modify (fun st =>
    LoopState (aiMessages st) (chatTranscript st) (trace st ++ [event (date_now_iso host)])
      (executedToolCalls st) (toolsEnabled st) (heap st) (world st) (requests st)).

(** [executedToolCalls.set(callSignature, { status })]. *)
Definition record_call (callSignature : string) (status : call_status) : L unit :=
  modify (fun st =>
    LoopState (aiMessages st) (chatTranscript st) (trace st)
      (<[callSignature := status]> (executedToolCalls st)) (toolsEnabled st)
      (heap st) (world st) (requests st)).

(** [toolsEnabled = false]. *)
Definition disable_tools : L unit :=
  modify (fun st =>
    LoopState (aiMessages st) (chatTranscript st) (trace st) (executedToolCalls st)
      false (heap st) (world st) (requests st)).

(** [await aiManager.sendMessage(this.aiMessages, toolsEnabled ? this.tools : [])]. *)
Definition send_to_adapter : L ai_response :=
  fun st =>
    let catalog := if toolsEnabled st then tools else [] in
    let '(response, w) := adapter (world st) (aiMessages st) catalog in
    Ok response
      (LoopState (aiMessages st) (chatTranscript st) (trace st) (executedToolCalls st)
         (toolsEnabled st) (heap st) w
         (requests st ++ [SendMessage (aiMessages st) catalog])).

(** [await chrome.runtime.sendMessage({ type: 'EXECUTE_TOOL', name, inputArgs })]. *)
Definition send_to_gateway (name inputArgs : jsvalue) : L jsvalue :=
  fun st =>
    let '(response, w) := gateway (world st) name inputArgs in
    let st' :=
      LoopState (aiMessages st) (chatTranscript st) (trace st) (executedToolCalls st)
        (toolsEnabled st) (heap st) w (requests st ++ [ExecuteTool name inputArgs]) in
    match response with
    | Rejected msg => Throw msg st'
    | Resolved v => Ok v st'
    end.

(** The locals of one turn. *)
Record turn_locals := TurnLocals {
  toolResultLines : list string;
  executedThisTurn : nat;
  skippedDuplicatesThisTurn : nat
}.

(** [`${toolName}(${JSON.stringify(args)})`], the head of a result line. *)
Definition call_text (toolName args : jsvalue) : string :=
  to_string toolName +:+ "(" +:+ JSON.stringify_text args +:+ ")".

(** Lines 904-916: the tool name and the argument object of a call. *)
Definition call_arguments (call : function_call) : M jsvalue :=
  let rawArgs := call_args call in
  let* args :=
    if String.eqb (typeof rawArgs) "string"
    then try_catch (JSON.parse (to_string rawArgs)) (fun _ => new_object [])
    else ret rawArgs in
  if negb (truthy args) || negb (String.eqb (typeof args) "object") || isArray args
  then new_object []
  else ret args.

Definition call_tool_name (call : function_call) : jsvalue :=
  if truthy (call_name call) then call_name call else VString "(unknown_tool)".

(** Lines 933-946: the arguments after normalization against the schema of
    the tool, when the catalog has the tool. *)
Definition normalize_call_arguments (toolName args : jsvalue) : L jsvalue :=
  match List.find (fun t => strict_equals (tool_name t) toolName) tools with
  | Some toolDef =>
    let* schema := on_heap (parseSchema (tool_inputSchema toolDef)) in
    let* normalized := on_heap (normalizeInputForSchema host schema args []) in
    if changed_of normalized then
      let args' := value_of normalized in
      let* _ := push_trace (fun ts => ai_tool_args_normalized ts toolName args') in
      ret args'
    else ret args
  | None => ret args
  end.

(** Lines 950-986: the execution of one call, with its [try] and [catch]. *)
Definition execute_call (toolName args : jsvalue) (callSignature : string)
    (locals : turn_locals) : L turn_locals :=
  try_catch
    (let* execResponse := send_to_gateway toolName args in
     let failure := get_prop_opt execResponse "error" in
     if truthy failure then throw (to_string failure)
     else
       let result := get_prop_opt execResponse "result" in
       let line :=
         call_text toolName args +:+ " => " +:+
         (if String.eqb (typeof result) "object" then JSON.stringify_text result
          else to_string result) in
       let* _ := record_call callSignature success in
       let* _ := push_trace (fun ts => ai_tool_result ts toolName args result) in
       ret (TurnLocals (toolResultLines locals ++ [line])
              (S (executedThisTurn locals)) (skippedDuplicatesThisTurn locals)))
    (fun message =>
       let line := call_text toolName args +:+ " => ERROR: " +:+ message in
       let* _ := record_call callSignature error in
       let* _ := push_trace (fun ts => ai_tool_error ts toolName args message) in
       ret (TurnLocals (toolResultLines locals ++ [line])
              (executedThisTurn locals) (skippedDuplicatesThisTurn locals))).

(** The body of [for (const call of functionCalls)] (lines 903-987). *)
Definition process_call (call : function_call) (locals : turn_locals) : L turn_locals :=
  let toolName := call_tool_name call in
  let* args := on_heap (call_arguments call) in
  let callSignature := buildToolCallSignature toolName args in
  let* st := get_state in
  match executedToolCalls st !! callSignature with
  | Some success =>
    let duplicateLine := call_text toolName args +:+ skipped_suffix in
    let* _ := push_trace (fun ts => ai_tool_skipped_duplicate ts toolName args) in
    ret (TurnLocals (toolResultLines locals ++ [duplicateLine])
           (executedThisTurn locals) (S (skippedDuplicatesThisTurn locals)))
  | _ =>
    let* args := normalize_call_arguments toolName args in
    let* _ := appendChatLine "system" ("Calling tool: " +:+ to_string toolName) in
    execute_call toolName args callSignature locals
  end.

Fixpoint process_calls (calls : list function_call) (locals : turn_locals) : L turn_locals :=
  match calls with
  | [] => ret locals
  | call :: rest =>
    let* locals' := process_call call locals in
    process_calls rest locals'
  end.

(** How the body of the [for] over the turns ends: with [return], or by
    going on to the next turn. *)
Inductive turn_end := TurnReturn | TurnNext.

(** Lines 989-1008: the loop guard, or the summary of the results of the
    turn for the model. *)
Definition finish_turn (locals : turn_locals) : L turn_end :=
  if (executedThisTurn locals =? 0)%nat && (0 <? skippedDuplicatesThisTurn locals)%nat
  then
    let* _ := disable_tools in
    let* _ := push_message "user" guardMessage in
    let* _ := appendChatLine "system"
      "Duplicate tool-call loop detected. Asking AI for final answer without more tool calls." in
    let* _ := push_trace
      (fun ts => ai_loop_guard_triggered ts (skippedDuplicatesThisTurn locals)) in
    ret TurnNext
  else
    let toolSummary :=
      "Tool call results:" +:+ newline +:+
      JSString.join newline (toolResultLines locals) +:+ newline +:+ newline +:+
      "Continue the task. Do not repeat a tool call with identical arguments if it already succeeded." in
    let* _ := push_message "user" toolSummary in
    let* _ := appendChatLine "system" "Tool results sent back to AI." in
    ret TurnNext.

(** One iteration of [for (let turn = 0; turn < maxTurns; turn += 1)]. *)
Definition run_turn : L turn_end :=
  let* aiResponse := send_to_adapter in
  let* _ :=
    match response_error aiResponse with
    | Some failure => if negb (String.eqb failure "") then throw failure else ret tt
    | None => ret tt
    end in
  let text := JSString.trim (from_option id "" (response_text aiResponse)) in
  let functionCalls := from_option id [] (response_functionCalls aiResponse) in
  let* _ :=
    if negb (String.eqb text "") then
      let* _ := push_message "assistant" text in
      let* _ := appendChatLine "assistant" text in
      push_trace (fun ts => ai_text ts text)
    else ret tt in
  match functionCalls with
  | [] => ret TurnReturn
  | _ =>
    let* locals := process_calls functionCalls (TurnLocals [] 0 0) in
    finish_turn locals
  end.

(** The turns of the loop that are still to run, and line 1011 after the
    last of them. *)
Fixpoint run_turns (remaining : nat) : L unit :=
  match remaining with
  | O => appendChatLine "system" "Stopped after max AI turns to avoid loops."
  | S remaining' =>
    let* ending := run_turn in
    match ending with
    | TurnReturn => ret tt
    | TurnNext => run_turns remaining'
    end
  end.

(** [const executedToolCalls = new Map(); let toolsEnabled = true;]. *)
Definition enter_loop : L unit :=
  modify (fun st =>
    LoopState (aiMessages st) (chatTranscript st) (trace st) ∅ true
      (heap st) (world st) (requests st)).

(** [runAIAgentLoop()]. *)
Definition runAIAgentLoop : L unit :=
  let* _ := enter_loop in
  run_turns maxTurns.

End AgentLoop.

Arguments LoopState {World}.
Arguments aiMessages {World}.
Arguments chatTranscript {World}.
Arguments trace {World}.
Arguments executedToolCalls {World}.
Arguments toolsEnabled {World}.
Arguments heap {World}.
Arguments world {World}.
Arguments requests {World}.
Arguments set_heap {World}.
Arguments on_heap {World A}.
Arguments push_message {World}.
Arguments appendChatLine {World}.
Arguments push_trace host {World}.
Arguments record_call {World}.
Arguments disable_tools {World}.
Arguments send_to_adapter {World}.
Arguments send_to_gateway {World}.
Arguments normalize_call_arguments host {World}.
Arguments execute_call host {World}.
Arguments process_call host {World}.
Arguments process_calls host {World}.
Arguments finish_turn host {World}.
Arguments run_turn host {World}.
Arguments run_turns host {World}.
Arguments enter_loop {World}.
Arguments runAIAgentLoop host {World}.

(** ** Notions the properties are stated with *)

(** A value is the fallback schema [{ type: 'object', properties: {} }],
    whatever the identities of its two objects. *)
Definition is_fallback_schema (v : jsvalue) : Prop :=
  exists l l',
    v = VObject l [("type", VString "object"); ("properties", VObject l' [])].






(** A host for the examples: the clock stands at noon of 1 January 2026
    (UTC), and the engine knows the one pattern [^[A-Z]{3}$]. *)
Definition three_capitals (text : string) : bool :=
  match list_ascii_of_string text with
  | [c1; c2; c3] =>
    forallb (fun c => (65 <=? JSString.code c) && (JSString.code c <=? 90)) [c1; c2; c3]
  | _ => false
  end.

Definition sample_host : Host := {|
  regexp_test pattern text :=
    if String.eqb pattern "^[A-Z]{3}$" then Some (three_capitals text) else None;
  date_now_iso := "2026-01-01T12:00:00.000Z";
  date_midnight_iso days :=
    "2026-01-0" +:+ JSString.decimal (1 + days) +:+ "T00:00:00.000Z"
|}.




(** A computation finishes: it returns or throws, it does not run out of
    the fuel of the model. *)
Definition finishes {S A} (c : comp S A) (s : S) : Prop := c s <> OutOfFuel.


(** ** Scenarios

    Worlds for the examples: the state of the world counts the requests
    served so far. *)

(** A gateway whose tools always succeed with the result ["ok"]. *)
Definition gateway_ok (w : nat) (name inputArgs : jsvalue) : exec_response * nat :=
  (Resolved (VObject 0%nat [("result", VString "ok")]), S w).

(** A gateway whose promise always rejects. *)
Definition gateway_down (w : nat) (name inputArgs : jsvalue) : exec_response * nat :=
  (Rejected "tool host unreachable", S w).

(** An adapter that never answers with tool calls. *)
Definition adapter_silent (w : nat) (messages : list message) (catalog : list tool)
    : ai_response * nat :=
  (AIResponse None (Some "done") None, S w).

(** The call [bookFlight({ dest: 'LAX' })] of the scenario of the spec. *)
Definition bookFlight_call : function_call :=
  FunctionCall (VString "bookFlight") (VObject 7%nat [("dest", VString "LAX")]).

(** A state in which nothing has happened yet, with a heap that starts
    above the identities of the examples. *)
Definition initial_state (w : nat) : loop_state nat :=
  LoopState [Message "user" "book a flight"] [] [] ∅ true 100%nat w [].


(** The tool of the scenario, its destination a three-letter code. *)
Definition bookFlight_tool : tool :=
  Tool (VString "bookFlight")
    (VObject 1%nat
       [("type", VString "object");
        ("properties",
         VObject 2%nat
           [("dest", VObject 3%nat [("type", VString "string");
                                    ("pattern", VString "^[A-Z]{3}$")])])]).


(** The state after [bookFlight({ dest: 'LAX' })] has been requested once
    and the tool host was unreachable. *)
Definition failed_once_state : loop_state nat :=
  match process_call sample_host gateway_down [bookFlight_tool] bookFlight_call
          (TurnLocals [] 0 0) (initial_state 0) with
  | Ok _ st => st
  | _ => initial_state 0
  end.






(** The number of turns a list of requests stands for: one per request to
    the adapter. *)
Definition turns_of (rs : list request) : nat :=
  List.length (List.filter (fun r => match r with SendMessage _ _ => true | _ => false end) rs).





(** A tool whose argument [s] is a string of at least one unit with the
    default [null], and an adapter that on every turn asks for a call of it
    with a new argument: the number of requests the world has served. *)
Definition note_tool : tool :=
  Tool (VString "note")
    (VObject 1%nat
       [("type", VString "object");
        ("properties",
         VObject 2%nat
           [("s", VObject 3%nat [("type", VString "string"); ("default", VNull);
                                 ("minLength", num 1)])])]).

Definition adapter_counting (w : nat) (messages : list message) (catalog : list tool)
    : ai_response * nat :=
  (AIResponse None (Some "")
     (Some [FunctionCall (VString "note") (VObject 9%nat [("s", num (Z.of_nat w))])]),
   S w).


(** ** Schemas whose template the engine accepts (C1) *)











(** ** Values that need no repair (C2) *)

(** Deep equality of two values: primitives as [includes] compares them,
    arrays item by item, objects property by property, whatever the order
    of the properties and the identity of the arrays and objects. *)
Definition primitive (v : jsvalue) : bool :=
  match v with
  | VArray _ _ | VObject _ _ => false
  | _ => true
  end.

Unset Elimination Schemes.
Inductive deep_equal : jsvalue -> jsvalue -> Prop :=
| deep_primitive v w :
    primitive v = true -> same_value_zero v w = true -> deep_equal v w
| deep_array l l' xs ys :
    Forall2 deep_equal xs ys -> deep_equal (VArray l xs) (VArray l' ys)
| deep_object l l' fs gs :
    (forall k, is_Some (lookup_field k fs) <-> is_Some (lookup_field k gs)) ->
    (forall k v w, lookup_field k fs = Some v -> lookup_field k gs = Some w ->
                   deep_equal v w) ->
    deep_equal (VObject l fs) (VObject l' gs).
Set Elimination Schemes.







(** ** JSON-like argument values (C3) *)

(** [String(x)] can be read back: [Number(String(x))] is [x] again. *)
Definition printable (x : number) : bool :=
  match x with
  | S754_nan => true
  | _ => JSNumber.eqb (JSNumber.ofString (JSNumber.toString x)) x
  end.

(** The names differ from one another. *)
Fixpoint distinct (names : list string) : bool :=
  match names with
  | [] => true
  | name :: names' => negb (existsb (String.eqb name) names') && distinct names'
  end.

(** Data as JSON carries it: no [undefined], no object inside itself
    ([seen] holds the identities of the objects around the value), property
    names that differ, Numbers that [String] prints readably. *)
Fixpoint json_like (seen : list loc) (v : jsvalue) : bool :=
  match v with
  | VUndefined => false
  | VNull | VBool _ | VString _ => true
  | VNumber x => printable x
  | VArray _ items => forallb (json_like seen) items
  | VObject l fs =>
    negb (existsb (Nat.eqb l) seen)
    && distinct (List.map fst fs)
    && forallb (fun kv => json_like (l :: seen) (snd kv)) fs
  end.

(** Every code unit of the string passes the test. *)
Fixpoint all_chars (P : ascii -> bool) (s : string) : bool :=
  match s with
  | EmptyString => true
  | String c s' => P c && all_chars P s'
  end.

(** A tool name that is a String without a colon. *)
Definition colon_free (toolName : jsvalue) : bool :=
  match toolName with
  | VString s => all_chars (fun c => negb (JSString.code c =? 58)) s
  | _ => false
  end.

(** [{ origin: 'SFO', count: 1 }] and [{ count: 1, origin: 'SFO' }]. *)
Definition origin_first : jsvalue :=
  VObject 1%nat [("origin", VString "SFO"); ("count", num 1)].
Definition count_first : jsvalue :=
  VObject 2%nat [("count", num 1); ("origin", VString "SFO")].

(** The code units of the tokens [null], [true], [false] and of the Numbers:
    digits, letters, [+], [-] and [.]. *)
Definition atom_char (c : ascii) : bool :=
  let n := JSString.code c in
  JSString.is_digit c
  || ((65 <=? n) && (n <=? 90)) || ((97 <=? n) && (n <=? 122))
  || (n =? 43) || (n =? 45) || (n =? 46).

(** The text ends a token: it is empty or starts with a code unit that no
    token has. *)
Definition closes (r : string) : bool :=
  match r with
  | EmptyString => true
  | String c _ => negb (atom_char c)
  end.

(** [null], a Boolean or a Number. *)
Definition atomic (v : jsvalue) : bool :=
  match v with
  | VNull | VBool _ | VNumber _ => true
  | _ => false
  end.

(** ** Notions of the proofs *)


(** The order of [sort()] on property names. *)
Definition le (s1 s2 : string) : Prop := String.leb s1 s2 = true.

(** Insertion by key on members of any kind, as [insert_by_key] does it on
    rendered members. *)
Fixpoint insert_keyed {V} (kv : string * V) (l : list (string * V))
    : list (string * V) :=
  match l with
  | [] => [kv]
  | kv' :: l' =>
    if String.leb (fst kv) (fst kv') then kv :: l else kv' :: insert_keyed kv l'
  end.

Definition sort_keyed {V} (l : list (string * V)) : list (string * V) :=
  List.fold_right insert_keyed [] l.

(** The text of one member of an object. *)
Definition member (seen : list loc) (kv : string * jsvalue) : string :=
  JSON.quote (fst kv) +:+ ":" +:+ stableStringify (snd kv) seen.

(** The text of [a], followed by the end of a token, is the text of no
    value that differs from [a]. *)
Definition discriminates (a : jsvalue) : Prop :=
  forall seen b seen' r r',
    json_like seen a = true -> json_like seen' b = true ->
    closes r = true -> closes r' = true ->
    stableStringify a seen +:+ r = stableStringify b seen' +:+ r' ->
    deep_equal a b /\ r = r'.





(** ** Schemas on which normalization cannot fail *)






(** A String. *)
Definition is_string (v : jsvalue) : Prop := exists s, v = VString s.






(** ** The chat panel ([src/sidebar.js], lines 209-235 and 795-845) *)

(** The entries of [this.trace] that the panel writes around the loop, and
    those of the loop. *)
Inductive panel_event :=
| ai_user_prompt (ts : string) (prompt : string)
| ai_error (ts : string) (error : string)
| loop_event (event : trace_event).

Section ChatPanel.

Variable host : Host.
Variable World : Type.
Variable adapter : World -> list message -> list tool -> ai_response * World.
Variable gateway : World -> jsvalue -> jsvalue -> exec_response * World.
Variable tools : list tool.

(** [aiManager.isReady()], as the world has it. *)
Variable isReady : World -> bool.

(** What [sendAIMessage] reads and writes: the prompt field, the send
    button, the status bar with its pending timer, the active tab, and the
    conversation, the trace, the heap and the world that the loop works on. *)
Record panel := Panel {
  aiPromptInput : string;
  aiSendBtn_disabled : bool;
  globalStatus : option (string * string);
  statusTimeout : option nat;
  activeTab : string;
  panel_aiMessages : list message;
  panel_chatTranscript : list (string * string);
  panel_trace : list panel_event;
  panel_heap : alloc;
  panel_world : World;
  panel_requests : list request
}.

Definition PanelM (A : Type) := comp panel A.

(** [this.showStatus(message, type, timeoutMs)] with a message. *)
Definition showStatus (text type : string) (timeoutMs : nat) : PanelM unit :=
  modify (fun p =>
    Panel (aiPromptInput p) (aiSendBtn_disabled p)
      (if String.eqb text "" then None else Some (text, type))
      (if String.eqb text "" then statusTimeout p
       else if (0 <? timeoutMs)%nat then Some timeoutMs else statusTimeout p)
      (activeTab p) (panel_aiMessages p) (panel_chatTranscript p) (panel_trace p)
      (panel_heap p) (panel_world p) (panel_requests p)).

(** [this.setActiveTab(tabName)]. *)
Definition setActiveTab (tabName : string) : PanelM unit :=
  modify (fun p =>
    Panel (aiPromptInput p) (aiSendBtn_disabled p) (globalStatus p) (statusTimeout p)
      tabName (panel_aiMessages p) (panel_chatTranscript p) (panel_trace p)
      (panel_heap p) (panel_world p) (panel_requests p)).

(** [this.dom.aiSendBtn.disabled = disabled]. *)
Definition set_send_disabled (disabled : bool) : PanelM unit :=
  modify (fun p =>
    Panel (aiPromptInput p) disabled (globalStatus p) (statusTimeout p)
      (activeTab p) (panel_aiMessages p) (panel_chatTranscript p) (panel_trace p)
      (panel_heap p) (panel_world p) (panel_requests p)).

(** [this.dom.aiPromptInput.value = text]. *)
Definition set_prompt (text : string) : PanelM unit :=
  modify (fun p =>
    Panel text (aiSendBtn_disabled p) (globalStatus p) (statusTimeout p)
      (activeTab p) (panel_aiMessages p) (panel_chatTranscript p) (panel_trace p)
      (panel_heap p) (panel_world p) (panel_requests p)).

(** [this.aiMessages.push({ role, content })]. *)
Definition panel_push_message (r c : string) : PanelM unit :=
  modify (fun p =>
    Panel (aiPromptInput p) (aiSendBtn_disabled p) (globalStatus p) (statusTimeout p)
      (activeTab p) (panel_aiMessages p ++ [Message r c]) (panel_chatTranscript p)
      (panel_trace p) (panel_heap p) (panel_world p) (panel_requests p)).

(** [this.appendChatLine(role, text)]. *)
Definition panel_appendChatLine (r text : string) : PanelM unit :=
  modify (fun p =>
    Panel (aiPromptInput p) (aiSendBtn_disabled p) (globalStatus p) (statusTimeout p)
      (activeTab p) (panel_aiMessages p) (panel_chatTranscript p ++ [(r, text)])
      (panel_trace p) (panel_heap p) (panel_world p) (panel_requests p)).

(** [this.trace.push({ ts: new Date().toISOString(), ... })]. *)
Definition panel_push_trace (event : string -> panel_event) : PanelM unit :=
  modify (fun p =>
    Panel (aiPromptInput p) (aiSendBtn_disabled p) (globalStatus p) (statusTimeout p)
      (activeTab p) (panel_aiMessages p) (panel_chatTranscript p)
      (panel_trace p ++ [event (date_now_iso host)])
      (panel_heap p) (panel_world p) (panel_requests p)).

(** The state the loop starts from. Its ledger and its switch are locals of
    the loop; its trace collects what the loop pushes on [this.trace]. *)
Definition loop_of_panel (p : panel) : loop_state World :=
  LoopState (panel_aiMessages p) (panel_chatTranscript p) [] ∅ true
    (panel_heap p) (panel_world p) (panel_requests p).

(** The panel once the loop has left its state. *)
Definition panel_of_loop (p : panel) (st : loop_state World) : panel :=
  Panel (aiPromptInput p) (aiSendBtn_disabled p) (globalStatus p) (statusTimeout p)
    (activeTab p) (aiMessages st) (chatTranscript st)
    (panel_trace p ++ List.map loop_event (trace st))
    (heap st) (world st) (requests st).

(** [await this.runAIAgentLoop()]. *)
Definition await_loop : PanelM unit :=
  fun p =>
    match runAIAgentLoop host adapter gateway tools (loop_of_panel p) with
    | Ok x st => Ok x (panel_of_loop p st)
    | Throw msg st => Throw msg (panel_of_loop p st)
    | OutOfFuel => OutOfFuel
    end.

(** [try { c } finally { f }]. *)
Definition try_finally {S A} (c : comp S A) (f : comp S unit) : comp S A :=
  fun s =>
    match c s with
    | Ok x s' => bind f (fun _ => ret x) s'
    | Throw msg s' => bind f (fun _ => throw msg) s'
    | OutOfFuel => OutOfFuel
    end.

(** [sendAIMessage()]. *)
Definition sendAIMessage : PanelM unit :=
  let* p := get_state in
  let userPrompt := JSString.trim (aiPromptInput p) in
  if String.eqb userPrompt "" then ret tt
  else if negb (isReady (panel_world p)) then
    let* _ := showStatus "Configure and enable an AI provider in Settings first."
                "warning" 4500 in
    setActiveTab "settings"
  else
    let* _ := set_send_disabled true in
    let* _ := set_prompt "" in
    let* _ := panel_push_message "user" userPrompt in
    let* _ := panel_appendChatLine "user" userPrompt in
    let* _ := panel_push_trace (fun ts => ai_user_prompt ts userPrompt) in
    try_finally
      (try_catch await_loop
         (fun message =>
            let* _ := panel_appendChatLine "system" ("AI error: " +:+ message) in
            panel_push_trace (fun ts => ai_error ts message)))
      (let* p' := get_state in set_send_disabled (negb (isReady (panel_world p')))).

(** The panel when [sendAIMessage] has taken the prompt from the field and
    pushed it on the conversation, the chat and the trace. *)
Definition prompted (p : panel) (userPrompt : string) : panel :=
  Panel "" true (globalStatus p) (statusTimeout p) (activeTab p)
    (panel_aiMessages p ++ [Message "user" userPrompt])
    (panel_chatTranscript p ++ [("user", userPrompt)])
    (panel_trace p ++ [ai_user_prompt (date_now_iso host) userPrompt])
    (panel_heap p) (panel_world p) (panel_requests p).

End ChatPanel.

Arguments Panel {World}.
Arguments aiPromptInput {World}.
Arguments aiSendBtn_disabled {World}.
Arguments globalStatus {World}.
Arguments statusTimeout {World}.
Arguments activeTab {World}.
Arguments panel_aiMessages {World}.
Arguments panel_chatTranscript {World}.
Arguments panel_trace {World}.
Arguments panel_heap {World}.
Arguments panel_world {World}.
Arguments panel_requests {World}.
Arguments showStatus {World}.
Arguments setActiveTab {World}.
Arguments set_send_disabled {World}.
Arguments set_prompt {World}.
Arguments panel_push_message {World}.
Arguments panel_appendChatLine {World}.
Arguments panel_push_trace host {World}.
Arguments loop_of_panel {World}.
Arguments panel_of_loop {World}.
Arguments await_loop host {World}.
Arguments sendAIMessage host {World}.
Arguments prompted host {World}.

(** An adapter whose provider reports an error. *)
Definition adapter_failing (w : nat) (messages : list message) (catalog : list tool)
    : ai_response * nat :=
  (AIResponse (Some "quota exceeded") None None, S w).

(** A panel with a prompt typed in, before anything was sent. *)
Definition typed_panel (prompt : string) : panel nat :=
  Panel prompt false None None "chat" [] [] [] 100%nat 0%nat [].


(** ** Model lists ([src/sidebar.js], lines 1163-1194) *)

(** [x || y]. *)
Definition or_else (x y : jsvalue) : jsvalue := if truthy x then x else y.

(** An entry [{ id, name, description }] of a stored model list. *)
Record model_entry := ModelEntry {
  entry_id : string;
  entry_name : string;
  entry_description : string
}.

(** The [for] loop of [prepareModelsForStorage]: one entry for each model with
    a new, non-empty identifier. *)
Fixpoint normalize_models (input : list jsvalue) (seen : gset string) : list model_entry :=
  match input with
  | [] => []
  | model :: rest =>
    let id := JSString.trim (to_string (or_else (get_prop_opt model "id") (VString ""))) in
    if String.eqb id "" || bool_decide (id ∈ seen) then normalize_models rest seen
    else
      ModelEntry id
        (JSString.take 120 (to_string (or_else (get_prop_opt model "name") (VString id))))
        (JSString.take 200
           (to_string (or_else (get_prop_opt model "description") (VString ""))))
      :: normalize_models rest ({[id]} ∪ seen)
  end.

(** [providerId === 'openai' ? 24 : 60]. *)
Definition max_models (providerId : jsvalue) : nat :=
  if is_text providerId "openai" then 24%nat else 60%nat.

(** [String(preferredModel || '').trim()]. *)
Definition preferred_id (preferredModel : jsvalue) : string :=
  JSString.trim (to_string (or_else preferredModel (VString ""))).

(** [prepareModelsForStorage(providerId, models, preferredModel)]. *)
Definition prepareModelsForStorage (providerId models preferredModel : jsvalue)
    : list model_entry :=
  let input := match models with VArray _ items => items | _ => [] end in
  let normalized := normalize_models input ∅ in
  let maxModels := max_models providerId in
  let out := List.firstn maxModels normalized in
  let preferred := preferred_id preferredModel in
  if negb (String.eqb preferred "")
     && negb (existsb (fun entry => String.eqb (entry_id entry) preferred) out)
  then
    let existing :=
      match List.find (fun entry => String.eqb (entry_id entry) preferred) normalized with
      | Some entry => entry
      | None => ModelEntry preferred preferred ""
      end in
    existing :: List.firstn (Nat.max 0 (maxModels - 1)) out
  else out.

(** Models as a provider lists them: one twice, one without identifier. *)
Definition listed_models : jsvalue :=
  VArray 0%nat
    [VObject 1%nat [("id", VString "gpt-4o"); ("name", VString "GPT-4o")];
     VObject 2%nat [("id", VString " gpt-4o ")];
     VObject 3%nat [("name", VString "nameless")];
     VObject 4%nat [("id", VString "o3")]].


(** ** What the page hands over ([src/content.js], lines 19-71 and 225-250) *)

Module Content.

(** The [for] loop over the items of an array: what is [undefined] once
    copied is left out. *)
Fixpoint copy_items (copy : jsvalue -> M jsvalue) (items : list jsvalue)
    : M (list jsvalue) :=
  match items with
  | [] => ret []
  | item :: rest =>
    let* normalized := copy item in
    let* others := copy_items copy rest in
    ret (if strict_equals normalized VUndefined then others else normalized :: others)
  end.

(** The [for] loop over the entries of an object. *)
Fixpoint copy_entries (copy : jsvalue -> M jsvalue) (entries : fields) (out : fields)
    : M fields :=
  match entries with
  | [] => ret out
  | (key, nested) :: rest =>
    let* normalized := copy nested in
    copy_entries copy rest
      (if strict_equals normalized VUndefined then out else set_field key normalized out)
  end.

(** [toPlainSerializable(value, depth, seen)] on the values of the model;
    [seen] holds the identities of the objects being copied around [value].
    BigInts, functions, Symbols and Dates are outside the model. *)
Fixpoint toPlainSerializable (value : jsvalue) (depth : nat) (seen : list loc) : M jsvalue :=
  match value with
  | VNull => ret VNull
  | VString _ | VNumber _ | VBool _ => ret value
  | VUndefined => ret VUndefined
  | VArray _ items =>
    if (8 <? depth)%nat then ret (VString "[MaxDepth]")
    else
      let* l := fresh in
      let* arr := copy_items (fun item => toPlainSerializable item (S depth) seen) items in
      ret (VArray l arr)
  | VObject identity entries =>
    if (8 <? depth)%nat then ret (VString "[MaxDepth]")
    else if existsb (Nat.eqb identity) seen then ret (VString "[Circular]")
    else
      let* l := fresh in
      let* out :=
        copy_entries (fun nested => toPlainSerializable nested (S depth) (identity :: seen))
          entries [] in
      ret (VObject l out)
  end.

(** [{ type: 'object', properties: {} }]. *)
Definition empty_schema : M jsvalue :=
  let* l := fresh in
  let* properties := new_object [] in
  ret (VObject l [("type", VString "object"); ("properties", properties)]).

(** [toPlainSchemaObject(value)]. *)
Definition toPlainSchemaObject (value : jsvalue) : M jsvalue :=
  let* normalized := toPlainSerializable value 0 [] in
  if truthy normalized && String.eqb (typeof normalized) "object"
     && negb (isArray normalized)
  then ret normalized
  else empty_schema.

(** [parseToolInputSchema(schema)] of the content script. *)
Definition parseToolInputSchema (schema : jsvalue) : M jsvalue :=
  if negb (truthy schema) then empty_schema
  else if String.eqb (typeof schema) "string" then
    let* found :=
      try_catch
        (let* parsed := JSON.parse (to_string schema) in
         if truthy parsed && String.eqb (typeof parsed) "object" && negb (isArray parsed)
         then let* plain := toPlainSchemaObject parsed in ret (Some plain)
         else ret None)
        (fun _ => ret None) in
    match found with
    | Some plain => ret plain
    | None => empty_schema
    end
  else if String.eqb (typeof schema) "object" && negb (isArray schema)
  then toPlainSchemaObject schema
  else empty_schema.

End Content.




(** ** Schemas for the providers ([src/js/ai/AIManager.js], lines 229-263) *)

Module ToolSchemas.

Section Defaults.

(** The identity of [DEFAULT_SCHEMA.properties], the one object that every
    copy [{ ...DEFAULT_SCHEMA }] refers to. *)
Variable default_properties : loc.

(** [{ ...DEFAULT_SCHEMA }]. *)
Definition default_schema : M jsvalue :=
  let* l := fresh in
  ret (VObject l [("type", VString "object"); ("properties", VObject default_properties [])]).

(** [parseToolInputSchema(rawSchema)]. *)
Definition parseToolInputSchema (rawSchema : jsvalue) : M jsvalue :=
  if negb (truthy rawSchema) then default_schema
  else if String.eqb (typeof rawSchema) "string" then
    try_catch
      (let* parsed := JSON.parse (to_string rawSchema) in
       if is_plain_object parsed then ret parsed else default_schema)
      (fun _ => default_schema)
  else if is_plain_object rawSchema then ret rawSchema
  else default_schema.

End Defaults.

End ToolSchemas.


(** ** Manual execution ([src/sidebar.js], lines 729-793) *)

(** [JSON.stringify(v, null, 2)] at the indentation [indent]: [None] stands
    for the result [undefined]. *)
Fixpoint stringify_indented (v : jsvalue) (indent : string) : option string :=
  let inner := indent +:+ "  " in
  let separator := "," +:+ newline +:+ inner in
  match v with
  | VArray _ items =>
    match items with
    | [] => Some "[]"
    | _ =>
      Some ("[" +:+ newline +:+ inner +:+
            JSString.join separator
              (List.map (fun x => from_option id "null" (stringify_indented x inner)) items)
            +:+ newline +:+ indent +:+ "]")
    end
  | VObject _ fs =>
    let members :=
      List.flat_map
        (fun kv =>
           match stringify_indented (snd kv) inner with
           | Some text => [JSON.quote (fst kv) +:+ ": " +:+ text]
           | None => []
           end) fs in
    match members with
    | [] => Some "{}"
    | _ =>
      Some ("{" +:+ newline +:+ inner +:+ JSString.join separator members
            +:+ newline +:+ indent +:+ "}")
    end
  | _ => JSON.stringify v
  end.

(** The text that a field shows when it is given [JSON.stringify(v, null, 2)]. *)
Definition pretty_text (v : jsvalue) : string :=
  from_option id "undefined" (stringify_indented v "").

(** The entries of [this.trace] that a manual execution writes. *)
Inductive manual_event :=
| manual_execution (ts : string) (tool input result : jsvalue) (elapsedMs : number)
| manual_execution_error (ts : string) (tool input : jsvalue) (error : string).

Section ToolsTab.

Variable host : Host.
Variable World : Type.
Variable gateway : World -> jsvalue -> jsvalue -> exec_response * World.

(** [Math.round(performance.now() - start)], from the world in which the
    request is sent and the world in which its answer has arrived. *)
Variable elapsed : World -> World -> number.

(** What [executeSelectedTool] reads and writes: the selected tool, the
    input field, the execute button, the result pane, the status bar with
    its pending timer, the trace, the heap and the world. *)
Record tools_tab := ToolsTab {
  selectedTool : option tool;
  toolInputArgs : string;
  toolExecuteBtn_disabled : bool;
  toolExecutionResult : string;
  tab_status : option (string * string);
  tab_statusTimeout : option nat;
  tab_trace : list manual_event;
  tab_heap : alloc;
  tab_world : World;
  tab_requests : list request
}.

Definition TabM (A : Type) := comp tools_tab A.

(** [this.dom.toolExecuteBtn.disabled = disabled]. *)
Definition set_execute_disabled (disabled : bool) : TabM unit :=
  modify (fun t =>
    ToolsTab (selectedTool t) (toolInputArgs t) disabled (toolExecutionResult t)
      (tab_status t) (tab_statusTimeout t) (tab_trace t) (tab_heap t) (tab_world t)
      (tab_requests t)).

(** [this.dom.toolExecutionResult.textContent = text]. *)
Definition set_result (text : string) : TabM unit :=
  modify (fun t =>
    ToolsTab (selectedTool t) (toolInputArgs t) (toolExecuteBtn_disabled t) text
      (tab_status t) (tab_statusTimeout t) (tab_trace t) (tab_heap t) (tab_world t)
      (tab_requests t)).

(** [this.dom.toolInputArgs.value = text]. *)
Definition set_input (text : string) : TabM unit :=
  modify (fun t =>
    ToolsTab (selectedTool t) text (toolExecuteBtn_disabled t) (toolExecutionResult t)
      (tab_status t) (tab_statusTimeout t) (tab_trace t) (tab_heap t) (tab_world t)
      (tab_requests t)).

(** [this.showStatus(message, type, timeoutMs)] with a message and a timeout. *)
Definition tab_showStatus (text type : string) (timeoutMs : nat) : TabM unit :=
  modify (fun t =>
    ToolsTab (selectedTool t) (toolInputArgs t) (toolExecuteBtn_disabled t)
      (toolExecutionResult t)
      (if String.eqb text "" then None else Some (text, type))
      (if String.eqb text "" then tab_statusTimeout t
       else if (0 <? timeoutMs)%nat then Some timeoutMs else tab_statusTimeout t)
      (tab_trace t) (tab_heap t) (tab_world t) (tab_requests t)).

(** [this.trace.push({ ts: new Date().toISOString(), ... })]. *)
Definition tab_push_trace (event : string -> manual_event) : TabM unit :=
  modify (fun t =>
    ToolsTab (selectedTool t) (toolInputArgs t) (toolExecuteBtn_disabled t)
      (toolExecutionResult t) (tab_status t) (tab_statusTimeout t)
      (tab_trace t ++ [event (date_now_iso host)]) (tab_heap t) (tab_world t)
      (tab_requests t)).

(** A computation on the heap, run on the heap of the tab. *)
Definition tab_on_heap {A} (c : M A) : TabM A :=
  fun t =>
    let set a :=
      ToolsTab (selectedTool t) (toolInputArgs t) (toolExecuteBtn_disabled t)
        (toolExecutionResult t) (tab_status t) (tab_statusTimeout t) (tab_trace t)
        a (tab_world t) (tab_requests t) in
    match c (tab_heap t) with
    | Ok x a => Ok x (set a)
    | Throw msg a => Throw msg (set a)
    | OutOfFuel => OutOfFuel
    end.

(** [await chrome.runtime.sendMessage({ type: 'EXECUTE_TOOL', name, inputArgs })]:
    the response and the time the exchange took. *)
Definition tab_send_to_gateway (name inputArgs : jsvalue) : TabM (jsvalue * number) :=
  fun t =>
    let '(response, w) := gateway (tab_world t) name inputArgs in
    let t' :=
      ToolsTab (selectedTool t) (toolInputArgs t) (toolExecuteBtn_disabled t)
        (toolExecutionResult t) (tab_status t) (tab_statusTimeout t) (tab_trace t)
        (tab_heap t) w (tab_requests t ++ [ExecuteTool name inputArgs]) in
    match response with
    | Rejected msg => Throw msg t'
    | Resolved v => Ok (v, elapsed (tab_world t) w) t'
    end.

(** [this.dom.toolInputArgs.value || '{}']. *)
Definition input_text (t : tools_tab) : string :=
  if String.eqb (toolInputArgs t) "" then "{}" else toolInputArgs t.

(** [executeSelectedTool()]. *)
Definition executeSelectedTool : TabM unit :=
  let* t := get_state in
  match selectedTool t with
  | None => ret tt
  | Some tool =>
    let* _ := set_execute_disabled true in
    let* _ := set_result "" in
    let* parsed :=
      try_catch
        (let* inputArgs := tab_on_heap (JSON.parse (input_text t)) in ret (Some inputArgs))
        (fun message =>
           let* _ := set_result ("Invalid JSON: " +:+ message) in
           let* _ := set_execute_disabled false in
           let* _ := tab_showStatus "Invalid tool input JSON" "error" 3500 in
           ret None) in
    match parsed with
    | None => ret tt
    | Some inputArgs =>
      let* schema := tab_on_heap (parseSchema (tool_inputSchema tool)) in
      let* normalized := tab_on_heap (normalizeInputForSchema host schema inputArgs []) in
      let* inputArgs :=
        if changed_of normalized then
          let* _ := set_input (pretty_text (value_of normalized)) in
          let* _ := tab_showStatus
                      "Adjusted input to match schema constraints before execution."
                      "warning" 3200 in
          ret (value_of normalized)
        else ret inputArgs in
      try_finally
        (try_catch
           (let* (response, elapsedMs) := tab_send_to_gateway (tool_name tool) inputArgs in
            let failure := get_prop_opt response "error" in
            if truthy failure then throw (to_string failure)
            else
              let output := get_prop_opt response "result" in
              let* _ := set_result (if String.eqb (typeof output) "object"
                                    then pretty_text output else to_string output) in
              let* _ := tab_push_trace
                          (fun ts => manual_execution ts (tool_name tool) inputArgs output
                                       elapsedMs) in
              tab_showStatus
                ("Tool executed in " +:+ JSNumber.toString elapsedMs +:+ "ms")
                "success" 2500)
           (fun message =>
              let* _ := set_result ("Execution failed: " +:+ message) in
              let* _ := tab_push_trace
                          (fun ts => manual_execution_error ts (tool_name tool) inputArgs
                                       message) in
              tab_showStatus "Tool execution failed" "error" 3500))
        (set_execute_disabled false)
    end
  end.

End ToolsTab.

Arguments ToolsTab {World}.
Arguments selectedTool {World}.
Arguments toolInputArgs {World}.
Arguments toolExecuteBtn_disabled {World}.
Arguments toolExecutionResult {World}.
Arguments tab_status {World}.
Arguments tab_statusTimeout {World}.
Arguments tab_trace {World}.
Arguments tab_heap {World}.
Arguments tab_world {World}.
Arguments tab_requests {World}.
Arguments set_execute_disabled {World}.
Arguments set_result {World}.
Arguments set_input {World}.
Arguments tab_showStatus {World}.
Arguments tab_push_trace host {World}.
Arguments tab_on_heap {World A}.
Arguments tab_send_to_gateway {World}.
Arguments input_text {World}.
Arguments executeSelectedTool host {World}.

(** A tools tab with a tool selected and a text in the input field, before
    anything was executed. *)
Definition fresh_tab (selected : tool) (input : string) : tools_tab nat :=
  ToolsTab (Some selected) input false "" None None [] 100%nat 0%nat [].

(** A clock on which every exchange takes 12 ms. *)
Definition steady_clock (before after : nat) : number := JSNumber.of_Z 12.




(** What was said, shown, traced and sent in [st] is still there in [st'],
    with more after it. *)
Definition extends {World} (st st' : loop_state World) : Prop :=
  aiMessages st `prefix_of` aiMessages st' /\
  chatTranscript st `prefix_of` chatTranscript st' /\
  trace st `prefix_of` trace st' /\
  requests st `prefix_of` requests st'.

(** A computation that only adds to the conversation, the chat, the trace
    and the requests, also when it throws. *)
Definition grows {World A} (c : comp (loop_state World) A) : Prop :=
  forall st,
    match c st with
    | Ok _ st' | Throw _ st' => extends st st'
    | OutOfFuel => True
    end.


(** ** The tool lists ([src/sidebar.js], lines 300-375) *)






(** ** The tools of the page ([src/content.js], lines 203-223) *)






(** * Properties *)

(** ** Induction on values *)

Section ValueInduction.

Variable P : jsvalue -> Prop.
Hypothesis P_undefined : P VUndefined.
Hypothesis P_null : P VNull.
Hypothesis P_bool : forall b, P (VBool b).
Hypothesis P_number : forall x, P (VNumber x).
Hypothesis P_string : forall s, P (VString s).
Hypothesis P_array : forall l items, Forall P items -> P (VArray l items).
Hypothesis P_object :
  forall l fs, Forall (fun kv => P (snd kv)) fs -> P (VObject l fs).

Fixpoint jsvalue_ind (v : jsvalue) : P v :=
  match v with
  | VUndefined => P_undefined
  | VNull => P_null
  | VBool b => P_bool b
  | VNumber x => P_number x
  | VString s => P_string s
  | VArray l items =>
    P_array l items
      ((fix all (vs : list jsvalue) : Forall P vs :=
          match vs with
          | [] => Forall_nil P
          | x :: vs' => Forall_cons P x vs' (jsvalue_ind x) (all vs')
          end) items)
  | VObject l fs =>
    P_object l fs
      ((fix all (kvs : fields) : Forall (fun kv => P (snd kv)) kvs :=
          match kvs with
          | [] => Forall_nil _
          | kv :: kvs' => Forall_cons _ kv kvs' (jsvalue_ind (snd kv)) (all kvs')
          end) fs)
  end.

End ValueInduction.

(** ** Depth of the parts of a value *)

Lemma list_max_le_elem (l : list nat) (n : nat) :
  In n l -> (n <= list_max l)%nat.
Proof.
  induction l as [|m l IH]; simpl; intros Hin; [contradiction|].
  destruct Hin as [->|Hin]; [lia|]. specialize (IH Hin). lia.
Qed.

Lemma lookup_field_In k fs v : lookup_field k fs = Some v -> In (k, v) fs.
Proof.
  induction fs as [|[k' v'] fs IH]; simpl; [discriminate|].
  destruct (String.eqb k' k) eqn:E.
  - apply String.eqb_eq in E. intros [= ->]. left. by subst.
  - intros H. right. auto.
Qed.



Lemma depth_nth items i :
  (value_depth (List.nth i items VUndefined) <= list_max (List.map value_depth items))%nat.
Proof.
  destruct (Nat.lt_ge_cases i (List.length items)) as [Hlt|Hge].
  - apply list_max_le_elem, in_map, nth_In, Hlt.
  - rewrite nth_overflow by lia. simpl. lia.
Qed.

Lemma depth_get_prop v k :
  (value_depth (get_prop v k) <= Nat.pred (value_depth v))%nat.
Proof.
  destruct v as [| | | | s | l items | l fs]; simpl; try lia.
  - destruct (String.eqb k "length"); simpl; [lia|].
    destruct (array_index k) as [i|]; simpl; [|lia].
    destruct (String.get i s); simpl; lia.
  - destruct (String.eqb k "length"); simpl; [lia|].
    destruct (array_index k) as [i|]; simpl; [|lia]. apply depth_nth.
  - destruct (lookup_field k fs) as [w|] eqn:E; simpl; [|lia].
    apply lookup_field_In in E. apply list_max_le_elem.
    apply in_map_iff. exists (k, w). auto.
Qed.

Lemma depth_first_of_array a b :
  first_of_array a = Some b -> (value_depth b <= Nat.pred (value_depth a))%nat.
Proof.
  destruct a as [| | | | | l [|x items] |]; simpl; try discriminate.
  intros [= ->]. lia.
Qed.

Lemma depth_index_entries {A} (f : A -> jsvalue) i (l : list A) k v bound :
  (forall x, In x l -> (value_depth (f x) <= bound)%nat) ->
  In (k, v) (index_entries f i l) -> (value_depth v <= bound)%nat.
Proof.
  revert i. induction l as [|x l IH]; simpl; intros i Hb Hin; [contradiction|].
  destruct Hin as [[= _ <-]|Hin]; [apply Hb; auto|].
  eapply IH; eauto.
Qed.

Lemma depth_object_entries v k w :
  In (k, w) (object_entries v) -> (value_depth w <= Nat.pred (value_depth v))%nat.
Proof.
  destruct v as [| | | | s | l items | l fs]; simpl; try contradiction.
  - intros Hin. eapply depth_index_entries in Hin; [exact Hin|]. simpl. lia.
  - intros Hin. eapply depth_index_entries in Hin; [exact Hin|].
    intros x Hx. apply list_max_le_elem. by apply in_map.
  - intros Hin. apply list_max_le_elem. apply in_map_iff. exists (k, w). auto.
Qed.

(** The first branch of [oneOf] or [anyOf], the items schema and the
    property schemas all lie strictly below the schema they belong to. *)
Lemma depth_branch schema k b :
  first_of_array (get_prop schema k) = Some b ->
  (value_depth b < value_depth schema)%nat.
Proof.
  intros H. pose proof (depth_first_of_array _ _ H) as H1.
  pose proof (depth_get_prop schema k) as H2.
  destruct (get_prop schema k) as [| | | | | l [|x items] |]; simpl in *; try discriminate.
  lia.
Qed.

Lemma depth_truthy_prop schema k :
  truthy schema = true -> typeof schema = "object" ->
  (value_depth (get_prop schema k) < value_depth schema)%nat.
Proof.
  intros Ht Hty. pose proof (depth_get_prop schema k) as H.
  destruct schema; simpl in *; try discriminate; lia.
Qed.

Lemma depth_property schema k key child :
  truthy schema = true -> typeof schema = "object" ->
  In (key, child) (object_entries (get_prop schema k)) ->
  (value_depth child < value_depth schema)%nat.
Proof.
  intros Ht Hty Hin. apply depth_object_entries in Hin.
  pose proof (depth_truthy_prop schema k Ht Hty). lia.
Qed.

(** ** Computations, step by step *)

Lemma bind_Ok {S A B} (c : comp S A) (k : A -> comp S B) s x s' :
  c s = Ok x s' -> bind c k s = k x s'.
Proof. unfold bind. by intros ->. Qed.



Lemma bind_fresh {B} (k : loc -> M B) a : bind fresh k a = k a (S a).
Proof. reflexivity. Qed.

(** ** Template generation returns *)

Section TemplateTotal.

Variable host : Host.

Lemma template_properties_total gen entries path out a :
  (forall key child, In (key, child) entries ->
     forall p a0, exists v a1, gen child p a0 = Ok v a1) ->
  exists fs a', template_properties gen entries path out a = Ok fs a'.
Proof.
  revert out a. induction entries as [|[key child] rest IH]; intros out a Hgen; simpl.
  - by exists out, a.
  - destruct (Hgen key child (or_introl eq_refl) (path ++ [key]) a) as (v & a1 & Hv).
    rewrite (bind_Ok _ _ _ _ _ Hv).
    apply IH. intros k c Hin. apply (Hgen k c). by right.
Qed.

(** With fuel above the depth of the schema, [generateTemplateFromSchema]
    returns a value: it neither throws nor runs out of fuel. *)
Lemma template_fuel_total fuel schema path a :
  (value_depth schema < fuel)%nat ->
  exists v a', template_fuel host fuel schema path a = Ok v a'.
Proof.
  revert schema path a. induction fuel as [|fuel IH]; intros schema path a Hd; [lia|].
  simpl.
  destruct (negb (truthy schema) || negb (String.eqb (typeof schema) "object")) eqn:Hguard.
  { by eexists _, _. }
  apply orb_false_elim in Hguard as [Ht Hty].
  apply negb_false_iff in Ht. apply negb_false_iff, String.eqb_eq in Hty.
  destruct (hasOwnProperty schema "const"); [by eexists _, _|].
  destruct (hasOwnProperty schema "default"); [by eexists _, _|].
  destruct (first_of_array (get_prop schema "examples")); [by eexists _, _|].
  destruct (first_of_array (get_prop schema "enum")); [by eexists _, _|].
  destruct (first_of_array (get_prop schema "oneOf")) as [b|] eqn:HoneOf.
  { apply IH. apply depth_branch in HoneOf. lia. }
  destruct (first_of_array (get_prop schema "anyOf")) as [b|] eqn:HanyOf.
  { apply IH. apply depth_branch in HanyOf. lia. }
  destruct (is_text (get_prop schema "type") "object").
  { rewrite bind_fresh.
    destruct (template_properties_total (template_fuel host fuel)
                (if truthy (get_prop schema "properties")
                 then object_entries (get_prop schema "properties") else [])
                path [] (S a)) as (fs & a' & Hfs).
    - intros key child Hin p a0. apply IH.
      destruct (truthy (get_prop schema "properties")); [|contradiction].
      eapply depth_property in Hin; eauto. lia.
    - rewrite (bind_Ok _ _ _ _ _ Hfs). by eexists _, _. }
  destruct (is_text (get_prop schema "type") "array").
  { destruct (truthy (get_prop schema "items")).
    - destruct (IH (get_prop schema "items") (path ++ ["0"]) a) as (v & a' & Hv).
      { pose proof (depth_truthy_prop schema "items" Ht Hty). lia. }
      rewrite (bind_Ok _ _ _ _ _ Hv). by eexists _, _.
    - by eexists _, _. }
  destruct (is_text (get_prop schema "type") "string"); [by eexists _, _|].
  destruct (is_text (get_prop schema "type") "number" || is_text (get_prop schema "type") "integer");
    [by eexists _, _|].
  destruct (is_text (get_prop schema "type") "boolean"); [by eexists _, _|].
  destruct (is_text (get_prop schema "type") "null"); by eexists _, _.
Qed.

Lemma generateTemplateFromSchema_total schema path a :
  exists v a', generateTemplateFromSchema host schema path a = Ok v a'.
Proof. apply template_fuel_total. lia. Qed.

End TemplateTotal.

(** ** [JSON.parse] has fuel enough *)

Module JSONFacts.
Import JSON.

Lemma skip_space_length s : (String.length (skip_space s) <= String.length s)%nat.
Proof. induction s as [|c s IH]; simpl; [lia|]. destruct (is_json_space c); simpl; lia. Qed.

Lemma after_code_length n s r :
  after_code n s = Some r -> String.length s = S (String.length r).
Proof.
  destruct s as [|c s]; simpl; [discriminate|].
  destruct (JSString.code c =? n); [|discriminate]. by intros [= ->].
Qed.

Lemma parse_string_body_length s body r :
  parse_string_body s = Some (body, r) -> (String.length r < String.length s)%nat.
Proof.
  remember (String.length s) as n eqn:Hn.
  revert s body r Hn. induction n as [n IH] using lt_wf_ind. intros s body r Hn.
  destruct s as [|c s]; simpl; [discriminate|].
  destruct (JSString.code c =? 34). { intros [= _ ->]. simpl in Hn. lia. }
  destruct (JSString.code c <? 32); [discriminate|].
  simpl in Hn.
  assert (Hrec : forall s' b' r', (String.length s' < n)%nat ->
            parse_string_body s' = Some (b', r') ->
            (String.length r' < String.length s')%nat).
  { intros s' b' r' Hlt. by apply (IH (String.length s') Hlt s' b' r'). }
  destruct (JSString.code c =? 92).
  - destruct s as [|e s]; [discriminate|]. simpl in Hn.
    assert (Hsimple : forall ch,
      match parse_string_body s with
      | Some (body0, r0) => Some (String (JSString.char_of_code ch) body0, r0)
      | None => None
      end = Some (body, r) -> (String.length r < n)%nat).
    { intros ch. destruct (parse_string_body s) as [[b0 r0]|] eqn:E; [|discriminate].
      intros [= _ ->]. apply Hrec in E; lia. }
    repeat match goal with
           | |- (if ?b then _ else _) = _ -> _ => destruct b; [by apply Hsimple|]
           end.
    destruct (JSString.code e =? 117); [|discriminate].
    destruct s as [|h1 [|h2 [|h3 [|h4 s]]]]; try discriminate.
    destruct (unicode_escape h1 h2 h3 h4); [|discriminate].
    destruct (parse_string_body s) as [[b0 r0]|] eqn:E; [|discriminate].
    intros [= _ ->]. apply Hrec in E; simpl in *; lia.
  - destruct (parse_string_body s) as [[b0 r0]|] eqn:E; [|discriminate].
    intros [= _ ->]. apply Hrec in E; lia.
Qed.

Lemma span_digits_length s d r :
  JSString.span_digits s = (d, r) ->
  (String.length d + String.length r = String.length s)%nat.
Proof.
  revert d r. induction s as [|c s IH]; simpl; intros d r.
  - intros [= <- <-]. reflexivity.
  - destruct (JSString.is_digit c).
    + destruct (JSString.span_digits s) as [d0 r0]. intros [= <- <-].
      simpl. rewrite (IH d0 r0 eq_refl). reflexivity.
    + intros [= <- <-]. reflexivity.
Qed.

Lemma parse_sign_length s b r :
  parse_sign s = (b, r) -> (String.length r <= String.length s)%nat.
Proof.
  unfold parse_sign.
  destruct (after_code 43 s) as [r1|] eqn:E1.
  { intros [= _ <-]. apply after_code_length in E1. lia. }
  destruct (after_code 45 s) as [r2|] eqn:E2.
  { intros [= _ <-]. apply after_code_length in E2. lia. }
  intros [= _ <-]. lia.
Qed.

Lemma parse_number_length s x r :
  parse_number s = Some (x, r) -> (String.length r < String.length s)%nat.
Proof.
  unfold parse_number.
  destruct (after_code 45 s) as [r0|] eqn:Hsign.
  - apply after_code_length in Hsign.
    destruct (JSString.span_digits r0) as [ip r1] eqn:Hip.
    apply span_digits_length in Hip.
    destruct (negb _); [discriminate|].
    destruct (after_code 46 r1) as [rf|] eqn:Hdot.
    + apply after_code_length in Hdot.
      destruct (JSString.span_digits rf) as [f r'] eqn:Hf.
      apply span_digits_length in Hf.
      destruct (String.eqb f ""); [discriminate|].
      destruct (after_code 101 r') as [r3|] eqn:He;
        [|destruct (after_code 69 r') as [r3|] eqn:HE].
      1,2: apply after_code_length in He || apply after_code_length in HE;
        destruct (parse_sign r3) as [es r4] eqn:Hes; apply parse_sign_length in Hes;
        destruct (JSString.span_digits r4) as [ed r5] eqn:Hed;
        apply span_digits_length in Hed;
        destruct (String.eqb ed ""); [discriminate|]; intros [= _ <-]; lia.
      intros [= _ <-]. lia.
    + destruct (after_code 101 r1) as [r3|] eqn:He;
        [|destruct (after_code 69 r1) as [r3|] eqn:HE].
      1,2: apply after_code_length in He || apply after_code_length in HE;
        destruct (parse_sign r3) as [es r4] eqn:Hes; apply parse_sign_length in Hes;
        destruct (JSString.span_digits r4) as [ed r5] eqn:Hed;
        apply span_digits_length in Hed;
        destruct (String.eqb ed ""); [discriminate|]; intros [= _ <-]; lia.
      intros [= _ <-]. lia.
  - destruct (JSString.span_digits s) as [ip r1] eqn:Hip.
    apply span_digits_length in Hip.
    destruct ip as [|c0 ip]; [simpl; discriminate|]. simpl in Hip.
    destruct (negb _); [discriminate|].
    destruct (after_code 46 r1) as [rf|] eqn:Hdot.
    + apply after_code_length in Hdot.
      destruct (JSString.span_digits rf) as [f r'] eqn:Hf.
      apply span_digits_length in Hf.
      destruct (String.eqb f ""); [discriminate|].
      destruct (after_code 101 r') as [r3|] eqn:He;
        [|destruct (after_code 69 r') as [r3|] eqn:HE].
      1,2: apply after_code_length in He || apply after_code_length in HE;
        destruct (parse_sign r3) as [es r4] eqn:Hes; apply parse_sign_length in Hes;
        destruct (JSString.span_digits r4) as [ed r5] eqn:Hed;
        apply span_digits_length in Hed;
        destruct (String.eqb ed ""); [discriminate|]; intros [= _ <-]; lia.
      intros [= _ <-]. lia.
    + destruct (after_code 101 r1) as [r3|] eqn:He;
        [|destruct (after_code 69 r1) as [r3|] eqn:HE].
      1,2: apply after_code_length in He || apply after_code_length in HE;
        destruct (parse_sign r3) as [es r4] eqn:Hes; apply parse_sign_length in Hes;
        destruct (JSString.span_digits r4) as [ed r5] eqn:Hed;
        apply span_digits_length in Hed;
        destruct (String.eqb ed ""); [discriminate|]; intros [= _ <-]; lia.
      intros [= _ <-]. lia.
Qed.

Lemma prefix_length p s : String.prefix p s = true -> (String.length p <= String.length s)%nat.
Proof.
  revert s. induction p as [|c p IH]; intros s; simpl; [lia|].
  destruct s as [|c' s]; [discriminate|]. simpl.
  destruct (ascii_dec c c'); [|discriminate].
  intros H. apply IH in H. lia.
Qed.

Lemma substring_length n m s : (String.length (String.substring n m s) <= m)%nat.
Proof.
  revert n m. induction s as [|c s IH]; intros n m.
  - destruct n, m; simpl; lia.
  - destruct n as [|n].
    + destruct m as [|m]; simpl; [lia|]. specialize (IH 0%nat m). lia.
    + simpl. apply IH.
Qed.

Lemma strip_prefix_length p s r :
  strip_prefix p s = Some r -> p <> "" -> (String.length r < String.length s)%nat.
Proof.
  unfold strip_prefix. destruct (String.prefix p s) eqn:E; [|discriminate].
  intros [= <-] Hp. apply prefix_length in E.
  pose proof (substring_length (String.length p) (String.length s - String.length p) s).
  destruct p; [done|]. simpl in *. lia.
Qed.

Lemma parse_literal_length s v r :
  parse_literal s = Some (v, r) -> (String.length r < String.length s)%nat.
Proof.
  unfold parse_literal.
  destruct (strip_prefix "true" s) eqn:E1.
  { intros [= _ <-]. by apply strip_prefix_length in E1. }
  destruct (strip_prefix "false" s) eqn:E2.
  { intros [= _ <-]. by apply strip_prefix_length in E2. }
  destruct (strip_prefix "null" s) eqn:E3; [|discriminate].
  intros [= _ <-]. by apply strip_prefix_length in E3.
Qed.

(** Every parser consumes at least one code unit when it succeeds. *)
Lemma parse_progress fuel :
  (forall s a v r a', parse_value fuel s a = Ok (Some (v, r)) a' ->
     (String.length r < String.length s)%nat) /\
  (forall s a vs r a', parse_elements fuel s a = Ok (Some (vs, r)) a' ->
     (String.length r < String.length s)%nat) /\
  (forall s acc a fs r a', parse_members fuel s acc a = Ok (Some (fs, r)) a' ->
     (String.length r < String.length s)%nat).
Proof.
  induction fuel as [|fuel (IHv & IHe & IHm)]; [repeat split; intros; discriminate|].
  repeat split.
  - intros s a v r a'. simpl.
    pose proof (skip_space_length s) as Hs.
    destruct (skip_space s) as [|c t] eqn:Hskip; [discriminate|]. simpl in Hs.
    pose proof (skip_space_length t) as Ht.
    destruct (JSString.code c =? 123).
    { rewrite bind_fresh.
      destruct (after_code 125 (skip_space t)) as [r'|] eqn:E.
      - intros [= _ <- _]. apply after_code_length in E. lia.
      - unfold bind.
        destruct (parse_members fuel (skip_space t) [] (S a)) as [[[fs r']|] a1|m a1|] eqn:Em;
          try discriminate.
        intros [= _ <- _]. apply IHm in Em. lia. }
    destruct (JSString.code c =? 91).
    { rewrite bind_fresh.
      destruct (after_code 93 (skip_space t)) as [r'|] eqn:E.
      - intros [= _ <- _]. apply after_code_length in E. lia.
      - unfold bind.
        destruct (parse_elements fuel (skip_space t) (S a)) as [[[vs r']|] a1|m a1|] eqn:Ee;
          try discriminate.
        intros [= _ <- _]. apply IHe in Ee. lia. }
    destruct (JSString.code c =? 34).
    { destruct (parse_string_body t) as [[b r']|] eqn:E; [|discriminate].
      intros [= _ <- _]. apply parse_string_body_length in E. lia. }
    destruct ((JSString.code c =? 45) || JSString.is_digit c).
    { destruct (parse_number (String c t)) as [[x r']|] eqn:E; [|discriminate].
      intros [= _ <- _]. apply parse_number_length in E. simpl in E. lia. }
    destruct (parse_literal (String c t)) as [[w r']|] eqn:E; [|discriminate].
    intros [= _ <- _]. apply parse_literal_length in E. simpl in E. lia.
  - intros s a vs r a'. simpl. unfold bind.
    destruct (parse_value fuel s a) as [[[v r0]|] a1|m a1|] eqn:Ev; try discriminate.
    apply IHv in Ev. pose proof (skip_space_length r0) as Hs.
    destruct (after_code 93 (skip_space r0)) as [r'|] eqn:E1.
    { intros [= _ <- _]. apply after_code_length in E1. lia. }
    destruct (after_code 44 (skip_space r0)) as [r'|] eqn:E2; [|discriminate].
    apply after_code_length in E2.
    destruct (parse_elements fuel r' a1) as [[[vs' r'']|] a2|m a2|] eqn:Ee; try discriminate.
    intros [= _ <- _]. apply IHe in Ee. lia.
  - intros s acc a fs r a'. simpl.
    pose proof (skip_space_length s) as Hs.
    destruct (after_code 34 (skip_space s)) as [r0|] eqn:E0; [|discriminate].
    apply after_code_length in E0.
    destruct (parse_string_body r0) as [[key r1]|] eqn:Ek; [|discriminate].
    apply parse_string_body_length in Ek.
    pose proof (skip_space_length r1) as Hs1.
    destruct (after_code 58 (skip_space r1)) as [r2|] eqn:E2; [|discriminate].
    apply after_code_length in E2. unfold bind.
    destruct (parse_value fuel r2 a) as [[[v r3]|] a1|m a1|] eqn:Ev; try discriminate.
    apply IHv in Ev. pose proof (skip_space_length r3) as Hs3.
    destruct (after_code 125 (skip_space r3)) as [r4|] eqn:E4.
    { intros [= _ <- _]. apply after_code_length in E4. lia. }
    destruct (after_code 44 (skip_space r3)) as [r4|] eqn:E5; [|discriminate].
    apply after_code_length in E5.
    intros Hm. apply IHm in Hm. lia.
Qed.

(** The parsers do not throw, and with fuel above twice the length of the
    text they do not run out of fuel. *)
Lemma parse_fuel_enough fuel :
  (forall s a, (2 * String.length s + 1 <= fuel)%nat ->
     exists r a', parse_value fuel s a = Ok r a') /\
  (forall s a, (2 * String.length s + 2 <= fuel)%nat ->
     exists r a', parse_elements fuel s a = Ok r a') /\
  (forall s acc a, (2 * String.length s + 2 <= fuel)%nat ->
     exists r a', parse_members fuel s acc a = Ok r a').
Proof.
  induction fuel as [|fuel (IHv & IHe & IHm)]; [repeat split; intros; lia|].
  repeat split.
  - intros s a Hf. simpl.
    pose proof (skip_space_length s) as Hs.
    destruct (skip_space s) as [|c t] eqn:Hskip; [by eexists _, _|]. simpl in Hs.
    pose proof (skip_space_length t) as Ht.
    destruct (JSString.code c =? 123).
    { rewrite bind_fresh.
      destruct (after_code 125 (skip_space t)); [by eexists _, _|].
      destruct (IHm (skip_space t) [] (S a)) as (r & a1 & Hr); [lia|].
      rewrite (bind_Ok _ _ _ _ _ Hr). destruct r as [[fs r']|]; by eexists _, _. }
    destruct (JSString.code c =? 91).
    { rewrite bind_fresh.
      destruct (after_code 93 (skip_space t)); [by eexists _, _|].
      destruct (IHe (skip_space t) (S a)) as (r & a1 & Hr); [lia|].
      rewrite (bind_Ok _ _ _ _ _ Hr). destruct r as [[vs r']|]; by eexists _, _. }
    destruct (JSString.code c =? 34).
    { destruct (parse_string_body t) as [[b r']|]; by eexists _, _. }
    destruct ((JSString.code c =? 45) || JSString.is_digit c).
    { destruct (parse_number (String c t)) as [[x r']|]; by eexists _, _. }
    by eexists _, _.
  - intros s a Hf. simpl.
    destruct (IHv s a) as (r & a1 & Hr); [lia|].
    rewrite (bind_Ok _ _ _ _ _ Hr). destruct r as [[v r0]|]; [|by eexists _, _].
    apply (proj1 (parse_progress fuel)) in Hr.
    pose proof (skip_space_length r0) as Hs.
    destruct (after_code 93 (skip_space r0)); [by eexists _, _|].
    destruct (after_code 44 (skip_space r0)) as [r'|] eqn:E2; [|by eexists _, _].
    apply after_code_length in E2.
    destruct (IHe r' a1) as (r1 & a2 & Hr1); [lia|].
    rewrite (bind_Ok _ _ _ _ _ Hr1). destruct r1 as [[vs r'']|]; by eexists _, _.
  - intros s acc a Hf. simpl.
    pose proof (skip_space_length s) as Hs.
    destruct (after_code 34 (skip_space s)) as [r0|] eqn:E0; [|by eexists _, _].
    apply after_code_length in E0.
    destruct (parse_string_body r0) as [[key r1]|] eqn:Ek; [|by eexists _, _].
    apply parse_string_body_length in Ek.
    pose proof (skip_space_length r1) as Hs1.
    destruct (after_code 58 (skip_space r1)) as [r2|] eqn:E2; [|by eexists _, _].
    apply after_code_length in E2.
    destruct (IHv r2 a) as (r & a1 & Hr); [lia|].
    rewrite (bind_Ok _ _ _ _ _ Hr). destruct r as [[v r3]|]; [|by eexists _, _].
    apply (proj1 (parse_progress fuel)) in Hr.
    pose proof (skip_space_length r3) as Hs3.
    destruct (after_code 125 (skip_space r3)); [by eexists _, _|].
    destruct (after_code 44 (skip_space r3)) as [r4|] eqn:E5; [|by eexists _, _].
    apply after_code_length in E5.
    apply IHm. lia.
Qed.

(** [JSON.parse] returns a value or throws a SyntaxError. *)
Lemma parse_returns_or_throws text a :
  (exists v a', parse text a = Ok v a') \/ (exists a', parse text a = Throw "SyntaxError" a').
Proof.
  unfold parse.
  destruct (proj1 (parse_fuel_enough (2 * String.length text + 2)) text a) as (r & a' & Hr);
    [lia|].
  rewrite (bind_Ok _ _ _ _ _ Hr).
  destruct r as [[v rest]|]; [|right; by eexists].
  destruct (skip_space rest); [left; by eexists _, _|right; by eexists].
Qed.

End JSONFacts.

(** ** Schema parsing (C4) *)

Lemma fallback_schema_spec a :
  exists v, fallback_schema a = Ok v (S (S a)) /\ is_fallback_schema v.
Proof. eexists. split; [reflexivity|]. by eexists _, _. Qed.

(** C4, as the code has it: [parseSchema] returns for every input, it never
    throws. A falsy schema gives the fallback [{type:"object", properties:{}}];
    a non-empty string gives the fallback when [JSON.parse] rejects it and
    otherwise the parsed value, of whatever type it is; every other value is
    returned unchanged. *)
Theorem parseSchema_fails_soft (schema : jsvalue) (a : alloc) :
  exists v a',
    parseSchema schema a = Ok v a' /\
    (truthy schema = false -> is_fallback_schema v) /\
    (forall text, schema = VString text -> text <> "" ->
       JSON.parse text a = Ok v a' \/
       ((exists a0, JSON.parse text a = Throw "SyntaxError" a0) /\ is_fallback_schema v)) /\
    (truthy schema = true -> typeof schema <> "string" -> v = schema /\ a' = a).
Proof.
  unfold parseSchema.
  destruct (truthy schema) eqn:Ht; simpl.
  - destruct (String.eqb (typeof schema) "string") eqn:Hty.
    + destruct schema as [| | | |text| |]; try discriminate. simpl.
      unfold try_catch.
      destruct (JSONFacts.parse_returns_or_throws text a) as [(v & a' & Hp)|(a0 & Hp)];
        rewrite Hp.
      * exists v, a'. split; [reflexivity|]. split; [discriminate|]. split.
        -- intros text' [= <-] _. by left.
        -- intros _ Hne. by destruct Hne.
      * destruct (fallback_schema_spec a0) as (v & Hv & Hfb). exists v, (S (S a0)).
        split; [exact Hv|]. split; [discriminate|]. split.
        -- intros text' [= <-] _. right. split; [by eexists|exact Hfb].
        -- intros _ Hne. by destruct Hne.
    + exists schema, a. split; [reflexivity|]. split; [discriminate|]. split.
      * intros text -> _. discriminate.
      * done.
  - destruct (fallback_schema_spec a) as (v & Hv & Hfb). exists v, (S (S a)).
    split; [exact Hv|]. split; [done|]. split.
    + intros text -> Hne. simpl in Ht. apply negb_false_iff, String.eqb_eq in Ht. done.
    + discriminate.
Qed.

(** C4 fails as stated: the text [42] is JSON whose parse yields a number,
    not an object, and [parseSchema] returns that number, not the fallback. *)
Lemma parseSchema_non_object_counterexample :
  JSON.parse "42" 0%nat = Ok (num 42) 0%nat /\
  typeof (num 42) = "number" /\
  parseSchema (VString "42") 0%nat = Ok (num 42) 0%nat /\
  ~ is_fallback_schema (num 42).
Proof.
  repeat split; try (vm_compute; reflexivity).
  intros (l & l' & H). discriminate.
Qed.

(** ** Numbers: comparison *)

Module JSNumberFacts.
Import JSNumber.

Lemma pos_compare_cont_eq m1 m2 : Pos.compare_cont Eq m1 m2 = Eq -> m1 = m2.
Proof. apply Pos.compare_eq. Qed.

(** [x === y] on Numbers: the same Number, or two zeros. *)
Lemma eqb_true x y :
  eqb x y = true -> x = y \/ (exists s s', x = S754_zero s /\ y = S754_zero s').
Proof.
  unfold eqb, SFeqb.
  destruct x as [s| s | | s m e], y as [s'| s' | | s' m' e']; simpl; intros H;
    try discriminate; try (right; by eexists _, _);
    try (destruct s; discriminate); try (destruct s'; discriminate).
  - destruct s, s'; try discriminate; by left.
  - destruct s, s'; try discriminate;
      (destruct (Z.compare e e') eqn:Ee; try discriminate;
       apply Z.compare_eq in Ee; subst e';
       destruct (Pos.compare_cont Eq m m') eqn:Em; try discriminate;
       apply pos_compare_cont_eq in Em; subst; by left).
Qed.

Lemma compare_zero_l s s' y : SFcompare (S754_zero s) y = SFcompare (S754_zero s') y.
Proof. by destruct y. Qed.


(** Numbers that are [===] compare alike with every Number. *)
Lemma eqb_compare_l x y z : eqb x y = true -> SFcompare x z = SFcompare y z.
Proof.
  intros H. apply eqb_true in H as [->|(s & s' & -> & ->)]; [done|apply compare_zero_l].
Qed.






Lemma compare_refl_finite x : isFinite x = true -> SFcompare x x = Some Eq.
Proof.
  destruct x as [s| s | | s m e]; simpl; try discriminate; intros _; [done|].
  destruct s; rewrite Z.compare_refl, Pos.compare_cont_refl; done.
Qed.

Lemma eqb_refl_finite x : isFinite x = true -> eqb x x = true.
Proof. intros H. unfold eqb, SFeqb. by rewrite compare_refl_finite. Qed.


End JSNumberFacts.

(** ** Normalization finishes *)

Lemma finishes_ret {S A} (x : A) (s : S) : finishes (ret x) s.
Proof. done. Qed.

Lemma finishes_throw {S A} msg (s : S) : finishes (@throw S A msg) s.
Proof. done. Qed.

Lemma finishes_bind {S A B} (c : comp S A) (k : A -> comp S B) s :
  finishes c s ->
  (forall x s', c s = Ok x s' -> finishes (k x) s') ->
  finishes (bind c k) s.
Proof.
  unfold finishes, bind. intros Hc Hk.
  destruct (c s) as [x s'|msg s'|] eqn:E; [by apply Hk|done|done].
Qed.

Lemma finishes_total {S A} (c : comp S A) s :
  (exists x s', c s = Ok x s') -> finishes c s.
Proof. unfold finishes. by intros (x & s' & ->). Qed.

Lemma finishes_fresh a : finishes fresh a.
Proof. done. Qed.

Lemma finishes_new_array items a : finishes (new_array items) a.
Proof. done. Qed.

Lemma finishes_new_object fs a : finishes (new_object fs) a.
Proof. done. Qed.

Section NormalizeFinishes.

Variable host : Host.

Lemma finishes_template schema path a :
  finishes (generateTemplateFromSchema host schema path) a.
Proof. apply finishes_total, generateTemplateFromSchema_total. Qed.

Lemma finishes_get_length next a : finishes (get_length next) a.
Proof. by destruct next. Qed.

Lemma finishes_pad_end next n a : finishes (pad_end next n) a.
Proof. by destruct next. Qed.

Lemma finishes_slice_to next n a : finishes (slice_to next n) a.
Proof. by destruct next. Qed.

Lemma finishes_normalize_string schema value path a :
  finishes (normalize_string host schema value path) a.
Proof.
  unfold normalize_string.
  apply finishes_bind.
  { destruct (String.eqb (typeof value) "string"); [done|apply finishes_template]. }
  intros next a1 _. apply finishes_bind.
  { destruct (_ && _); [|done].
    apply finishes_bind; [apply finishes_template|done]. }
  intros [next1 changed1] a2 _. apply finishes_bind.
  { destruct (get_prop schema "pattern"); try done.
    destruct (regexp_test host s (to_string next1)) as [[|]|]; try done.
    apply finishes_bind; [apply finishes_template|done]. }
  intros [next2 changed2] a3 _. apply finishes_bind.
  { destruct (number_keyword schema "minLength"); [|done].
    apply finishes_bind; [apply finishes_get_length|].
    intros len a4 _. destruct (js_lt len _); [|done].
    apply finishes_bind; [apply finishes_pad_end|done]. }
  intros [next3 changed3] a4 _. apply finishes_bind.
  { destruct (number_keyword schema "maxLength"); [|done].
    apply finishes_bind; [apply finishes_get_length|].
    intros len a5 _. destruct (js_gt len _); [|done].
    apply finishes_bind; [apply finishes_slice_to|done]. }
  by intros [next4 changed4] a5 _.
Qed.

Lemma finishes_normalize_number schema value path a :
  finishes (normalize_number host schema value path) a.
Proof.
  unfold normalize_number.
  apply finishes_bind.
  { destruct (negb _); [|done].
    apply finishes_bind; [apply finishes_template|done]. }
  intros [next changed] a1 _.
  repeat match goal with
         | |- context [let '(_, _) := ?e in _] => destruct e
         end.
  done.
Qed.

Lemma finishes_normalize_properties norm entries source required path out changed a :
  (forall key child, In (key, child) entries ->
     forall v p a0, finishes (norm child v p) a0) ->
  finishes (normalize_properties norm entries source required path out changed) a.
Proof.
  revert out changed a.
  induction entries as [|[key child] rest IH]; intros out changed a Hnorm; simpl; [done|].
  assert (Hrest : forall k c, In (k, c) rest -> forall v p a0, finishes (norm c v p) a0).
  { intros k c Hin. apply (Hnorm k c). by right. }
  destruct (_ && _); [by apply IH|].
  apply finishes_bind; [apply (Hnorm key child); by left|].
  intros r a1 _. by apply IH.
Qed.

Lemma finishes_normalize_items norm items index path changed a :
  (forall v p a0, finishes (norm v p) a0) ->
  finishes (normalize_items norm items index path changed) a.
Proof.
  intros Hnorm. revert index changed a.
  induction items as [|item rest IH]; intros index changed a; simpl; [done|].
  apply finishes_bind; [apply Hnorm|].
  intros r a1 _. apply finishes_bind; [apply IH|].
  by intros [values changed'] a2 _.
Qed.

(** With fuel above the depth of the schema, normalization returns or
    throws. *)
Lemma finishes_normalize_fuel fuel schema value path a :
  (value_depth schema < fuel)%nat ->
  finishes (normalize_fuel host fuel schema value path) a.
Proof.
  revert schema value path a.
  induction fuel as [|fuel IH]; intros schema value path a Hd; [lia|].
  simpl.
  destruct (negb (truthy schema) || negb (String.eqb (typeof schema) "object")) eqn:Hguard;
    [done|].
  apply orb_false_elim in Hguard as [Ht Hty].
  apply negb_false_iff in Ht. apply negb_false_iff, String.eqb_eq in Hty.
  destruct (first_of_array (get_prop schema "oneOf")) as [b|] eqn:HoneOf.
  { apply IH. apply depth_branch in HoneOf. lia. }
  destruct (first_of_array (get_prop schema "anyOf")) as [b|] eqn:HanyOf.
  { apply IH. apply depth_branch in HanyOf. lia. }
  destruct (enum_mismatch schema value); [done|].
  destruct (_ && _); [done|].
  destruct (is_text (get_prop schema "type") "object").
  { apply finishes_bind; [done|]. intros l a1 _.
    apply finishes_bind.
    - apply finishes_normalize_properties.
      intros key child Hin v p a0. apply IH.
      destruct (truthy (get_prop schema "properties")); [|contradiction].
      eapply depth_property in Hin; eauto. lia.
    - by intros [out changed] a2 _. }
  destruct (is_text (get_prop schema "type") "array").
  { apply finishes_bind; [by destruct (isArray value)|]. intros source a1 _.
    destruct (negb (truthy (get_prop schema "items"))) eqn:Hitems; [done|].
    apply finishes_bind; [done|]. intros l a2 _.
    apply finishes_bind.
    - apply finishes_normalize_items. intros v p a0. apply IH.
      pose proof (depth_truthy_prop schema "items" Ht Hty). lia.
    - intros [normalizedItems changed] a3 _.
      destruct normalizedItems; [|done].
      destruct (_ || _); [|done].
      apply finishes_bind; [apply finishes_template|done]. }
  destruct (is_text (get_prop schema "type") "string");
    [apply finishes_normalize_string|].
  destruct (_ || _); [apply finishes_normalize_number|].
  destruct (is_text (get_prop schema "type") "boolean").
  { by destruct (negb _). }
  destruct (is_text (get_prop schema "type") "null"); [done|].
  destruct (strict_equals value VUndefined); [|done].
  apply finishes_bind; [apply finishes_template|done].
Qed.

Lemma finishes_normalizeInputForSchema schema value path a :
  finishes (normalizeInputForSchema host schema value path) a.
Proof. apply finishes_normalize_fuel. lia. Qed.

End NormalizeFinishes.

Lemma finishes_parseSchema schema a : finishes (parseSchema schema) a.
Proof.
  unfold parseSchema.
  destruct (negb (truthy schema)); [done|].
  destruct (String.eqb (typeof schema) "string"); [|done].
  unfold finishes, try_catch.
  destruct (JSONFacts.parse_returns_or_throws (to_string schema) a)
    as [(v & a' & ->)|(a' & ->)]; done.
Qed.

(** ** Number coercion (C10) *)



Section NumberCoercion.

Variable host : Host.





End NumberCoercion.



(** ** Values up to the identities of their arrays and objects *)

Module IdentityFacts.











End IdentityFacts.

(** ** The parser and the identities it draws *)

Module ParseIdentity.
Import JSON IdentityFacts.






End ParseIdentity.

(** ** The agent loop, call by call *)

Section AgentLoopFacts.

Variable host : Host.
Variable World : Type.
Variable adapter : World -> list message -> list tool -> ai_response * World.
Variable gateway : World -> jsvalue -> jsvalue -> exec_response * World.
Variable tools : list tool.

Implicit Types (st : loop_state World) (locals : turn_locals) (call : function_call).

(** The arguments of a call are always obtained: a text that does not parse
    and a payload that is not an object give [{}]. *)
Lemma call_arguments_total call a :
  exists args a', call_arguments call a = Ok args a'.
Proof.
  unfold call_arguments.
  assert (H : exists args a1,
    (if String.eqb (typeof (call_args call)) "string"
     then try_catch (JSON.parse (to_string (call_args call))) (fun _ => new_object [])
     else ret (call_args call)) a = Ok args a1).
  { destruct (String.eqb (typeof (call_args call)) "string"); [|by eexists _, _].
    unfold try_catch.
    destruct (JSONFacts.parse_returns_or_throws (to_string (call_args call)) a)
      as [(v & a' & ->)|(a' & ->)]; by eexists _, _. }
  destruct H as (args & a1 & H). rewrite (bind_Ok _ _ _ _ _ H).
  destruct (_ || _); by eexists _, _.
Qed.

(** What a call looks up in the ledger: the signature of its name and of its
    arguments as they are before normalization. *)
Lemma process_call_unfold call locals st args a1 :
  call_arguments call (heap st) = Ok args a1 ->
  process_call host gateway tools call locals st =
  let toolName := call_tool_name call in
  let callSignature := buildToolCallSignature toolName args in
  let st1 := set_heap a1 st in
  match executedToolCalls st1 !! callSignature with
  | Some success =>
    (let* _ := push_trace host (fun ts => ai_tool_skipped_duplicate ts toolName args) in
     ret (TurnLocals (toolResultLines locals ++ [call_text toolName args +:+ skipped_suffix])
            (executedThisTurn locals) (S (skippedDuplicatesThisTurn locals)))) st1
  | _ =>
    (let* args' := normalize_call_arguments host tools toolName args in
     let* _ := appendChatLine "system" ("Calling tool: " +:+ to_string toolName) in
     execute_call host gateway toolName args' callSignature locals) st1
  end.
Proof.
  intros Hargs. unfold process_call.
  assert (Hheap : on_heap (call_arguments call) st = Ok args (set_heap a1 st)).
  { unfold on_heap. by rewrite Hargs. }
  rewrite (bind_Ok _ _ _ _ _ Hheap). cbv zeta.
  unfold bind at 1, get_state.
  destruct (executedToolCalls (set_heap a1 st)
            !! buildToolCallSignature (call_tool_name call) args) as [[|]|]; reflexivity.
Qed.

(** The execution of a call sends exactly one request to the gateway and
    returns: a failure of the tool is recorded, it is not thrown. *)
Lemma execute_call_sends toolName args callSignature locals st :
  exists locals' st',
    execute_call host gateway toolName args callSignature locals st = Ok locals' st' /\
    requests st' = requests st ++ [ExecuteTool toolName args] /\
    world st' = snd (gateway (world st) toolName args) /\
    aiMessages st' = aiMessages st /\
    toolsEnabled st' = toolsEnabled st /\
    heap st' = heap st /\
    chatTranscript st' = chatTranscript st /\
    length (toolResultLines locals') = S (length (toolResultLines locals)) /\
    skippedDuplicatesThisTurn locals' = skippedDuplicatesThisTurn locals /\
    ((executedToolCalls st' = <[callSignature := success]> (executedToolCalls st) /\
      executedThisTurn locals' = S (executedThisTurn locals)) \/
     (executedToolCalls st' = <[callSignature := error]> (executedToolCalls st) /\
      executedThisTurn locals' = executedThisTurn locals)).
Proof.
  unfold execute_call, try_catch, bind at 1, send_to_gateway.
  destruct (gateway (world st) toolName args) as [[msg|resp] w] eqn:Hg; simpl.
  - eexists _, _. split; [reflexivity|]. simpl.
    rewrite length_app. simpl. repeat split; try done; try lia. by right.
  - destruct (truthy (get_prop_opt resp "error")) eqn:Herr; simpl.
    + eexists _, _. split; [reflexivity|]. simpl.
      rewrite length_app. simpl. repeat split; try done; try lia. by right.
    + eexists _, _. split; [reflexivity|]. simpl.
      rewrite length_app. simpl. repeat split; try done; try lia. by left.
Qed.

(** Normalizing the arguments of a call touches the heap and the trace
    only, whether it returns or throws. *)
Definition same_exchange st st' : Prop :=
  requests st' = requests st /\ world st' = world st /\
  executedToolCalls st' = executedToolCalls st /\
  aiMessages st' = aiMessages st /\ toolsEnabled st' = toolsEnabled st /\
  chatTranscript st' = chatTranscript st.

Lemma same_exchange_refl st : same_exchange st st.
Proof. by repeat split. Qed.

Lemma same_exchange_trans st1 st2 st3 :
  same_exchange st1 st2 -> same_exchange st2 st3 -> same_exchange st1 st3.
Proof.
  unfold same_exchange. intros (?&?&?&?&?&?) (?&?&?&?&?&?).
  repeat split; congruence.
Qed.

Lemma on_heap_frame {A} (c : M A) st :
  match on_heap c st with
  | Ok _ st' | Throw _ st' => same_exchange st st'
  | OutOfFuel => True
  end.
Proof. unfold on_heap. destruct (c (heap st)); by repeat split. Qed.

Lemma normalize_call_arguments_frame toolName args st :
  match normalize_call_arguments host tools toolName args st with
  | Ok _ st' | Throw _ st' => same_exchange st st'
  | OutOfFuel => False
  end.
Proof.
  unfold normalize_call_arguments.
  destruct (find _ tools) as [toolDef|]; [|apply same_exchange_refl].
  unfold bind at 1.
  pose proof (on_heap_frame (parseSchema (tool_inputSchema toolDef)) st) as H1.
  pose proof (finishes_parseSchema (tool_inputSchema toolDef) (heap st)) as F1.
  unfold on_heap in *. unfold finishes in F1.
  destruct (parseSchema (tool_inputSchema toolDef) (heap st)) as [schema a1|msg a1|];
    [|exact H1|done].
  unfold bind at 1.
  pose proof (on_heap_frame (normalizeInputForSchema host schema args [])
                (set_heap a1 st)) as H2.
  pose proof (finishes_normalizeInputForSchema host schema args [] a1) as F2.
  unfold on_heap in *. unfold finishes in F2. simpl heap in *.
  destruct (normalizeInputForSchema host schema args [] a1) as [r a2|msg a2|];
    [| exact (same_exchange_trans _ _ _ H1 H2) | done].
  destruct (changed_of r); simpl.
  - apply (same_exchange_trans _ _ _ H1). by repeat split.
  - exact (same_exchange_trans _ _ _ H1 H2).
Qed.


(** A failed execution: the gateway rejects, or it resolves to a response
    with an [error]. *)
Lemma execute_call_failure toolName args callSignature locals st response w :
  gateway (world st) toolName args = (response, w) ->
  match response with
  | Rejected _ => True
  | Resolved resp => truthy (get_prop_opt resp "error") = true
  end ->
  exists line message,
    execute_call host gateway toolName args callSignature locals st =
    Ok (TurnLocals (toolResultLines locals ++ [line])
          (executedThisTurn locals) (skippedDuplicatesThisTurn locals))
       (LoopState (aiMessages st) (chatTranscript st)
          (trace st ++ [ai_tool_error (date_now_iso host) toolName args message])
          (<[callSignature := error]> (executedToolCalls st)) (toolsEnabled st)
          (heap st) w (requests st ++ [ExecuteTool toolName args])).
Proof.
  intros Hg Herr.
  unfold execute_call, try_catch, bind at 1, send_to_gateway.
  rewrite Hg. destruct response as [msg|resp]; simpl.
  - by eexists _, _.
  - rewrite Herr. by eexists _, _.
Qed.


(** A call that is not a duplicate of a success: when the normalization of
    its arguments returns, the call is executed with the normalized
    arguments, and the ledger gets the outcome under the signature of the
    arguments as they were before normalization. *)
Lemma process_call_executes call locals st args a1 args' st1 :
  call_arguments call (heap st) = Ok args a1 ->
  executedToolCalls st !! buildToolCallSignature (call_tool_name call) args <> Some success ->
  normalize_call_arguments host tools (call_tool_name call) args (set_heap a1 st)
  = Ok args' st1 ->
  exists locals' st' status,
    process_call host gateway tools call locals st = Ok locals' st' /\
    requests st' = requests st ++ [ExecuteTool (call_tool_name call) args'] /\
    executedToolCalls st' =
      <[buildToolCallSignature (call_tool_name call) args := status]> (executedToolCalls st) /\
    (status = success /\ executedThisTurn locals' = S (executedThisTurn locals) \/
     status = error /\ executedThisTurn locals' = executedThisTurn locals) /\
    skippedDuplicatesThisTurn locals' = skippedDuplicatesThisTurn locals /\
    heap st' = heap st1 /\
    aiMessages st' = aiMessages st /\
    toolsEnabled st' = toolsEnabled st.
Proof.
  intros Hargs Hnew Hnorm.
  pose proof (normalize_call_arguments_frame (call_tool_name call) args (set_heap a1 st))
    as Hframe'.
  rewrite Hnorm in Hframe'.
  destruct Hframe' as (Hreq & Hw & Hledger & Hmsg & Hen & Hchat).
  simpl in Hreq, Hw, Hledger, Hmsg, Hen, Hchat.
  rewrite (process_call_unfold _ _ _ _ _ Hargs). cbv zeta.
  change (executedToolCalls (set_heap a1 st)) with (executedToolCalls st).
  assert (Hbranch : forall (A : Type) (x y : A),
            match executedToolCalls st
                  !! buildToolCallSignature (call_tool_name call) args with
            | Some success => x
            | _ => y
            end = y).
  { intros A x y.
    destruct (executedToolCalls st !! buildToolCallSignature (call_tool_name call) args)
      as [[|]|]; done. }
  rewrite Hbranch. rewrite (bind_Ok _ _ _ _ _ Hnorm).
  unfold bind at 1, appendChatLine, modify.
  match goal with
  | |- context [execute_call _ _ ?n ?a ?sg ?l ?s] =>
    destruct (execute_call_sends n a sg l s)
      as (locals' & st' & Hexec & Hr & _ & Hm & He & Hh & _ & _ & Hsk & Hst)
  end.
  exists locals', st'.
  destruct Hst as [[Hst Hex]|[Hst Hex]]; [exists success|exists error];
    (split; [exact Hexec|]); simpl in *;
    rewrite Hr, Hst, Hm, He, Hh, Hreq, Hledger, Hmsg, Hen;
    repeat split; auto.
Qed.

End AgentLoopFacts.

(** ** Duplicate suppression (C5) *)

Section DuplicateSuppression.

Variable host : Host.
Variable World : Type.
Variable gateway : World -> jsvalue -> jsvalue -> exec_response * World.
Variable tools : list tool.

Implicit Types (st : loop_state World) (locals : turn_locals) (call : function_call).


End DuplicateSuppression.


(** ** Retry after failure (C6) and the signature before normalization (C9) *)

Section RetryAndSignature.

Variable host : Host.
Variable World : Type.
Variable gateway : World -> jsvalue -> jsvalue -> exec_response * World.
Variable tools : list tool.

Implicit Types (st : loop_state World) (locals : turn_locals) (call : function_call).

(** C6. An execution that fails, by a rejected promise or by a response
    with an [error], is recorded in the ledger with status error; and a call
    whose signature the ledger holds with status error is not skipped: when
    the normalization of its arguments returns, the call is sent to the
    gateway again. *)
Theorem failed_call_is_retried call locals st args a1 :
  call_arguments call (heap st) = Ok args a1 ->
  let toolName := call_tool_name call in
  let callSignature := buildToolCallSignature toolName args in
  (forall args0 response w st0 locals0,
     gateway (world st0) toolName args0 = (response, w) ->
     match response with
     | Rejected _ => True
     | Resolved resp => truthy (get_prop_opt resp "error") = true
     end ->
     exists locals' st',
       execute_call host gateway toolName args0 callSignature locals0 st0 = Ok locals' st' /\
       executedToolCalls st' !! callSignature = Some error /\
       executedThisTurn locals' = executedThisTurn locals0) /\
  (forall args' st1,
     executedToolCalls st !! callSignature = Some error ->
     normalize_call_arguments host tools toolName args (set_heap a1 st) = Ok args' st1 ->
     exists locals' st',
       process_call host gateway tools call locals st = Ok locals' st' /\
       requests st' = requests st ++ [ExecuteTool toolName args'] /\
       skippedDuplicatesThisTurn locals' = skippedDuplicatesThisTurn locals).
Proof.
  intros Hargs toolName callSignature. split.
  - intros args0 response w st0 locals0 Hg Hfail.
    destruct (execute_call_failure host _ gateway toolName args0 callSignature locals0 st0
                response w Hg Hfail) as (line & message & Hexec).
    eexists _, _. split; [exact Hexec|]. simpl. split; [apply lookup_insert_eq|done].
  - intros args' st1 Herr Hnorm.
    destruct (process_call_executes host _ gateway tools call locals st args a1 args' st1
                Hargs) as (locals' & st' & status & Hp & Hreq & _ & _ & Hsk & _).
    + fold toolName. fold callSignature. rewrite Herr. discriminate.
    + exact Hnorm.
    + by exists locals', st'.
Qed.


End RetryAndSignature.

(** The theorem of C6 at the scenario of the spec with an unreachable tool
    host: the first request has left status error, the second request is
    sent again. *)
Lemma failed_call_is_retried_witness :
  executedToolCalls failed_once_state
    !! buildToolCallSignature (VString "bookFlight") (call_args bookFlight_call) = Some error /\
  exists locals' st',
    process_call sample_host gateway_down [bookFlight_tool] bookFlight_call
      (TurnLocals [] 0 0) failed_once_state = Ok locals' st' /\
    requests st' =
      requests failed_once_state
      ++ [ExecuteTool (VString "bookFlight") (call_args bookFlight_call)] /\
    skippedDuplicatesThisTurn locals' = 0%nat.
Proof.
  split; [vm_compute; reflexivity|].
  pose proof (failed_call_is_retried sample_host nat gateway_down [bookFlight_tool]
                bookFlight_call (TurnLocals [] 0 0) failed_once_state
                (call_args bookFlight_call) (heap failed_once_state) eq_refl) as [_ H].
  eapply H.
  - vm_compute. reflexivity.
  - vm_compute. reflexivity.
Defined.


(** ** The loop guard (C8) *)

Section LoopGuard.

Variable host : Host.
Variable World : Type.
Variable adapter : World -> list message -> list tool -> ai_response * World.
Variable gateway : World -> jsvalue -> jsvalue -> exec_response * World.
Variable tools : list tool.

Implicit Types (st : loop_state World) (locals : turn_locals) (call : function_call).



























End LoopGuard.


(** ** Bounded turns (C7) *)

Section BoundedTurns.

Variable host : Host.
Variable World : Type.
Variable adapter : World -> list message -> list tool -> ai_response * World.
Variable gateway : World -> jsvalue -> jsvalue -> exec_response * World.
Variable tools : list tool.

Implicit Types (st : loop_state World) (locals : turn_locals) (call : function_call).

Lemma turns_of_app rs rs' : turns_of (rs ++ rs') = (turns_of rs + turns_of rs')%nat.
Proof. unfold turns_of. by rewrite List.filter_app, length_app. Qed.

(** A computation that finishes and sends at most [k] requests to the
    adapter. *)
Definition spends {A} (k : nat) (c : comp (loop_state World) A) : Prop :=
  forall st,
    match c st with
    | Ok _ st' | Throw _ st' =>
      exists new, requests st' = requests st ++ new /\ (turns_of new <= k)%nat
    | OutOfFuel => False
    end.

Lemma spends_bind {A B} j k (c : comp (loop_state World) A) (f : A -> comp (loop_state World) B) :
  spends j c -> (forall x, spends k (f x)) -> spends (j + k) (bind c f).
Proof.
  intros Hc Hf st. specialize (Hc st). unfold bind.
  destruct (c st) as [x st1|msg st1|]; [| |done].
  - destruct Hc as (new1 & Hr1 & Hn1). specialize (Hf x st1).
    destruct (f x st1) as [y st2|msg st2|]; [| |done];
      destruct Hf as (new2 & Hr2 & Hn2); exists (new1 ++ new2);
      rewrite Hr2, Hr1, app_assoc, turns_of_app; (split; [done|lia]).
  - destruct Hc as (new1 & Hr1 & Hn1). exists new1. split; [done|lia].
Qed.

Lemma spends_try_catch {A} (c : comp (loop_state World) A) h :
  spends 0 c -> (forall msg, spends 0 (h msg)) -> spends 0 (try_catch c h).
Proof.
  intros Hc Hh st. specialize (Hc st). unfold try_catch.
  destruct (c st) as [x st1|msg st1|]; [done| |done].
  destruct Hc as (new1 & Hr1 & Hn1). specialize (Hh msg st1).
  destruct (h msg st1) as [y st2|msg2 st2|]; [| |done];
    destruct Hh as (new2 & Hr2 & Hn2); exists (new1 ++ new2);
    rewrite Hr2, Hr1, app_assoc, turns_of_app; (split; [done|lia]).
Qed.

Lemma spends_quiet {A} (c : comp (loop_state World) A) :
  (forall st, match c st with
              | Ok _ st' | Throw _ st' => requests st' = requests st
              | OutOfFuel => False
              end) ->
  spends 0 c.
Proof.
  intros Hc st. specialize (Hc st).
  destruct (c st) as [x st1|msg st1|]; [| |done]; exists []; by rewrite app_nil_r.
Qed.

Lemma spends_ret {A} (x : A) : spends 0 (ret x).
Proof. by apply spends_quiet. Qed.

Lemma spends_throw {A} msg : spends 0 (@throw _ A msg).
Proof. by apply spends_quiet. Qed.

Lemma spends_modify f :
  (forall st, requests (f st) = requests st) -> spends 0 (modify f).
Proof. intros Hf. apply spends_quiet. intros st. apply Hf. Qed.

Lemma spends_send_to_gateway name inputArgs :
  spends 0 (send_to_gateway gateway name inputArgs).
Proof.
  intros st. unfold send_to_gateway.
  destruct (gateway (world st) name inputArgs) as [[msg|resp] w];
    simpl; by eexists.
Qed.

Lemma spends_send_to_adapter : spends 1 (send_to_adapter adapter tools).
Proof.
  intros st. unfold send_to_adapter.
  destruct (adapter (world st) (aiMessages st) _) as [response w]. simpl. by eexists.
Qed.

Lemma spends_normalize_call_arguments toolName args :
  spends 0 (normalize_call_arguments host tools toolName args).
Proof.
  apply spends_quiet. intros st.
  pose proof (normalize_call_arguments_frame host World tools toolName args st) as H.
  destruct (normalize_call_arguments host tools toolName args st); [| |done]; apply H.
Qed.

Lemma spends_execute_call toolName args sig locals :
  spends 0 (execute_call host gateway toolName args sig locals).
Proof.
  unfold execute_call. apply spends_try_catch.
  - apply (spends_bind 0 0); [apply spends_send_to_gateway|]. intros resp.
    destruct (truthy _); [apply spends_throw|].
    apply (spends_bind 0 0); [by apply spends_modify|]. intros _.
    apply (spends_bind 0 0); [by apply spends_modify|]. intros _. apply spends_ret.
  - intros msg.
    apply (spends_bind 0 0); [by apply spends_modify|]. intros _.
    apply (spends_bind 0 0); [by apply spends_modify|]. intros _. apply spends_ret.
Qed.

Lemma spends_process_call call locals :
  spends 0 (process_call host gateway tools call locals).
Proof.
  unfold process_call.
  apply (spends_bind 0 0).
  { apply spends_quiet. intros st.
    pose proof (on_heap_frame World (call_arguments call) st) as H.
    destruct (call_arguments_total call (heap st)) as (args & a' & Ha).
    unfold on_heap in *. rewrite Ha in *. apply H. }
  intros args. apply (spends_bind 0 0); [by apply spends_quiet|]. intros st0.
  destruct (executedToolCalls st0 !! _) as [[|]|].
  - apply (spends_bind 0 0); [by apply spends_modify|]. intros _. apply spends_ret.
  - apply (spends_bind 0 0); [apply spends_normalize_call_arguments|]. intros args'.
    apply (spends_bind 0 0); [by apply spends_modify|]. intros _. apply spends_execute_call.
  - apply (spends_bind 0 0); [apply spends_normalize_call_arguments|]. intros args'.
    apply (spends_bind 0 0); [by apply spends_modify|]. intros _. apply spends_execute_call.
Qed.

Lemma spends_process_calls calls locals :
  spends 0 (process_calls host gateway tools calls locals).
Proof.
  revert locals. induction calls as [|call rest IH]; intros locals; simpl.
  - apply spends_ret.
  - apply (spends_bind 0 0); [apply spends_process_call|]. intros locals'. apply IH.
Qed.

Lemma spends_finish_turn locals : spends 0 (finish_turn host (World:=World) locals).
Proof.
  unfold finish_turn. destruct (_ && _).
  - apply (spends_bind 0 0); [by apply spends_modify|]. intros _.
    apply (spends_bind 0 0); [by apply spends_modify|]. intros _.
    apply (spends_bind 0 0); [by apply spends_modify|]. intros _.
    apply (spends_bind 0 0); [by apply spends_modify|]. intros _. apply spends_ret.
  - apply (spends_bind 0 0); [by apply spends_modify|]. intros _.
    apply (spends_bind 0 0); [by apply spends_modify|]. intros _. apply spends_ret.
Qed.

Lemma spends_run_turn : spends 1 (run_turn host adapter gateway tools).
Proof.
  unfold run_turn.
  apply (spends_bind 1 0); [apply spends_send_to_adapter|]. intros response.
  apply (spends_bind 0 0).
  { destruct (response_error response) as [failure|]; [|apply spends_ret].
    destruct (negb _); [apply spends_throw|apply spends_ret]. }
  intros _. apply (spends_bind 0 0).
  { destruct (negb _); [|apply spends_ret].
    apply (spends_bind 0 0); [by apply spends_modify|]. intros _.
    apply (spends_bind 0 0); [by apply spends_modify|]. intros _. by apply spends_modify. }
  intros _. destruct (default [] (response_functionCalls response)) as [|call calls];
    [apply spends_ret|].
  apply (spends_bind 0 0); [apply spends_process_calls|]. intros locals.
  apply spends_finish_turn.
Qed.

Lemma spends_run_turns n : spends n (run_turns host adapter gateway tools n).
Proof.
  induction n as [|n IH]; simpl.
  - by apply spends_modify.
  - apply (spends_bind 1 n); [apply spends_run_turn|].
    intros [|]; [|apply IH].
    intros st. simpl. exists []. rewrite app_nil_r. split; [done|].
    unfold turns_of. simpl. lia.
Qed.

(** Every invocation of the loop finishes after at most [maxTurns] requests
    to the adapter, whether it returns or throws. *)
Lemma runAIAgentLoop_bounded st :
  match runAIAgentLoop host adapter gateway tools st with
  | Ok _ st' | Throw _ st' =>
    exists new, requests st' = requests st ++ new /\ (turns_of new <= maxTurns)%nat
  | OutOfFuel => False
  end.
Proof.
  unfold runAIAgentLoop.
  apply (spends_bind 0 maxTurns); [by apply spends_modify|].
  intros _. apply spends_run_turns.
Qed.

(** A computation that returns, with a result in [Q], after exactly [k]
    requests to the adapter. *)
Definition returns_after {A} (k : nat) (Q : A -> Prop) (c : comp (loop_state World) A) : Prop :=
  forall st, exists x st',
    c st = Ok x st' /\ Q x /\
    exists new, requests st' = requests st ++ new /\ turns_of new = k.




Lemma returns_weaken {A} k (P Q : A -> Prop) (c : comp (loop_state World) A) :
  (forall x, P x -> Q x) -> returns_after k P c -> returns_after k Q c.
Proof.
  intros HPQ Hc st. destruct (Hc st) as (x & st' & Hx & HP & Hnew).
  exists x, st'. auto.
Qed.

Section NormalizationReturns.

(** The normalization of the arguments of a requested call never throws. *)
Hypothesis normalization_returns :
  forall toolName args st,
    exists args' st', normalize_call_arguments host tools toolName args st = Ok args' st'.




(** The adapter never fails and always asks for at least one call. *)
Hypothesis adapter_always_calls :
  forall w messages catalog,
    let response := fst (adapter w messages catalog) in
    (response_error response = None \/ response_error response = Some "") /\
    exists call calls, response_functionCalls response = Some (call :: calls).





End NormalizationReturns.

End BoundedTurns.

(** C7 at a failing input. The adapter asks on every turn for one call of
    the tool [note], each time with a new argument; the schema of [note]
    gives its string [s] the default [null] and a [minLength]. Normalizing
    the first requested arguments reads [null.length]: the loop throws a
    TypeError during its first turn, before any request to the gateway, and
    the notice about max turns is never written. With the empty catalog the
    same adapter makes the loop return after [maxTurns] turns. *)
Theorem bounded_turns_failing_input :
  (forall w messages catalog,
     response_error (fst (adapter_counting w messages catalog)) = None /\
     response_functionCalls (fst (adapter_counting w messages catalog)) =
       Some [FunctionCall (VString "note") (VObject 9%nat [("s", num (Z.of_nat w))])]) /\
  match runAIAgentLoop sample_host adapter_counting gateway_ok [note_tool] (initial_state 0) with
  | Throw message st' =>
    message = "TypeError" /\
    turns_of (requests st') = 1%nat /\
    List.length (requests st') = 1%nat /\
    chatTranscript st' = []
  | _ => False
  end /\
  match runAIAgentLoop sample_host adapter_counting gateway_ok [] (initial_state 0) with
  | Ok _ st' =>
    turns_of (requests st') = maxTurns /\
    list.last (chatTranscript st') =
      Some ("system", "Stopped after max AI turns to avoid loops.")
  | _ => False
  end.
Proof.
  split; [by intros w messages catalog|].
  split; vm_compute; repeat split; reflexivity.
Qed.

(** ** Own properties: reading after writing *)








(** ** Template conformance *)


Section TemplateConformance.

Variable host : Host.








End TemplateConformance.




(** ** Idempotent normalization *)

Lemma same_value_zero_refl v : primitive v = true -> same_value_zero v v = true.
Proof.
  destruct v as [| | b | x | s | |]; try done; intros _; simpl.
  - by destruct b.
  - destruct x as [s|s| |s m e]; try done; try by destruct s.
    by apply JSNumberFacts.eqb_refl_finite.
  - apply String.eqb_refl.
Qed.

Lemma deep_equal_refl v : deep_equal v v.
Proof.
  induction v as [| | b | x | s | l items IH | l fs IH] using jsvalue_ind;
    try (apply deep_primitive; [done|by apply same_value_zero_refl]).
  - apply deep_array. induction IH; by constructor.
  - apply deep_object; [done|].
    intros k v w Hv Hw. rewrite Hv in Hw. injection Hw as <-.
    apply lookup_field_In in Hv. rewrite Forall_forall in IH. exact (IH _ Hv).
Qed.


Section IdempotentNormalization.

Variable host : Host.







End IdempotentNormalization.



(** ** Strings, character by character *)

Module StringFacts.

Lemma app_nil_l (s : string) : "" +:+ s = s.
Proof. reflexivity. Qed.

Lemma app_cons (c : ascii) (s t : string) : String c s +:+ t = String c (s +:+ t).
Proof. reflexivity. Qed.

Lemma app_assoc (s t u : string) : (s +:+ t) +:+ u = s +:+ (t +:+ u).
Proof. induction s as [|c s IH]; [done|]. by rewrite !app_cons, IH. Qed.

Lemma app_nil_r (s : string) : s +:+ "" = s.
Proof. induction s as [|c s IH]; [done|]. by rewrite app_cons, IH. Qed.

Lemma app_inv_head (s t u : string) : s +:+ t = s +:+ u -> t = u.
Proof.
  induction s as [|c s IH]; [done|]. rewrite !app_cons. intros [= H]. by apply IH.
Qed.

Lemma all_chars_app P s t : all_chars P (s +:+ t) = all_chars P s && all_chars P t.
Proof.
  induction s as [|c s IH]; [done|]. rewrite app_cons. simpl. by rewrite IH, andb_assoc.
Qed.

Lemma all_chars_take P n s : all_chars P s = true -> all_chars P (JSString.take n s) = true.
Proof.
  revert s. induction n as [|n IH]; intros [|c s]; simpl; try done.
  intros H. apply andb_prop in H as [-> H]. by apply IH.
Qed.

Lemma all_chars_substring P n m s :
  all_chars P s = true -> all_chars P (String.substring n m s) = true.
Proof.
  revert n m. induction s as [|c s IH]; intros [|n] [|m]; simpl; try done.
  - intros H. apply andb_prop in H as [-> H]. simpl. by apply (IH 0%nat m).
  - intros H. apply andb_prop in H as [_ H]. by apply (IH n 0%nat).
  - intros H. apply andb_prop in H as [_ H]. by apply (IH n (S m)).
Qed.

Lemma all_chars_repeat P s n :
  all_chars P s = true -> all_chars P (JSString.repeat s n) = true.
Proof.
  intros H. induction n as [|n IH]; [done|].
  change (JSString.repeat s (S n)) with (s +:+ JSString.repeat s n).
  by rewrite all_chars_app, H, IH.
Qed.

Lemma all_chars_weaken (P Q : ascii -> bool) s :
  (forall c, P c = true -> Q c = true) -> all_chars P s = true -> all_chars Q s = true.
Proof.
  intros HPQ. induction s as [|c s IH]; simpl; [done|].
  intros H. apply andb_prop in H as [Hc H]. by rewrite (HPQ _ Hc), IH.
Qed.

Lemma digit_char_is_digit d : 0 <= d < 10 -> JSString.is_digit (JSString.digit_char d) = true.
Proof.
  intros H.
  assert (d = 0 \/ d = 1 \/ d = 2 \/ d = 3 \/ d = 4 \/ d = 5 \/ d = 6 \/ d = 7 \/ d = 8 \/ d = 9)
    as Hd by lia.
  repeat (destruct Hd as [->|Hd]; [reflexivity|]). by subst.
Qed.

Lemma decimal_go_digits fuel z acc :
  all_chars JSString.is_digit acc = true ->
  all_chars JSString.is_digit (JSString.decimal_go fuel z acc) = true.
Proof.
  revert z acc. induction fuel as [|fuel IH]; intros z acc Hacc; simpl; [done|].
  assert (Hd : JSString.is_digit (JSString.digit_char (z mod 10)) = true).
  { apply digit_char_is_digit. apply Z.mod_pos_bound. lia. }
  destruct (z <? 10); [simpl; by rewrite Hd|].
  apply IH. simpl. by rewrite Hd.
Qed.

Lemma decimal_digits z : all_chars JSString.is_digit (JSString.decimal z) = true.
Proof. by apply decimal_go_digits. Qed.

End StringFacts.

(** ** Number tokens *)

Module TokenFacts.
Import StringFacts.

Lemma digit_is_atom c : JSString.is_digit c = true -> atom_char c = true.
Proof. unfold atom_char. by intros ->. Qed.

Lemma digits_atom s : all_chars JSString.is_digit s = true -> all_chars atom_char s = true.
Proof. apply all_chars_weaken, digit_is_atom. Qed.

Lemma decimal_atom z : all_chars atom_char (JSString.decimal z) = true.
Proof. apply digits_atom, decimal_digits. Qed.

Lemma zeros_atom n : all_chars atom_char (JSNumber.zeros n) = true.
Proof. by apply all_chars_repeat. Qed.

Lemma format_digits_atom s n k : all_chars atom_char (JSNumber.format_digits s n k) = true.
Proof.
  unfold JSNumber.format_digits.
  pose proof (decimal_atom s) as Hs.
  pose proof (fun m => decimal_atom (Z.abs m)) as He.
  repeat match goal with
         | |- context [if ?b then _ else _] => destruct b
         end;
    rewrite ?all_chars_app, ?Hs, ?He, ?zeros_atom, ?all_chars_take, ?all_chars_substring;
    done.
Qed.

(** The text of a Number has token code units only. *)
Lemma toString_atom x : all_chars atom_char (JSNumber.toString x) = true.
Proof.
  destruct x as [s|s| |sign m e]; simpl; try done; try by destruct s.
  destruct (JSNumber.shortest m e) as [[s n] k].
  rewrite all_chars_app, format_digits_atom. by destruct sign.
Qed.

Lemma printable_nonempty x : printable x = true -> JSNumber.toString x <> "".
Proof.
  destruct x as [s|s| |sign m e]; try done; try by destruct s.
  unfold printable. intros H E. rewrite E in H. by destruct sign.
Qed.

(** Two readable Numbers with the same text are the same Number, or two
    zeros. *)
Lemma printable_inj x y :
  printable x = true -> printable y = true ->
  JSNumber.toString x = JSNumber.toString y ->
  same_value_zero (VNumber x) (VNumber y) = true.
Proof.
  intros Hx Hy E.
  assert (Hnan : forall z, printable z = true -> JSNumber.toString z = "NaN" -> z = S754_nan).
  { intros z Hz Ez. destruct z as [s|s| |sign m e]; try done; try by destruct s.
    unfold printable in Hz. rewrite Ez in Hz. by destruct sign. }
  assert (Hread : forall z, printable z = true ->
            z = S754_nan \/
            JSNumber.eqb (JSNumber.ofString (JSNumber.toString z)) z = true).
  { intros [s|s| |sign m e] Hz; auto. }
  destruct (Hread x Hx) as [->|Hx']; [symmetry in E; by rewrite (Hnan _ Hy E)|].
  destruct (Hread y Hy) as [->|Hy']; [by rewrite (Hnan _ Hx E)|].
  rewrite E in Hx'.
  assert (Heq : JSNumber.eqb x y = true).
  { unfold JSNumber.eqb, SFeqb in *.
    by rewrite <- (JSNumberFacts.eqb_compare_l _ _ _ Hx'). }
  destruct x as [s|s| |sign m e], y as [s'|s'| |sign' m' e']; done.
Qed.

(** No readable Number prints as [null], [true] or [false]. *)
Lemma printable_not_literal x t :
  printable x = true -> JSNumber.toString x = t ->
  t = "null" \/ t = "true" \/ t = "false" -> False.
Proof.
  intros Hx E Ht.
  destruct x as [s|s| |sign m e].
  - simpl in E. subst t. by destruct Ht as [|[|]].
  - simpl in E. subst t. by destruct s, Ht as [|[|]].
  - simpl in E. subst t. by destruct Ht as [|[|]].
  - unfold printable in Hx. rewrite E in Hx.
    destruct Ht as [-> | [-> | ->]]; by destruct sign.
Qed.

(** A token ends where the text that follows it says so. *)
Lemma munch u u' r r' :
  all_chars atom_char u = true -> all_chars atom_char u' = true ->
  closes r = true -> closes r' = true ->
  u +:+ r = u' +:+ r' -> u = u' /\ r = r'.
Proof.
  revert u'. induction u as [|c u IH]; intros [|c' u'] Hu Hu' Hr Hr' E.
  - by rewrite !app_nil_l in E.
  - rewrite app_nil_l, app_cons in E. subst r. simpl in Hr, Hu'.
    apply andb_prop in Hu' as [Hc _]. by rewrite Hc in Hr.
  - rewrite app_nil_l, app_cons in E. subst r'. simpl in Hr', Hu.
    apply andb_prop in Hu as [Hc _]. by rewrite Hc in Hr'.
  - rewrite !app_cons in E. injection E as -> E. simpl in Hu, Hu'.
    apply andb_prop in Hu as [_ Hu]. apply andb_prop in Hu' as [_ Hu'].
    destruct (IH u' Hu Hu' Hr Hr' E) as [-> ->]. done.
Qed.

End TokenFacts.

(** ** String literals *)

Module QuoteFacts.
Import StringFacts.

(** Reading a string literal gives back the String that was quoted, and
    what follows the literal. *)
Lemma parse_quote_body s r :
  JSON.parse_string_body (JSON.quote_body s +:+ String JSON.dquote r) = Some (s, r).
Proof.
  induction s as [|c s IH]; [reflexivity|].
  change (JSON.quote_body (String c s)) with (JSON.quote_char c +:+ JSON.quote_body s).
  rewrite app_assoc.
  destruct c as [[] [] [] [] [] [] [] []];
    match goal with
    | |- context [JSON.quote_char ?c] =>
      let t := eval vm_compute in (JSON.quote_char c) in
      change (JSON.quote_char c) with t
    end;
    rewrite ?app_cons, ?app_nil_l; simpl; by rewrite IH.
Qed.

Lemma quote_app s r :
  JSON.quote s +:+ r = String JSON.dquote (JSON.quote_body s +:+ String JSON.dquote r).
Proof. unfold JSON.quote. by rewrite app_cons, app_assoc, app_cons, app_nil_l. Qed.

Lemma quote_prefix_free s s' r r' :
  JSON.quote s +:+ r = JSON.quote s' +:+ r' -> s = s' /\ r = r'.
Proof.
  rewrite !quote_app. intros [= E].
  pose proof (parse_quote_body s r) as H. rewrite E, parse_quote_body in H.
  by injection H as -> ->.
Qed.

End QuoteFacts.

(** ** Sorting by key *)

Module OrderFacts.

Lemma compare_not_gt_trans s1 s2 s3 :
  String.compare s1 s2 <> Gt -> String.compare s2 s3 <> Gt -> String.compare s1 s3 <> Gt.
Proof.
  revert s2 s3. induction s1 as [|c1 s1 IH]; intros [|c2 s2] [|c3 s3]; simpl; try done.
  unfold Ascii.compare.
  destruct (N.compare_spec (N_of_ascii c1) (N_of_ascii c2)) as [E12|L12|G12];
    destruct (N.compare_spec (N_of_ascii c2) (N_of_ascii c3)) as [E23|L23|G23];
    destruct (N.compare_spec (N_of_ascii c1) (N_of_ascii c3)) as [E13|L13|G13];
    try done; try lia.
  apply IH.
Qed.

Lemma leb_not_gt s1 s2 : String.leb s1 s2 = true <-> String.compare s1 s2 <> Gt.
Proof. unfold String.leb. by destruct (String.compare s1 s2). Qed.

#[export] Instance le_trans : Transitive le.
Proof.
  intros s1 s2 s3. unfold le. rewrite !leb_not_gt. apply compare_not_gt_trans.
Qed.

#[export] Instance le_antisym : AntiSymm eq le.
Proof. intros s1 s2. apply String.leb_antisym. Qed.

Section Keyed.

Context {V : Type}.
Implicit Types (kv : string * V) (l : list (string * V)).

Lemma insert_keyed_Permutation kv l : Permutation (insert_keyed kv l) (kv :: l).
Proof.
  induction l as [|kv' l IH]; simpl; [done|].
  destruct (String.leb (fst kv) (fst kv')); [done|].
  rewrite IH. apply perm_swap.
Qed.

Lemma sort_keyed_Permutation l : Permutation (sort_keyed l) l.
Proof.
  induction l as [|kv l IH]; simpl; [done|].
  rewrite insert_keyed_Permutation. by constructor.
Qed.

Lemma insert_keyed_Sorted kv l :
  Sorted le (List.map fst l) -> Sorted le (List.map fst (insert_keyed kv l)).
Proof.
  induction l as [|kv' l IH]; simpl; intros Hs.
  - by repeat constructor.
  - destruct (String.leb (fst kv) (fst kv')) eqn:E; simpl.
    + constructor; [done|]. by constructor.
    + apply Sorted_inv in Hs as [Hs Hhd]. constructor; [by apply IH|].
      assert (Hle : le (fst kv') (fst kv)).
      { destruct (String.leb_total (fst kv) (fst kv')) as [H|H]; [congruence|done]. }
      destruct l as [|kv'' l]; simpl; [by constructor|].
      destruct (String.leb (fst kv) (fst kv'')); simpl; constructor; [done|].
      by apply HdRel_inv in Hhd.
Qed.

Lemma sort_keyed_Sorted l : Sorted le (List.map fst (sort_keyed l)).
Proof.
  induction l as [|kv l IH]; simpl; [constructor|]. by apply insert_keyed_Sorted.
Qed.

End Keyed.

Lemma insert_keyed_map {V W} (f : V -> W) kv l :
  insert_keyed (fst kv, f (snd kv)) (List.map (fun kv => (fst kv, f (snd kv))) l)
  = List.map (fun kv => (fst kv, f (snd kv))) (insert_keyed kv l).
Proof.
  induction l as [|kv' l IH]; simpl; [done|].
  destruct (String.leb (fst kv) (fst kv')); simpl; [done|]. by rewrite IH.
Qed.

Lemma sort_keyed_map {V W} (f : V -> W) l :
  sort_keyed (List.map (fun kv => (fst kv, f (snd kv))) l)
  = List.map (fun kv => (fst kv, f (snd kv))) (sort_keyed l).
Proof.
  induction l as [|kv l IH]; simpl; [done|].
  rewrite IH. apply insert_keyed_map.
Qed.

Lemma sort_by_key_keyed l : sort_by_key l = sort_keyed l.
Proof.
  assert (Hins : forall kr l', insert_by_key kr l' = insert_keyed kr l').
  { intros kr l'. induction l' as [|kr' l' IH]; simpl; [done|]. by rewrite IH. }
  unfold sort_by_key, sort_keyed.
  induction l as [|kr l IH]; simpl; [done|]. by rewrite IH, Hins.
Qed.

(** Two lists of members with names that differ and the same set of names
    have, once sorted, their names in the same order. *)
Lemma sorted_keys_unique {V W} (l1 : list (string * V)) (l2 : list (string * W)) :
  NoDup (List.map fst l1) -> NoDup (List.map fst l2) ->
  (forall k, In k (List.map fst l1) <-> In k (List.map fst l2)) ->
  List.map fst (sort_keyed l1) = List.map fst (sort_keyed l2).
Proof.
  intros H1 H2 Hsame.
  apply (Sorted_unique le); try apply sort_keyed_Sorted.
  rewrite !sort_keyed_Permutation. by apply NoDup_Permutation.
Qed.

End OrderFacts.

(** ** Call signatures *)

Module SignatureFacts.
Import StringFacts TokenFacts QuoteFacts OrderFacts.

Ltac norm_app := rewrite ?app_cons, ?app_nil_l in *.

Lemma distinct_NoDup names : distinct names = true -> NoDup names.
Proof.
  induction names as [|k ks IH]; simpl; intros H; constructor.
  - apply andb_prop in H as [H _]. apply negb_true_iff in H.
    intros Hin. apply not_true_iff_false in H. apply H.
    apply existsb_exists. exists k. split; [done|apply String.eqb_refl].
  - apply andb_prop in H as [_ H]. by apply IH.
Qed.

Lemma lookup_field_is_Some k (fs : fields) :
  is_Some (lookup_field k fs) <-> In k (List.map fst fs).
Proof.
  induction fs as [|[k' v] fs IH]; simpl.
  - split; [by intros [x Hx]|done].
  - destruct (String.eqb k' k) eqn:E.
    + apply String.eqb_eq in E. split; [by left|by eexists].
    + apply String.eqb_neq in E. rewrite IH. split; [by right|by intros [|]].
Qed.

Lemma In_lookup_field k v (fs : fields) :
  NoDup (List.map fst fs) -> In (k, v) fs -> lookup_field k fs = Some v.
Proof.
  induction fs as [|[k' v'] fs IH]; simpl; [done|].
  intros Hnodup Hin. apply NoDup_cons_iff in Hnodup as [Hfresh Hnodup].
  destruct Hin as [[= -> ->]|Hin]; [by rewrite String.eqb_refl|].
  destruct (String.eqb k' k) eqn:E; [|by apply IH].
  apply String.eqb_eq in E. subst k'. exfalso. apply Hfresh.
  apply in_map_iff. by exists (k, v).
Qed.

(** *** The text of a value, case by case *)

Lemma join_cons sep t ts close :
  JSString.join sep (t :: ts) +:+ close
  = t +:+ match ts with
          | [] => close
          | _ => sep +:+ (JSString.join sep ts +:+ close)
          end.
Proof. destruct ts as [|t' ts]; [done|]. simpl JSString.join. by rewrite !app_assoc. Qed.

Lemma stableStringify_array l items seen r :
  stableStringify (VArray l items) seen +:+ r
  = String "[" (JSString.join "," (List.map (fun item => stableStringify item seen) items)
                +:+ String "]" r).
Proof. simpl stableStringify. by rewrite ?app_assoc, ?app_cons, ?app_nil_l. Qed.

Lemma stableStringify_object l fs seen r :
  existsb (Nat.eqb l) seen = false ->
  stableStringify (VObject l fs) seen +:+ r
  = String "{" (JSString.join "," (List.map (member (l :: seen)) (sort_keyed fs))
                +:+ String "}" r).
Proof.
  intros Hseen. simpl stableStringify. rewrite Hseen.
  rewrite sort_by_key_keyed.
  rewrite (sort_keyed_map (fun v => stableStringify v (l :: seen))).
  rewrite List.map_map. by rewrite ?app_assoc, ?app_cons, ?app_nil_l.
Qed.

Lemma member_app seen kv r :
  member seen kv +:+ r
  = JSON.quote (fst kv) +:+ String ":" (stableStringify (snd kv) seen +:+ r).
Proof. unfold member. by rewrite ?app_assoc, ?app_cons, ?app_nil_l. Qed.

Lemma json_like_object l fs seen :
  json_like seen (VObject l fs) = true ->
  existsb (Nat.eqb l) seen = false /\ NoDup (List.map fst fs) /\
  forall kv, In kv fs -> json_like (l :: seen) (snd kv) = true.
Proof.
  simpl. intros H. apply andb_prop in H as [H Hall]. apply andb_prop in H as [Hseen Hd].
  apply negb_true_iff in Hseen. split; [done|]. split; [by apply distinct_NoDup|].
  by rewrite forallb_forall in Hall.
Qed.

Lemma json_like_array l items seen :
  json_like seen (VArray l items) = true ->
  forall item, In item items -> json_like seen item = true.
Proof. simpl. by rewrite forallb_forall. Qed.

(** The text of [null], of a Boolean and of a Number is a token. *)
Lemma atom_text v seen :
  atomic v = true -> json_like seen v = true ->
  all_chars atom_char (stableStringify v seen) = true /\
  exists c s, stableStringify v seen = String c s.
Proof.
  destruct v as [| |b|x| | |]; try done; intros _ Hv; simpl.
  - split; [done|by eexists _, _].
  - destruct b; (split; [done|by eexists _, _]).
  - split; [apply toString_atom|].
    pose proof (printable_nonempty x Hv) as Hne.
    destruct (JSNumber.toString x) as [|c s]; [done|by eexists _, _].
Qed.

(** The text of a String, an array or an object starts with its opening
    quote, bracket or brace. *)
Lemma structured_text v seen :
  atomic v = false -> json_like seen v = true ->
  exists c s, stableStringify v seen = String c s /\
              (JSString.code c = 34 \/ JSString.code c = 91 \/ JSString.code c = 123).
Proof.
  destruct v as [| | | |s|l items|l fs]; try done; intros _ Hv.
  - eexists _, _. split; [reflexivity|by left].
  - pose proof (stableStringify_array l items seen "") as E. rewrite app_nil_r in E.
    eexists _, _. split; [exact E|by right; left].
  - apply json_like_object in Hv as (Hseen & _).
    pose proof (stableStringify_object l fs seen "" Hseen) as E. rewrite app_nil_r in E.
    eexists _, _. split; [exact E|by right; right].
Qed.

Lemma atom_char_opening c :
  JSString.code c = 34 \/ JSString.code c = 91 \/ JSString.code c = 123 ->
  atom_char c = false.
Proof.
  unfold atom_char, JSString.is_digit. intros [-> | [-> | ->]]; reflexivity.
Qed.

(** The text of a value is not empty and does not start with a comma, a
    closing bracket or a closing brace. *)
Lemma text_head v seen :
  json_like seen v = true ->
  exists c s, stableStringify v seen = String c s /\
              JSString.code c <> 44 /\ JSString.code c <> 93 /\ JSString.code c <> 125.
Proof.
  intros Hv. destruct (atomic v) eqn:Ha.
  - destruct (atom_text v seen Ha Hv) as (Hall & c & s & E).
    exists c, s. split; [done|]. rewrite E in Hall. simpl in Hall.
    apply andb_prop in Hall as [Hc _].
    unfold atom_char, JSString.is_digit in Hc.
    repeat split; intros Hn; rewrite Hn in Hc; discriminate.
  - destruct (structured_text v seen Ha Hv) as (c & s & E & Hc).
    exists c, s. split; [done|]. lia.
Qed.

(** *** Equal texts, equal values *)

Lemma atom_structured_clash a b seen seen' r r' :
  atomic a = true -> atomic b = false ->
  json_like seen a = true -> json_like seen' b = true ->
  stableStringify a seen +:+ r = stableStringify b seen' +:+ r' -> False.
Proof.
  intros Ha Hb Hja Hjb E.
  destruct (atom_text a seen Ha Hja) as (Hta & c & s & Ea).
  destruct (structured_text b seen' Hb Hjb) as (c' & s' & Eb & Hc').
  rewrite Ea, Eb in E. norm_app. injection E as -> _.
  rewrite Ea in Hta. simpl in Hta. apply andb_prop in Hta as [Hc _].
  by rewrite (atom_char_opening _ Hc') in Hc.
Qed.

Lemma atoms_discriminate a : atomic a = true -> discriminates a.
Proof.
  intros Ha seen b seen' r r' Hja Hjb Hr Hr' E.
  destruct (atomic b) eqn:Hb.
  2: { exfalso. by eapply (atom_structured_clash a b). }
  destruct (atom_text a seen Ha Hja) as (Hta & _).
  destruct (atom_text b seen' Hb Hjb) as (Htb & _).
  destruct (munch _ _ _ _ Hta Htb Hr Hr' E) as [Et ->]. split; [|done].
  destruct a as [| |x|x| | |], b as [| |y|y| | |]; try done; simpl in Et.
  - by apply deep_primitive.
  - by destruct y.
  - exfalso. symmetry in Et. eapply (printable_not_literal y); eauto.
  - by destruct x.
  - apply deep_primitive; [done|]. by destruct x, y.
  - exfalso. symmetry in Et. eapply (printable_not_literal y); [done|exact Et|].
    destruct x; auto.
  - exfalso. eapply (printable_not_literal x); eauto.
  - exfalso. eapply (printable_not_literal x); [done|exact Et|]. destruct y; auto.
  - apply deep_primitive; [done|]. by apply printable_inj.
Qed.

Lemma items_discriminate seen seen' xs :
  (forall x, In x xs -> discriminates x) ->
  forall ys r r',
    (forall x, In x xs -> json_like seen x = true) ->
    (forall y, In y ys -> json_like seen' y = true) ->
    JSString.join "," (List.map (fun x => stableStringify x seen) xs) +:+ String "]" r
    = JSString.join "," (List.map (fun y => stableStringify y seen') ys) +:+ String "]" r' ->
    Forall2 deep_equal xs ys /\ r = r'.
Proof.
  induction xs as [|x xs IH]; intros HP [|y ys] r r' Hxs Hys E.
  - simpl in E. norm_app. by injection E as ->.
  - exfalso. simpl List.map in E. rewrite join_cons in E. simpl JSString.join in E.
    destruct (text_head y seen' (Hys y (or_introl eq_refl))) as (c & s & Ey & _ & Hc & _).
    rewrite Ey in E. norm_app. injection E as <- _. by apply Hc.
  - exfalso. simpl List.map in E. rewrite join_cons in E. simpl JSString.join in E.
    destruct (text_head x seen (Hxs x (or_introl eq_refl))) as (c & s & Ex & _ & Hc & _).
    rewrite Ex in E. norm_app. injection E as -> _. by apply Hc.
  - simpl List.map in E. rewrite !join_cons in E.
    match type of E with
    | _ +:+ ?tx = _ +:+ ?ty =>
      assert (Hcx : closes tx = true) by (by destruct xs);
      assert (Hcy : closes ty = true) by (by destruct ys);
      destruct (HP x (or_introl eq_refl) seen y seen' tx ty
                  (Hxs x (or_introl eq_refl)) (Hys y (or_introl eq_refl)) Hcx Hcy E)
        as [Hxy Etail]; clear Hcx Hcy
    end.
    destruct xs as [|x' xs], ys as [|y' ys]; simpl List.map in Etail.
    + injection Etail as ->. split; [|done]. constructor; [done|constructor].
    + discriminate Etail.
    + discriminate Etail.
    + norm_app. injection Etail as Etail.
      destruct (IH (fun z Hz => HP z (or_intror Hz)) (y' :: ys) r r'
                  (fun z Hz => Hxs z (or_intror Hz)) (fun z Hz => Hys z (or_intror Hz)) Etail)
        as [Hrest ->].
      split; [|done]. by constructor.
Qed.

Lemma members_discriminate seen seen' xs :
  (forall kv, In kv xs -> discriminates (snd kv)) ->
  forall (ys : fields) r r',
    (forall kv, In kv xs -> json_like seen (snd kv) = true) ->
    (forall kv, In kv ys -> json_like seen' (snd kv) = true) ->
    JSString.join "," (List.map (member seen) xs) +:+ String "}" r
    = JSString.join "," (List.map (member seen') ys) +:+ String "}" r' ->
    Forall2 (fun kv kw => fst kv = fst kw /\ deep_equal (snd kv) (snd kw)) xs ys /\ r = r'.
Proof.
  induction xs as [|x xs IH]; intros HP [|y ys] r r' Hxs Hys E.
  - simpl in E. norm_app. by injection E as ->.
  - exfalso. simpl List.map in E. rewrite join_cons, member_app, quote_app in E.
    simpl JSString.join in E. norm_app. discriminate E.
  - exfalso. simpl List.map in E. rewrite join_cons, member_app, quote_app in E.
    simpl JSString.join in E. norm_app. discriminate E.
  - simpl List.map in E. rewrite !join_cons, !member_app in E.
    apply quote_prefix_free in E as [Ekey E]. injection E as E.
    match type of E with
    | _ +:+ ?tx = _ +:+ ?ty =>
      assert (Hcx : closes tx = true) by (by destruct xs);
      assert (Hcy : closes ty = true) by (by destruct ys);
      destruct (HP x (or_introl eq_refl) seen (snd y) seen' tx ty
                  (Hxs x (or_introl eq_refl)) (Hys y (or_introl eq_refl)) Hcx Hcy E)
        as [Hxy Etail]; clear Hcx Hcy
    end.
    destruct xs as [|x' xs], ys as [|y' ys]; simpl List.map in Etail.
    + injection Etail as ->. split; [|done]. constructor; [by split|constructor].
    + discriminate Etail.
    + discriminate Etail.
    + norm_app. injection Etail as Etail.
      destruct (IH (fun z Hz => HP z (or_intror Hz)) (y' :: ys) r r'
                  (fun z Hz => Hxs z (or_intror Hz)) (fun z Hz => Hys z (or_intror Hz)) Etail)
        as [Hrest ->].
      split; [|done]. constructor; [by split|done].
Qed.

Lemma Forall2_keys {V W} (R : V -> W -> Prop) (l1 : list (string * V)) (l2 : list (string * W)) :
  Forall2 (fun kv kw => fst kv = fst kw /\ R (snd kv) (snd kw)) l1 l2 ->
  List.map fst l1 = List.map fst l2.
Proof. induction 1 as [|kv kw l1 l2 [Hk _] _ IH]; simpl; [done|]. by rewrite Hk, IH. Qed.

Lemma Forall2_paired {V W} (R : V -> W -> Prop) (l1 : list (string * V))
    (l2 : list (string * W)) k v w :
  Forall2 (fun kv kw => fst kv = fst kw /\ R (snd kv) (snd kw)) l1 l2 ->
  NoDup (List.map fst l1) -> In (k, v) l1 -> In (k, w) l2 -> R v w.
Proof.
  induction 1 as [|[k1 v1] [k2 w2] l1 l2 [Hk HR] Hrest IH]; simpl; [done|].
  simpl in Hk. subst k2. intros Hnodup Hv Hw.
  apply NoDup_cons_iff in Hnodup as [Hfresh Hnodup].
  pose proof (Forall2_keys R _ _ Hrest) as Hkeys.
  destruct Hv as [Hv|Hv], Hw as [Hw|Hw].
  - injection Hv as -> ->. by injection Hw as ->.
  - injection Hv as -> ->. exfalso. apply Hfresh. rewrite Hkeys.
    apply in_map_iff. by exists (k, w).
  - injection Hw as -> ->. exfalso. apply Hfresh. apply in_map_iff. by exists (k, v).
  - by apply IH.
Qed.

Lemma map_paired {V W} (g : string * V -> string) (h : string * W -> string)
    (l1 : list (string * V)) (l2 : list (string * W)) :
  List.map fst l1 = List.map fst l2 ->
  (forall k v w, In (k, v) l1 -> In (k, w) l2 -> g (k, v) = h (k, w)) ->
  List.map g l1 = List.map h l2.
Proof.
  revert l2. induction l1 as [|[k v] l1 IH]; intros [|[k' w] l2]; simpl; try done.
  intros [= <- Hkeys] Hgh. f_equal; [apply Hgh; by left|].
  apply IH; [done|]. intros k0 v0 w0 Hv Hw. apply Hgh; by right.
Qed.

(** The text of a value followed by the end of a token tells the value, up
    to the order of the properties. *)
Lemma stableStringify_discriminates a : discriminates a.
Proof.
  induction a as [| |c|x|s|l items IH|l fs IH] using jsvalue_ind;
    try (by apply atoms_discriminate);
    intros seen b seen' r r' Ha Hb Hr Hr' E; try discriminate Ha.
  - destruct (atomic b) eqn:Hab.
    { exfalso. symmetry in E. by eapply (atom_structured_clash b (VString s)). }
    destruct b as [| | | |s'|l' ys|l' gs]; try discriminate.
    + simpl in E. apply quote_prefix_free in E as [-> ->]. split; [|done].
      apply deep_equal_refl.
    + apply json_like_object in Hb as (Hseen & _).
      rewrite (stableStringify_object _ _ _ _ Hseen) in E. simpl in E.
      rewrite quote_app in E. discriminate E.
  - destruct (atomic b) eqn:Hab.
    { exfalso. symmetry in E. by eapply (atom_structured_clash b (VArray l items)). }
    destruct b as [| | | |s'|l' ys|l' gs]; try discriminate.
    + rewrite !stableStringify_array in E. injection E as E.
      apply items_discriminate in E as [Hitems ->].
      * split; [|done]. by apply deep_array.
      * intros x Hx. rewrite Forall_forall in IH. by apply IH.
      * exact (json_like_array _ _ _ Ha).
      * exact (json_like_array _ _ _ Hb).
    + apply json_like_object in Hb as (Hseen & _).
      rewrite stableStringify_array, (stableStringify_object _ _ _ _ Hseen) in E.
      discriminate E.
  - apply json_like_object in Ha as (Hseen & Hnodup & Hall).
    destruct (atomic b) eqn:Hab.
    { exfalso. symmetry in E. eapply (atom_structured_clash b (VObject l fs)); eauto.
      simpl. rewrite Hseen. simpl. apply andb_true_intro. split.
      - clear -Hnodup. induction fs as [|[k v] fs IHfs]; simpl; [done|].
        simpl in Hnodup. apply NoDup_cons_iff in Hnodup as [Hfresh Hnodup].
        rewrite IHfs by done. rewrite andb_true_r. apply negb_true_iff.
        apply not_true_iff_false. intros Hex. apply existsb_exists in Hex as (k' & Hin & Ek).
        apply String.eqb_eq in Ek. by subst.
      - by apply forallb_forall. }
    destruct b as [| | | |s'|l' ys|l' gs]; try discriminate.
    + rewrite (stableStringify_object _ _ _ _ Hseen) in E. simpl in E.
      rewrite quote_app in E. discriminate E.
    + rewrite stableStringify_array, (stableStringify_object _ _ _ _ Hseen) in E.
      discriminate E.
    + apply json_like_object in Hb as (Hseen' & Hnodup' & Hall').
      rewrite (stableStringify_object _ _ _ _ Hseen),
        (stableStringify_object _ _ _ _ Hseen') in E.
      injection E as E.
      pose proof (sort_keyed_Permutation fs) as Hpf.
      pose proof (sort_keyed_Permutation gs) as Hpg.
      apply members_discriminate in E as [Hmembers ->].
      * split; [|done]. apply deep_object.
        -- intros k. rewrite !lookup_field_is_Some.
           rewrite <- Hpf, <- Hpg. by rewrite (Forall2_keys _ _ _ Hmembers).
        -- intros k v w Hv Hw.
           apply lookup_field_In in Hv, Hw.
           apply (Forall2_paired deep_equal _ _ k v w Hmembers).
           ++ by rewrite Hpf.
           ++ by rewrite Hpf.
           ++ by rewrite Hpg.
      * intros kv Hkv. rewrite Forall_forall in IH. apply IH.
        by rewrite <- Hpf.
      * intros kv Hkv. apply Hall. by rewrite <- Hpf.
      * intros kv Hkv. apply Hall'. by rewrite <- Hpg.
Qed.

(** *** Equal values, equal texts *)

Lemma same_number_text x y :
  same_value_zero (VNumber x) (VNumber y) = true ->
  JSNumber.toString x = JSNumber.toString y.
Proof.
  intros H.
  assert (Hxy : x = y \/ exists s s', x = S754_zero s /\ y = S754_zero s').
  { destruct x as [s|s| |sign m e]; try (apply JSNumberFacts.eqb_true; exact H).
    destruct y as [s'|s'| |sign' m' e']; try done. by left. }
  by destruct Hxy as [->|(s & s' & -> & ->)].
Qed.

(** Two values that are deep-equal have the same text, whatever the order
    of their properties. *)
Lemma stableStringify_deep_equal a :
  forall seen b seen',
    json_like seen a = true -> json_like seen' b = true -> deep_equal a b ->
    stableStringify a seen = stableStringify b seen'.
Proof.
  induction a as [| |c|x|s|l items IH|l fs IH] using jsvalue_ind;
    intros seen b seen' Ha Hb Heq; inversion Heq as [v w Hp Hs|? ? xs ys Hall|? ? ? gs Hkeys Hvalues];
    subst; try discriminate.
  - by destruct b.
  - destruct b as [| |d| | | |]; try discriminate. simpl in Hs.
    apply Bool.eqb_prop in Hs. by subst.
  - destruct b as [| | |y| | |]; try (by destruct x). simpl.
    by apply same_number_text.
  - destruct b as [| | | |s'| |]; try discriminate. simpl in Hs.
    apply String.eqb_eq in Hs. by subst.
  - pose proof (json_like_array _ _ _ Ha) as Hxs.
    pose proof (json_like_array _ _ _ Hb) as Hys.
    assert (Hmap : List.map (fun item => stableStringify item seen) items
                   = List.map (fun item => stableStringify item seen') ys).
    { clear Ha Hb Heq. induction Hall as [|x y xs ys Hxy Hall IHall]; simpl; [done|].
      apply Forall_cons_iff in IH as [IHx IH].
      f_equal.
      - apply IHx; [apply Hxs; by left|apply Hys; by left|done].
      - apply IHall; [done|intros z Hz; apply Hxs; by right
                      |intros z Hz; apply Hys; by right]. }
    simpl. by rewrite Hmap.
  - apply json_like_object in Ha as (Hseen & Hnodup & Hfs).
    apply json_like_object in Hb as (Hseen' & Hnodup' & Hgs).
    pose proof (stableStringify_object l fs seen "" Hseen) as E1.
    pose proof (stableStringify_object _ gs seen' "" Hseen') as E2.
    rewrite app_nil_r in E1, E2. rewrite E1, E2. do 3 f_equal.
    pose proof (sort_keyed_Permutation fs) as Hpf.
    pose proof (sort_keyed_Permutation gs) as Hpg.
    apply map_paired.
    + apply sorted_keys_unique; [done|done|].
      intros k. by rewrite <- !lookup_field_is_Some.
    + intros k v w Hv Hw. unfold member. simpl. do 2 f_equal.
      rewrite Hpf in Hv. rewrite Hpg in Hw.
      rewrite Forall_forall in IH.
      apply (IH (k, v) Hv); [by apply (Hfs (k, v))|by apply (Hgs (k, w))|].
      apply (Hvalues k); by apply In_lookup_field.
Qed.

(** *** Tool names *)

Lemma names_split s1 s2 r1 r2 :
  all_chars (fun c => negb (JSString.code c =? 58)) s1 = true ->
  all_chars (fun c => negb (JSString.code c =? 58)) s2 = true ->
  s1 +:+ "::" +:+ r1 = s2 +:+ "::" +:+ r2 -> s1 = s2 /\ r1 = r2.
Proof.
  revert s2. induction s1 as [|c s1 IH]; intros [|c' s2] H1 H2 E; norm_app.
  - by injection E as ->.
  - injection E as <- _. simpl in H2. discriminate H2.
  - injection E as -> _. simpl in H1. discriminate H1.
  - injection E as -> E. simpl in H1, H2.
    apply andb_prop in H1 as [_ H1]. apply andb_prop in H2 as [_ H2].
    by destruct (IH s2 H1 H2 E) as [-> ->].
Qed.

Lemma tool_name_text s :
  to_string (if truthy (VString s) then VString s else VString "") = s.
Proof. simpl. destruct (String.eqb_spec s ""); simpl; by subst. Qed.

End SignatureFacts.

(** C3, as the code has it. For tool names that are Strings without a
    colon and argument values that are JSON-like (no [undefined], no object
    inside itself, property names that differ, Numbers that [String] prints
    readably), two call signatures are equal exactly when the tool names
    are equal and the arguments are deep-equal, whatever the order of
    their properties. *)
Theorem signatures_discriminate (t1 t2 a b : jsvalue) :
  colon_free t1 = true -> colon_free t2 = true ->
  json_like [] a = true -> json_like [] b = true ->
  buildToolCallSignature t1 a = buildToolCallSignature t2 b <->
  t1 = t2 /\ deep_equal a b.
Proof.
  intros H1 H2 Ha Hb.
  destruct t1 as [| | | |s1| |], t2 as [| | | |s2| |]; try discriminate.
  unfold buildToolCallSignature. rewrite !SignatureFacts.tool_name_text.
  split.
  - intros E. apply SignatureFacts.names_split in E as [-> E]; [|done|done].
    split; [done|].
    apply (SignatureFacts.stableStringify_discriminates a [] b [] "" "" Ha Hb eq_refl eq_refl).
    by rewrite !StringFacts.app_nil_r.
  - intros [[= ->] Heq]. do 2 f_equal.
    by apply SignatureFacts.stableStringify_deep_equal.
Qed.

(** The theorem of C3 at [bookFlight] and the arguments
    [{ origin: 'SFO', count: 1 }] and [{ count: 1, origin: 'SFO' }]: the
    two signatures are the same text. *)
Lemma signatures_discriminate_witness :
  colon_free (VString "bookFlight") = true /\
  json_like [] origin_first = true /\ json_like [] count_first = true /\
  buildToolCallSignature (VString "bookFlight") origin_first
  = buildToolCallSignature (VString "bookFlight") count_first.
Proof.
  split; [reflexivity|]. split; [vm_compute; reflexivity|]. split; [vm_compute; reflexivity|].
  apply (signatures_discriminate (VString "bookFlight") (VString "bookFlight")
           origin_first count_first);
    [reflexivity|reflexivity|vm_compute; reflexivity|vm_compute; reflexivity|].
  split; [reflexivity|].
  apply deep_object.
  - intros k. cbn [lookup_field].
    destruct (String.eqb "origin" k), (String.eqb "count" k);
      split; intros [x Hx]; try discriminate Hx; by eexists.
  - intros k v w. cbn [lookup_field].
    destruct (String.eqb_spec "origin" k) as [<-|_].
    + change (String.eqb "count" "origin") with false. cbv iota.
      intros [= <-] [= <-]. by apply deep_primitive.
    + destruct (String.eqb "count" k); [|discriminate].
      intros [= <-] [= <-]. by apply deep_primitive.
Defined.

(** C3 fails as stated: [undefined] and [null] differ in type and in value,
    and [{ a: undefined }] differs from [{ a: null }], but their signatures
    are the same. *)
Lemma signatures_discriminate_counterexample :
  typeof VUndefined <> typeof VNull /\
  strict_equals VUndefined VNull = false /\
  ~ deep_equal VUndefined VNull /\
  buildToolCallSignature (VString "t") VUndefined
  = buildToolCallSignature (VString "t") VNull /\
  buildToolCallSignature (VString "t") (VObject 1%nat [("a", VUndefined)])
  = buildToolCallSignature (VString "t") (VObject 2%nat [("a", VNull)]).
Proof.
  split; [done|]. split; [done|]. split; [|split; reflexivity].
  intros H. by inversion H.
Qed.

(** * More of the schema engine *)

(** ** Normalization without exceptions *)






Section NormalizeReturns.

Variable host : Host.







End NormalizeReturns.



Section NormalizedType.

Variable host : Host.

(** X1. [generateTemplateFromSchema] returns a value for every schema and
    every path: it never throws, whatever the schema holds. *)
Theorem template_never_throws (schema : jsvalue) (path : list string) (a : alloc) :
  exists template a', generateTemplateFromSchema host schema path a = Ok template a'.
Proof. apply generateTemplateFromSchema_total. Qed.




End NormalizedType.

(** ** The object case keeps what the source has *)

Section ObjectPassThrough.

Variable host : Host.



End ObjectPassThrough.

(** ** Bounds *)

Module BoundFacts.
Import JSNumber.


End BoundFacts.

Section Clamp.

Variable host : Host.


End Clamp.





(** * More of the agent loop *)

(** ** Schemas are read without their identities *)

Module SchemaIdentity.
Import IdentityFacts.

















End SchemaIdentity.

(** ** The loop over a catalog of throw-free schemas *)

Section ThrowFreeCatalog.

Variable host : Host.
Variable World : Type.
Variable adapter : World -> list message -> list tool -> ai_response * World.
Variable gateway : World -> jsvalue -> jsvalue -> exec_response * World.
Variable tools : list tool.



(** X6. Every invocation of the loop finishes, by returning or by throwing,
    after at most [maxTurns] requests to the adapter, whatever the adapter,
    the gateway and the catalog do. *)
Theorem agent_loop_is_bounded (st : loop_state World) :
  match runAIAgentLoop host adapter gateway tools st with
  | Ok _ st' | Throw _ st' =>
    exists new, requests st' = requests st ++ new /\ (turns_of new <= maxTurns)%nat
  | OutOfFuel => False
  end.
Proof. apply runAIAgentLoop_bounded. Qed.

End ThrowFreeCatalog.


(** ** How the loop ends *)

Section LoopEnds.

Variable host : Host.
Variable World : Type.
Variable adapter : World -> list message -> list tool -> ai_response * World.
Variable gateway : World -> jsvalue -> jsvalue -> exec_response * World.
Variable tools : list tool.

(** X8. When the adapter answers the first request without an error and
    without function calls, the loop returns after that one request: the
    trimmed text of the answer, unless it is empty, is added to the
    conversation, to the chat and to the trace, and nothing is sent to the
    gateway. *)
Theorem plain_answer_ends_loop (st : loop_state World) (response : ai_response)
    (w : World) :
  adapter (world st) (aiMessages st) tools = (response, w) ->
  response_error response = None \/ response_error response = Some "" ->
  response_functionCalls response = None \/ response_functionCalls response = Some [] ->
  let text := JSString.trim (from_option id "" (response_text response)) in
  let said := negb (String.eqb text "") in
  runAIAgentLoop host adapter gateway tools st
  = Ok tt
      (LoopState
         (aiMessages st ++ (if said then [Message "assistant" text] else []))
         (chatTranscript st ++ (if said then [("assistant", text)] else []))
         (trace st ++ (if said then [ai_text (date_now_iso host) text] else []))
         ∅ true (heap st) w
         (requests st ++ [SendMessage (aiMessages st) tools])).
Proof.
  intros Hadapter Herror Hcalls text said.
  unfold runAIAgentLoop, enter_loop. unfold bind at 1. unfold modify at 1.
  change maxTurns with (S 4). cbn [run_turns]. unfold bind at 1.
  unfold run_turn. unfold bind at 1. unfold send_to_adapter at 1.
  cbn [world aiMessages toolsEnabled]. rewrite Hadapter.
  assert (Hquiet : forall s : loop_state World,
            match response_error response with
            | Some failure => if negb (String.eqb failure "") then throw failure else ret tt
            | None => ret tt
            end s = Ok tt s).
  { intros s. by destruct Herror as [-> | ->]. }
  unfold bind at 1. rewrite Hquiet.
  assert (Hnone : from_option id [] (response_functionCalls response) = []).
  { by destruct Hcalls as [-> | ->]. }
  rewrite Hnone. fold text. unfold said.
  destruct (negb (String.eqb text "")).
  - reflexivity.
  - cbn. by rewrite !app_nil_r.
Qed.

(** X9. When the adapter answers the first request with an error, the loop
    throws that error after that one request; the conversation, the chat and
    the trace are as they were. *)
Theorem provider_error_stops_loop (st : loop_state World) (response : ai_response)
    (w : World) (failure : string) :
  adapter (world st) (aiMessages st) tools = (response, w) ->
  response_error response = Some failure ->
  failure <> "" ->
  runAIAgentLoop host adapter gateway tools st
  = Throw failure
      (LoopState (aiMessages st) (chatTranscript st) (trace st) ∅ true (heap st) w
         (requests st ++ [SendMessage (aiMessages st) tools])).
Proof.
  intros Hadapter Herror Hfailure.
  unfold runAIAgentLoop, enter_loop. unfold bind at 1. unfold modify at 1.
  change maxTurns with (S 4). cbn [run_turns]. unfold bind at 1.
  unfold run_turn. unfold bind at 1. unfold send_to_adapter at 1.
  cbn [world aiMessages toolsEnabled]. rewrite Hadapter.
  unfold bind at 1. rewrite Herror.
  apply String.eqb_neq in Hfailure. by rewrite Hfailure.
Qed.

End LoopEnds.

Lemma plain_answer_ends_loop_witness :
  runAIAgentLoop sample_host adapter_silent gateway_ok [bookFlight_tool] (initial_state 0)
  = Ok tt
      (LoopState
         [Message "user" "book a flight"; Message "assistant" "done"]
         [("assistant", "done")]
         [ai_text (date_now_iso sample_host) "done"]
         ∅ true 100%nat 1%nat
         [SendMessage [Message "user" "book a flight"] [bookFlight_tool]]).
Proof.
  apply (plain_answer_ends_loop sample_host nat adapter_silent gateway_ok [bookFlight_tool]
           (initial_state 0) (AIResponse None (Some "done") None) 1%nat).
  - reflexivity.
  - by left.
  - by left.
Defined.

Lemma provider_error_stops_loop_witness :
  runAIAgentLoop sample_host adapter_failing gateway_ok [bookFlight_tool] (initial_state 0)
  = Throw "quota exceeded"
      (LoopState [Message "user" "book a flight"] [] [] ∅ true 100%nat 1%nat
         [SendMessage [Message "user" "book a flight"] [bookFlight_tool]]).
Proof.
  apply (provider_error_stops_loop sample_host nat adapter_failing gateway_ok
           [bookFlight_tool] (initial_state 0) (AIResponse (Some "quota exceeded") None None)
           1%nat "quota exceeded").
  - reflexivity.
  - reflexivity.
  - discriminate.
Defined.

(** ** The chat panel *)

Section ChatPanelFacts.

Variable host : Host.
Variable World : Type.
Variable adapter : World -> list message -> list tool -> ai_response * World.
Variable gateway : World -> jsvalue -> jsvalue -> exec_response * World.
Variable tools : list tool.
Variable isReady : World -> bool.

Implicit Types (p : panel World).

Lemma sendAIMessage_sends p :
  JSString.trim (aiPromptInput p) <> "" ->
  isReady (panel_world p) = true ->
  let userPrompt := JSString.trim (aiPromptInput p) in
  sendAIMessage host adapter gateway tools isReady p
  = try_finally
      (try_catch (await_loop host adapter gateway tools)
         (fun message =>
            let* _ := panel_appendChatLine "system" ("AI error: " +:+ message) in
            panel_push_trace host (fun ts => ai_error ts message)))
      (let* p' := get_state in set_send_disabled (negb (isReady (panel_world p'))))
      (prompted host p userPrompt).
Proof.
  intros Hprompt Hready userPrompt. unfold sendAIMessage.
  unfold bind at 1. unfold get_state at 1. fold userPrompt.
  apply String.eqb_neq in Hprompt. fold userPrompt in Hprompt. rewrite Hprompt, Hready.
  reflexivity.
Qed.

(** X10. [sendAIMessage] returns for every state of the panel, whatever the
    adapter, the gateway and the catalog do: what the loop throws is caught.
    It sends at most [maxTurns] requests to the adapter. When it had a prompt
    and a ready provider, it leaves the prompt field empty and the send
    button enabled exactly when the provider is still ready. *)
Theorem sendAIMessage_never_throws p :
  exists p',
    sendAIMessage host adapter gateway tools isReady p = Ok tt p' /\
    (exists new,
       panel_requests p' = panel_requests p ++ new /\ (turns_of new <= maxTurns)%nat) /\
    (JSString.trim (aiPromptInput p) <> "" -> isReady (panel_world p) = true ->
     aiPromptInput p' = "" /\
     aiSendBtn_disabled p' = negb (isReady (panel_world p'))).
Proof.
  destruct (String.eqb_spec (JSString.trim (aiPromptInput p)) "") as [Hblank|Hprompt].
  { exists p. unfold sendAIMessage, bind, get_state.
    rewrite Hblank. split; [reflexivity|]. split; [|by intros H; destruct H].
    exists []. rewrite app_nil_r. split; [done|]. unfold turns_of, maxTurns. simpl. lia. }
  destruct (isReady (panel_world p)) eqn:Hready.
  - rewrite (sendAIMessage_sends p Hprompt Hready).
    set (q := prompted host p _).
    pose proof (runAIAgentLoop_bounded host World adapter gateway tools (loop_of_panel q))
      as Hbound.
    unfold try_finally, try_catch, await_loop.
    destruct (runAIAgentLoop host adapter gateway tools (loop_of_panel q))
      as [[] st'|msg st'|]; [| |done].
    + eexists. split; [reflexivity|]. split; [exact Hbound|]. by intros _ _.
    + eexists. split; [reflexivity|]. split; [exact Hbound|]. by intros _ _.
  - eexists. unfold sendAIMessage, bind, get_state.
    apply String.eqb_neq in Hprompt. rewrite Hprompt, Hready.
    split; [reflexivity|]. split; [|by intros _ H].
    exists []. cbn. rewrite app_nil_r. split; [done|]. unfold maxTurns. lia.
Qed.

(** X11. When the loop throws, [sendAIMessage] writes the message of the
    exception as the chat line [AI error: ...] after what the loop had
    written, pushes an [ai_error] entry on the trace, and enables the send
    button again if the provider is still ready. *)
Theorem loop_failure_is_reported p (message : string) (st : loop_state World) :
  JSString.trim (aiPromptInput p) <> "" ->
  isReady (panel_world p) = true ->
  let userPrompt := JSString.trim (aiPromptInput p) in
  runAIAgentLoop host adapter gateway tools
    (LoopState (panel_aiMessages p ++ [Message "user" userPrompt])
       (panel_chatTranscript p ++ [("user", userPrompt)]) [] ∅ true
       (panel_heap p) (panel_world p) (panel_requests p))
  = Throw message st ->
  sendAIMessage host adapter gateway tools isReady p
  = Ok tt
      (Panel "" (negb (isReady (world st)))
         (globalStatus p) (statusTimeout p) (activeTab p)
         (aiMessages st)
         (chatTranscript st ++ [("system", "AI error: " +:+ message)])
         (panel_trace p ++ [ai_user_prompt (date_now_iso host) userPrompt]
            ++ List.map loop_event (trace st)
            ++ [ai_error (date_now_iso host) message])
         (heap st) (world st) (requests st)).
Proof.
  intros Hprompt Hready userPrompt Hloop.
  rewrite (sendAIMessage_sends p Hprompt Hready). fold userPrompt.
  unfold try_finally, try_catch, await_loop.
  change (loop_of_panel (prompted host p userPrompt))
    with (LoopState (panel_aiMessages p ++ [Message "user" userPrompt])
            (panel_chatTranscript p ++ [("user", userPrompt)]) [] ∅ true
            (panel_heap p) (panel_world p) (panel_requests p)).
  rewrite Hloop. cbn. by rewrite <- !app_assoc.
Qed.

(** X12. Without a prompt, or without a ready provider, [sendAIMessage]
    sends nothing and leaves the conversation, the chat, the trace and the
    prompt field as they are; without a ready provider it shows a warning
    and opens the settings tab. *)
Theorem nothing_sent_unless_ready p :
  JSString.trim (aiPromptInput p) = "" \/ isReady (panel_world p) = false ->
  exists p',
    sendAIMessage host adapter gateway tools isReady p = Ok tt p' /\
    panel_requests p' = panel_requests p /\
    panel_aiMessages p' = panel_aiMessages p /\
    panel_chatTranscript p' = panel_chatTranscript p /\
    panel_trace p' = panel_trace p /\
    aiPromptInput p' = aiPromptInput p /\
    (JSString.trim (aiPromptInput p) <> "" ->
     activeTab p' = "settings" /\
     globalStatus p'
     = Some ("Configure and enable an AI provider in Settings first.", "warning")).
Proof.
  intros Hidle. unfold sendAIMessage, bind, get_state.
  destruct (String.eqb_spec (JSString.trim (aiPromptInput p)) "") as [Hblank|Hprompt].
  { exists p. by repeat split. }
  destruct Hidle as [Hblank|Hready]; [done|]. rewrite Hready.
  eexists. split; [reflexivity|]. by repeat split.
Qed.

End ChatPanelFacts.

Lemma loop_failure_is_reported_witness :
  exists p',
    sendAIMessage sample_host adapter_counting gateway_ok [note_tool] (fun _ => true)
      (typed_panel " take a note ") = Ok tt p' /\
    list.last (panel_chatTranscript p') = Some ("system", "AI error: TypeError") /\
    aiSendBtn_disabled p' = false.
Proof.
  eexists. split.
  - eapply (loop_failure_is_reported sample_host nat adapter_counting gateway_ok [note_tool]
              (fun _ => true) (typed_panel " take a note ") "TypeError").
    + intros H. vm_compute in H. discriminate H.
    + reflexivity.
    + vm_compute. reflexivity.
  - split; reflexivity.
Defined.

Lemma nothing_sent_unless_ready_witness :
  exists p',
    sendAIMessage sample_host adapter_silent gateway_ok [bookFlight_tool] (fun _ => false)
      (typed_panel "book a flight") = Ok tt p' /\
    panel_requests p' = [] /\
    activeTab p' = "settings".
Proof.
  destruct (nothing_sent_unless_ready sample_host nat adapter_silent gateway_ok
              [bookFlight_tool] (fun _ => false) (typed_panel "book a flight"))
    as (p' & Hsend & Hrequests & _ & _ & _ & _ & Htab); [by right|].
  exists p'. split; [exact Hsend|]. split; [exact Hrequests|].
  apply Htab. intros H. vm_compute in H. discriminate H.
Defined.

(** * Model lists *)

Module ModelFacts.

Lemma take_length n s : (String.length (JSString.take n s) <= n)%nat.
Proof.
  revert s. induction n as [|n IH]; intros [|c s]; simpl; try lia.
  specialize (IH s). lia.
Qed.

(** The identifiers that the loop collects are new, non-empty and differ
    from one another. *)
Lemma normalize_models_ids input seen :
  NoDup (List.map entry_id (normalize_models input seen)) /\
  (forall id, In id (List.map entry_id (normalize_models input seen)) ->
     id <> "" /\ id ∉ seen).
Proof.
  revert seen. induction input as [|model rest IH]; intros seen; cbn [normalize_models].
  - split; [constructor|]. by intros id [].
  - set (id := JSString.trim _).
    destruct (String.eqb_spec id "") as [Hid|Hid]; cbn [orb]; [apply IH|].
    destruct (bool_decide_reflect (id ∈ seen)) as [Hseen|Hseen]; [apply IH|].
    destruct (IH ({[id]} ∪ seen)) as [Hnodup Hnew].
    cbn [List.map entry_id]. split.
    + constructor; [|exact Hnodup]. intros Hin.
      apply Hnew in Hin as [_ Hin]. apply Hin, elem_of_union_l. by apply elem_of_singleton.
    + intros id' [<-|Hin]; [done|]. apply Hnew in Hin as [Hne Hin].
      split; [done|]. intros Hseen'. by apply Hin, elem_of_union_r.
Qed.

Lemma normalize_models_caps input seen entry :
  In entry (normalize_models input seen) ->
  (String.length (entry_name entry) <= 120)%nat /\
  (String.length (entry_description entry) <= 200)%nat.
Proof.
  revert seen. induction input as [|model rest IH]; intros seen; cbn [normalize_models];
    [done|].
  destruct (_ || _); [apply IH|].
  intros [Heq|Hin]; [|by apply (IH _ Hin)]. subst entry.
  cbn [entry_name entry_description]. split; apply take_length.
Qed.

Lemma In_firstn {A} n (l : list A) x : In x (List.firstn n l) -> In x l.
Proof.
  revert l. induction n as [|n IH]; intros [|y l]; simpl; try done.
  intros [->|Hin]; [by left|right; by apply IH].
Qed.

Lemma NoDup_firstn {A} n (l : list A) : NoDup l -> NoDup (List.firstn n l).
Proof.
  revert l. induction n as [|n IH]; intros [|x l] Hl; simpl; try constructor.
  - inversion Hl as [|? ? Hx Hrest]; subst. intros Hin. apply Hx.
    by apply (In_firstn n).
  - inversion Hl; subst. by apply IH.
Qed.

Lemma existsb_id_false preferred (entries : list model_entry) :
  existsb (fun entry => String.eqb (entry_id entry) preferred) entries = false ->
  ~ In preferred (List.map entry_id entries).
Proof.
  induction entries as [|e entries IH]; simpl; [by intros _ []|].
  intros H. apply orb_false_elim in H as [He Hrest].
  apply String.eqb_neq in He. intros [Heq|Hin]; [done|]. by apply IH.
Qed.

Lemma existsb_id_true preferred (entries : list model_entry) :
  existsb (fun entry => String.eqb (entry_id entry) preferred) entries = true ->
  In preferred (List.map entry_id entries).
Proof.
  induction entries as [|e entries IH]; simpl; [discriminate|].
  intros H. apply orb_prop in H as [He|Hrest].
  - apply String.eqb_eq in He. by left.
  - right. by apply IH.
Qed.

End ModelFacts.

Section StoredModels.

Variables providerId models preferredModel : jsvalue.

(** X13. The list that [prepareModelsForStorage] returns has no two entries
    with the same identifier, no entry with an empty identifier, and at most
    [maxModels] entries: 24 for the provider [openai], 60 for any other. *)
Theorem stored_models_distinct_and_capped :
  let out := prepareModelsForStorage providerId models preferredModel in
  NoDup (List.map entry_id out) /\
  List.Forall (fun entry => entry_id entry <> "") out /\
  (List.length out <= max_models providerId)%nat.
Proof.
  unfold prepareModelsForStorage. set (preferred := preferred_id preferredModel).
  set (input := match models with VArray _ items => items | _ => [] end).
  destruct (ModelFacts.normalize_models_ids input ∅) as [Hnodup Hnew].
  set (normalized := normalize_models input ∅) in *.
  set (m := max_models providerId).
  assert (Hm : (1 <= m)%nat).
  { subst m. unfold max_models. destruct (is_text providerId "openai"); lia. }
  assert (Hout : NoDup (List.map entry_id (List.firstn m normalized))).
  { rewrite <- List.firstn_map. by apply ModelFacts.NoDup_firstn. }
  assert (Hids : List.Forall (fun entry => entry_id entry <> "") (List.firstn m normalized)).
  { apply List.Forall_forall. intros e He. apply ModelFacts.In_firstn in He.
    apply (Hnew (entry_id e)). by apply List.in_map. }
  assert (Hlen : (List.length (List.firstn m normalized) <= m)%nat).
  { apply List.firstn_le_length. }
  destruct (String.eqb_spec preferred "") as [Hblank|Hpreferred]; simpl; [done|].
  destruct (existsb _ (List.firstn m normalized)) eqn:Hsome; simpl; [done|].
  apply ModelFacts.existsb_id_false in Hsome.
  set (existing := match List.find _ normalized with Some e => e | None => _ end).
  assert (Hexisting : entry_id existing = preferred).
  { subst existing.
    destruct (List.find _ normalized) as [e|] eqn:Hfind; [|done].
    apply List.find_some in Hfind as [_ He]. by apply String.eqb_eq in He. }
  split; [|split].
  - constructor.
    + rewrite Hexisting. intros Hin. apply Hsome.
      rewrite <- List.firstn_map in Hin. apply ModelFacts.In_firstn in Hin. done.
    + rewrite <- List.firstn_map. by apply ModelFacts.NoDup_firstn.
  - constructor; [by rewrite Hexisting|].
    apply List.Forall_forall. intros e He. apply ModelFacts.In_firstn in He.
    rewrite List.Forall_forall in Hids. by apply Hids.
  - simpl. pose proof (List.firstn_le_length (m - 1) (List.firstn m normalized)). lia.
Qed.

(** X14. A preferred model with a non-empty identifier is always in the list
    that [prepareModelsForStorage] returns, also when the models read from
    the provider do not have it or have it beyond the first [maxModels]. *)
Theorem preferred_model_is_stored :
  preferred_id preferredModel <> "" ->
  In (preferred_id preferredModel) (List.map entry_id (prepareModelsForStorage providerId models preferredModel)).
Proof.
  intros Hpreferred. unfold prepareModelsForStorage.
  apply String.eqb_neq in Hpreferred. rewrite Hpreferred. cbn [negb andb].
  destruct (existsb _ (List.firstn _ _)) eqn:Hsome; simpl.
  - by apply ModelFacts.existsb_id_true.
  - left. destruct (List.find _ _) as [e|] eqn:Hfind; [|done].
    apply List.find_some in Hfind as [_ He]. by apply String.eqb_eq in He.
Qed.

(** X15. Every entry that [prepareModelsForStorage] returns has a name of at
    most 120 and a description of at most 200 code units, except the entry
    made up for a preferred model that the provider did not list: its name
    is the whole identifier. *)
Theorem stored_entries_are_cut (entry : model_entry) :
  In entry (prepareModelsForStorage providerId models preferredModel) ->
  entry = ModelEntry (preferred_id preferredModel) (preferred_id preferredModel) "" \/
  ((String.length (entry_name entry) <= 120)%nat /\
   (String.length (entry_description entry) <= 200)%nat).
Proof.
  unfold prepareModelsForStorage. set (preferred := preferred_id preferredModel).
  set (input := match models with VArray _ items => items | _ => [] end).
  set (normalized := normalize_models input ∅).
  assert (Hcut : forall e n, In e (List.firstn n normalized) ->
            (String.length (entry_name e) <= 120)%nat /\
            (String.length (entry_description e) <= 200)%nat).
  { intros e n He. apply ModelFacts.In_firstn in He.
    by apply (ModelFacts.normalize_models_caps input ∅). }
  destruct (negb (String.eqb preferred "") && _).
  - intros [<-|Hin].
    + destruct (List.find _ normalized) as [e|] eqn:Hfind; [|by left].
      right. apply List.find_some in Hfind as [He _].
      by apply (ModelFacts.normalize_models_caps input ∅).
    + right. apply ModelFacts.In_firstn in Hin. by apply (Hcut _ _ Hin).
  - intros Hin. right. by apply (Hcut _ _ Hin).
Qed.

End StoredModels.

Lemma preferred_model_is_stored_witness :
  In "claude" (List.map entry_id
                 (prepareModelsForStorage (VString "openai") listed_models (VString " claude "))).
Proof.
  apply (preferred_model_is_stored (VString "openai") listed_models (VString " claude ")).
  intros H. vm_compute in H. discriminate H.
Defined.

Lemma stored_entries_are_cut_witness :
  ModelEntry "o3" "o3" "" = ModelEntry "claude" "claude" "" \/
  ((String.length "o3" <= 120)%nat /\ (String.length "" <= 200)%nat).
Proof.
  apply (stored_entries_are_cut (VString "openai") listed_models (VString " claude ")
           (ModelEntry "o3" "o3" "")).
  vm_compute. auto.
Defined.

(** * What the page hands over *)

Module ContentFacts.
Import Content.

Section Copies.

Variable copy : jsvalue -> M jsvalue.
Variable P : jsvalue -> Prop.



End Copies.


End ContentFacts.


Module CopyFacts.
Import Content.



Section Copies.

Variable copy : jsvalue -> M jsvalue.



End Copies.


End CopyFacts.




Section ProviderSchemas.

Variable default_properties : loc.


End ProviderSchemas.

(** * Manual execution *)

Section ManualExecution.

Variable host : Host.
Variable World : Type.
Variable gateway : World -> jsvalue -> jsvalue -> exec_response * World.
Variable elapsed : World -> World -> number.

Implicit Types (t : tools_tab World).

(** X20. When the text of the input field is not JSON, [executeSelectedTool]
    returns without a request to the gateway: the result pane and the status
    bar report the invalid input, the execute button is enabled again, and
    the trace is as it was. *)
Theorem invalid_input_is_reported t (selected : tool) (message : string) (a' : alloc) :
  selectedTool t = Some selected ->
  JSON.parse (input_text t) (tab_heap t) = Throw message a' ->
  executeSelectedTool host gateway elapsed t
  = Ok tt
      (ToolsTab (Some selected) (toolInputArgs t) false ("Invalid JSON: " +:+ message)
         (Some ("Invalid tool input JSON", "error")) (Some 3500%nat)
         (tab_trace t) a' (tab_world t) (tab_requests t)).
Proof.
  intros Hselected Hparse. unfold executeSelectedTool.
  unfold bind at 1. unfold get_state at 1. rewrite Hselected.
  unfold bind at 1. unfold set_execute_disabled at 1, modify at 1.
  unfold bind at 1. unfold set_result at 1, modify at 1.
  unfold bind at 1. unfold try_catch at 1. unfold bind at 1. unfold tab_on_heap at 1.
  cbn [tab_heap]. rewrite Hparse.
  cbn. by rewrite Hselected.
Qed.

(** X22. Normalization runs outside the [try] of [executeSelectedTool]: when
    it throws, the exception leaves [executeSelectedTool], nothing is sent to
    the gateway, and the execute button stays disabled. *)
Theorem normalization_failure_locks_button t (selected : tool)
    (inputArgs schema : jsvalue) (message : string) (a1 a2 a3 : alloc) :
  selectedTool t = Some selected ->
  JSON.parse (input_text t) (tab_heap t) = Ok inputArgs a1 ->
  parseSchema (tool_inputSchema selected) a1 = Ok schema a2 ->
  normalizeInputForSchema host schema inputArgs [] a2 = Throw message a3 ->
  executeSelectedTool host gateway elapsed t
  = Throw message
      (ToolsTab (Some selected) (toolInputArgs t) true "" (tab_status t)
         (tab_statusTimeout t) (tab_trace t) a3 (tab_world t) (tab_requests t)).
Proof.
  intros Hselected Hparse Hschema Hnormalize. unfold executeSelectedTool.
  unfold bind at 1. unfold get_state at 1. rewrite Hselected.
  unfold bind at 1. unfold set_execute_disabled at 1, modify at 1.
  unfold bind at 1. unfold set_result at 1, modify at 1.
  unfold bind at 1. unfold try_catch at 1. unfold bind at 1. unfold tab_on_heap at 1.
  cbn [tab_heap]. rewrite Hparse.
  cbn [ret]. unfold bind at 1. unfold tab_on_heap at 1. cbn [tab_heap]. rewrite Hschema.
  unfold bind at 1. unfold tab_on_heap at 1. cbn [tab_heap]. rewrite Hnormalize.
  cbn. by rewrite Hselected.
Qed.


End ManualExecution.

Lemma invalid_input_is_reported_witness :
  executeSelectedTool sample_host gateway_ok steady_clock (fresh_tab bookFlight_tool "{")
  = Ok tt
      (ToolsTab (Some bookFlight_tool) "{" false "Invalid JSON: SyntaxError"
         (Some ("Invalid tool input JSON", "error")) (Some 3500%nat) [] 101%nat 0%nat []).
Proof.
  apply (invalid_input_is_reported sample_host nat gateway_ok steady_clock
           (fresh_tab bookFlight_tool "{") bookFlight_tool "SyntaxError" 101%nat).
  - reflexivity.
  - vm_compute. reflexivity.
Defined.


Lemma normalization_failure_locks_button_witness :
  exists a3,
    executeSelectedTool sample_host gateway_ok steady_clock
      (fresh_tab note_tool (JSON.stringify_text (VObject 0%nat [("s", num 5)])))
    = Throw "TypeError"
        (ToolsTab (Some note_tool) (JSON.stringify_text (VObject 0%nat [("s", num 5)]))
           true "" None None [] a3 0%nat []).
Proof.
  eexists.
  eapply (normalization_failure_locks_button sample_host nat gateway_ok steady_clock
            (fresh_tab note_tool (JSON.stringify_text (VObject 0%nat [("s", num 5)])))
            note_tool).
  - reflexivity.
  - vm_compute. reflexivity.
  - vm_compute. reflexivity.
  - vm_compute. reflexivity.
Defined.

(** * More of the object and array cases *)

Section Shapes.

Variable host : Host.








End Shapes.




(** * The loop never rewrites its history *)

Section AppendOnly.

Variable host : Host.
Variable World : Type.
Variable adapter : World -> list message -> list tool -> ai_response * World.
Variable gateway : World -> jsvalue -> jsvalue -> exec_response * World.
Variable tools : list tool.

Implicit Types (st : loop_state World) (locals : turn_locals) (call : function_call).

Lemma extends_refl st : extends st st.
Proof. by repeat split. Qed.

Lemma extends_trans st1 st2 st3 : extends st1 st2 -> extends st2 st3 -> extends st1 st3.
Proof.
  intros (Hm1 & Hc1 & Ht1 & Hr1) (Hm2 & Hc2 & Ht2 & Hr2).
  repeat split; by etrans.
Qed.

Lemma grows_bind {A B} (c : comp (loop_state World) A) (f : A -> comp (loop_state World) B) :
  grows c -> (forall x, grows (f x)) -> grows (bind c f).
Proof.
  intros Hc Hf st. specialize (Hc st). unfold bind.
  destruct (c st) as [x st1|msg st1|]; [|done|done].
  specialize (Hf x st1). destruct (f x st1) as [y st2|msg st2|]; [| |done];
    by apply (extends_trans _ st1).
Qed.

Lemma grows_try_catch {A} (c : comp (loop_state World) A) h :
  grows c -> (forall msg, grows (h msg)) -> grows (try_catch c h).
Proof.
  intros Hc Hh st. specialize (Hc st). unfold try_catch.
  destruct (c st) as [x st1|msg st1|]; [done| |done].
  specialize (Hh msg st1). destruct (h msg st1) as [y st2|msg2 st2|]; [| |done];
    by apply (extends_trans _ st1).
Qed.

Lemma grows_ret {A} (x : A) : grows (ret (S:=loop_state World) x).
Proof. intros st. apply extends_refl. Qed.

Lemma grows_throw {A} msg : grows (@throw (loop_state World) A msg).
Proof. intros st. apply extends_refl. Qed.

Lemma grows_modify f : (forall st, extends st (f st)) -> grows (modify f).
Proof. intros Hf st. apply Hf. Qed.

Lemma grows_get_state : grows (get_state (S:=loop_state World)).
Proof. intros st. apply extends_refl. Qed.

Lemma grows_on_heap {A} (c : M A) : grows (on_heap (World:=World) c).
Proof.
  intros st. unfold on_heap. destruct (c (heap st)); [| |done]; by repeat split.
Qed.

Lemma grows_push_message r c : grows (push_message (World:=World) r c).
Proof.
  apply grows_modify. intros st. repeat split; simpl; try done. by apply prefix_app_r.
Qed.

Lemma grows_appendChatLine r c : grows (appendChatLine (World:=World) r c).
Proof.
  apply grows_modify. intros st. repeat split; simpl; try done. by apply prefix_app_r.
Qed.

Lemma grows_push_trace event : grows (push_trace host (World:=World) event).
Proof.
  apply grows_modify. intros st. repeat split; simpl; try done. by apply prefix_app_r.
Qed.

Lemma grows_record_call sig status : grows (record_call (World:=World) sig status).
Proof. apply grows_modify. intros st. by repeat split. Qed.

Lemma grows_disable_tools : grows (disable_tools (World:=World)).
Proof. apply grows_modify. intros st. by repeat split. Qed.

Lemma grows_send_to_adapter : grows (send_to_adapter adapter tools).
Proof.
  intros st. unfold send_to_adapter.
  destruct (adapter (world st) (aiMessages st) _) as [response w].
  repeat split; simpl; try done. by apply prefix_app_r.
Qed.

Lemma grows_send_to_gateway name inputArgs : grows (send_to_gateway gateway name inputArgs).
Proof.
  intros st. unfold send_to_gateway.
  destruct (gateway (world st) name inputArgs) as [[msg|response] w];
    repeat split; simpl; try done; by apply prefix_app_r.
Qed.

Lemma grows_normalize_call_arguments toolName args :
  grows (normalize_call_arguments host (World:=World) tools toolName args).
Proof.
  unfold normalize_call_arguments. destruct (find _ tools); [|apply grows_ret].
  apply grows_bind; [apply grows_on_heap|]. intros schema.
  apply grows_bind; [apply grows_on_heap|]. intros normalized.
  destruct (changed_of normalized); [|apply grows_ret].
  apply grows_bind; [apply grows_push_trace|]. intros _. apply grows_ret.
Qed.

Lemma grows_execute_call toolName args sig locals :
  grows (execute_call host gateway toolName args sig locals).
Proof.
  unfold execute_call. apply grows_try_catch.
  - apply grows_bind; [apply grows_send_to_gateway|]. intros response.
    destruct (truthy _); [apply grows_throw|].
    apply grows_bind; [apply grows_record_call|]. intros _.
    apply grows_bind; [apply grows_push_trace|]. intros _. apply grows_ret.
  - intros msg.
    apply grows_bind; [apply grows_record_call|]. intros _.
    apply grows_bind; [apply grows_push_trace|]. intros _. apply grows_ret.
Qed.

Lemma grows_process_call call locals : grows (process_call host gateway tools call locals).
Proof.
  unfold process_call.
  apply grows_bind; [apply grows_on_heap|]. intros args.
  apply grows_bind; [apply grows_get_state|]. intros st0.
  destruct (executedToolCalls st0 !! _) as [[|]|].
  - apply grows_bind; [apply grows_push_trace|]. intros _. apply grows_ret.
  - apply grows_bind; [apply grows_normalize_call_arguments|]. intros args'.
    apply grows_bind; [apply grows_appendChatLine|]. intros _. apply grows_execute_call.
  - apply grows_bind; [apply grows_normalize_call_arguments|]. intros args'.
    apply grows_bind; [apply grows_appendChatLine|]. intros _. apply grows_execute_call.
Qed.

Lemma grows_process_calls calls locals :
  grows (process_calls host gateway tools calls locals).
Proof.
  revert locals. induction calls as [|call rest IH]; intros locals; simpl.
  - apply grows_ret.
  - apply grows_bind; [apply grows_process_call|]. intros locals'. apply IH.
Qed.

Lemma grows_finish_turn locals : grows (finish_turn host (World:=World) locals).
Proof.
  unfold finish_turn. destruct (_ && _).
  - apply grows_bind; [apply grows_disable_tools|]. intros _.
    apply grows_bind; [apply grows_push_message|]. intros _.
    apply grows_bind; [apply grows_appendChatLine|]. intros _.
    apply grows_bind; [apply grows_push_trace|]. intros _. apply grows_ret.
  - apply grows_bind; [apply grows_push_message|]. intros _.
    apply grows_bind; [apply grows_appendChatLine|]. intros _. apply grows_ret.
Qed.

Lemma grows_run_turn : grows (run_turn host adapter gateway tools).
Proof.
  unfold run_turn.
  apply grows_bind; [apply grows_send_to_adapter|]. intros response.
  apply grows_bind.
  { destruct (response_error response) as [failure|]; [|apply grows_ret].
    destruct (negb _); [apply grows_throw|apply grows_ret]. }
  intros _. apply grows_bind.
  { destruct (negb _); [|apply grows_ret].
    apply grows_bind; [apply grows_push_message|]. intros _.
    apply grows_bind; [apply grows_appendChatLine|]. intros _. apply grows_push_trace. }
  intros _. destruct (default [] (response_functionCalls response)) as [|call calls];
    [apply grows_ret|].
  apply grows_bind; [apply grows_process_calls|]. intros locals.
  apply grows_finish_turn.
Qed.

Lemma grows_run_turns n : grows (run_turns host adapter gateway tools n).
Proof.
  induction n as [|n IH]; simpl.
  - apply grows_appendChatLine.
  - apply grows_bind; [apply grows_run_turn|]. intros [|]; [apply grows_ret|apply IH].
Qed.

(** X26. The loop never rewrites its history: whether it returns or throws,
    the conversation, the chat transcript, the trace and the requests it
    leaves behind start with what was there when it was invoked. *)
Theorem loop_only_appends (st : loop_state World) :
  match runAIAgentLoop host adapter gateway tools st with
  | Ok _ st' | Throw _ st' =>
    aiMessages st `prefix_of` aiMessages st' /\
    chatTranscript st `prefix_of` chatTranscript st' /\
    trace st `prefix_of` trace st' /\
    requests st `prefix_of` requests st'
  | OutOfFuel => False
  end.
Proof.
  pose proof (runAIAgentLoop_bounded host World adapter gateway tools st) as Hbound.
  assert (Hgrows : grows (runAIAgentLoop host adapter gateway tools)).
  { unfold runAIAgentLoop. apply grows_bind; [|intros _; apply grows_run_turns].
    apply grows_modify. intros st0. by repeat split. }
  specialize (Hgrows st).
  destruct (runAIAgentLoop host adapter gateway tools st); [exact Hgrows|exact Hgrows|done].
Qed.

End AppendOnly.

(** * The tool lists *)





(** * The tools of the page *)






